(** * Consolidation of complex intersections (osm2gmns)

    A shallow embedding of [osm2gmns/osmnet/complex_intersection.py]:
    the detection of node clusters ([_identifyComplexIntersections]) and
    their consolidation ([consolidateComplexIntersections]), with the
    properties of the written specification stated and proved over it,
    followed by further properties of the two functions read off the code.

    Python objects are modelled by an object store: a [Node] or a [Link]
    lives at a reference, and the dictionaries, lists and sets of the
    program hold references, so that an attribute assignment made through
    one alias is seen through every other one. *)

From Stdlib Require Import ZArith Floats.
From stdpp Require Import gmap strings list.

Local Open Scope Z_scope.
#[local] Set Warnings "-clear-no-such-hyp".

(** ** Insertion-ordered dictionaries

    A Python [dict] iterates in insertion order; assigning to a key that is
    present keeps its position, assigning to a new key appends, and [del]
    of an absent key raises [KeyError] (here: [None]). *)

Module OrderedDict.
Section Dict.
Context {K V : Type} `{EqDecision K}.

Definition t := list (K * V).

Fixpoint get (k : K) (d : t) : option V :=
  match d with
  | [] => None
  | (k', v) :: d' => if decide (k = k') then Some v else get k d'
  end.

Fixpoint set (k : K) (v : V) (d : t) : t :=
  match d with
  | [] => [(k, v)]
  | (k', v') :: d' =>
      if decide (k = k') then (k, v) :: d' else (k', v') :: set k v d'
  end.

Fixpoint del (k : K) (d : t) : option t :=
  match d with
  | [] => None
  | (k', v') :: d' =>
      if decide (k = k') then Some d' else cons (k', v') <$> del k d'
  end.

Definition keys (d : t) : list K := d.*1.
Definition values (d : t) : list V := d.*2.
End Dict.
Arguments t : clear implicits.
End OrderedDict.

Abbreviation odict := OrderedDict.t.

(** ** Data model *)

(** References to [Node] and [Link] objects (object identity). *)
Abbreviation nref := positive (only parsing).
Abbreviation lref := positive (only parsing).

(** A [shapely] point: two binary64 coordinates. *)
Record Point := mkPoint { geom_x : float; geom_y : float }.

(** The attributes of a [Node] that the program reads or writes. An
    attribute that holds [None] in Python is [None] here. *)
Record Node := mkNode {
  node_id : Z;
  osm_node_id : option string;
  osm_highway : option string;
  ctrl_type : option string;
  geometry : option Point;
  geometry_xy : option Point;
  main_node_id : option Z;
  incoming_link_list : list lref;
  outgoing_link_list : list lref
}.

(** The attributes of a link. A length is a Python float, a binary64
    number: it can be an infinity or a NaN. *)
Record Link := mkLink {
  link_id : Z;
  from_node : nref;
  to_node : nref;
  link_length : float
}.

(** Modelled from the spec: the constructor [Node(node_id)] of
    [osm2gmns.networkclass.macronet], which is not part of the source at hand:
    a new node carries its identifier, no group identifier, no control type,
    no coordinates yet, and two empty link lists of its own. *)
Definition Node_init (nid : Z) : Node :=
  {| node_id := nid; osm_node_id := None; osm_highway := None;
     ctrl_type := None; geometry := None; geometry_xy := None;
     main_node_id := None; incoming_link_list := []; outgoing_link_list := [] |}.

Global Instance Node_inhabited : Inhabited Node := populate (Node_init 0).
Global Instance Link_inhabited : Inhabited Link :=
  populate {| link_id := 0; from_node := 1%positive; to_node := 1%positive;
              link_length := 0%float |}.

(** The network together with the objects it reaches: [nodes] and [links]
    are the object store, the other four fields are the attributes of the
    [Network] instance. *)
Record Network := mkNetwork {
  nodes : gmap nref Node;
  links : gmap lref Link;
  node_dict : odict Z nref;
  link_dict : odict Z lref;
  max_node_id : Z;
  max_main_node_id : Z
}.

(** Reading an object through a reference. A reference held by a live
    object always denotes an object of the store; the lookups are total for
    convenience, and what is proved about a network assumes, or derives,
    that the references it meets are allocated. *)
Definition node_of (net : Network) (r : nref) : Node := nodes net !!! r.
Definition link_of (net : Network) (l : lref) : Link := links net !!! l.

(** Attribute assignments. *)
Definition set_main_node_id (v : option Z) (n : Node) : Node :=
  {| node_id := node_id n; osm_node_id := osm_node_id n;
     osm_highway := osm_highway n; ctrl_type := ctrl_type n;
     geometry := geometry n; geometry_xy := geometry_xy n;
     main_node_id := v;
     incoming_link_list := incoming_link_list n;
     outgoing_link_list := outgoing_link_list n |}.

Definition is_signal (n : Node) : bool :=
  bool_decide (ctrl_type n = Some "signal"%string).

(** ** Detection: [_identifyComplexIntersections] *)

(** Python's [a > b] on floats: [b < a], which is false as soon as one of
    the two is a NaN. *)
Definition float_gt (a b : float) : bool := PrimFloat.ltb b a.

(** The three [continue] tests of the first loop, in the order of the
    source. *)
Definition candidate_link (net : Network) (int_buffer : float) (lk : Link) : bool :=
  if float_gt (link_length lk) int_buffer then false
  else if negb (bool_decide (main_node_id (node_of net (from_node lk)) = None)
                && bool_decide (main_node_id (node_of net (to_node lk)) = None))
  then false
  else if negb (is_signal (node_of net (from_node lk))
                && is_signal (node_of net (to_node lk)))
  then false
  else true.

(** [group_list] and [group_status], grown in lockstep. *)
Definition groups : Type := list (gset nref) * list nat.

(** The set literal [{link.from_node, link.to_node}]. *)
Definition link_group (lk : Link) : gset nref :=
  {[ from_node lk; to_node lk ]}.

Definition collect_step (net : Network) (int_buffer : float)
    (acc : groups) (item : Z * lref) : groups :=
  let lk := link_of net item.2 in
  if candidate_link net int_buffer lk
  then (acc.1 ++ [link_group lk], acc.2 ++ [1%nat])
  else acc.

Definition collect_groups (net : Network) (int_buffer : float) : groups :=
  foldl (collect_step net int_buffer) ([], []) (link_dict net).

(** One iteration of the inner loop: [group_no1 = i], [group_no2 = j].
    [group1] is the object stored at index [i], so its in-place [update] is
    an update of the list at [i]. *)
Definition inner_step (i : nat) (s : groups) (j : nat) : groups :=
  match s.2 !! j with
  | Some (S _) =>
      if decide (i = j) then s
      else match s.1 !! i, s.1 !! j with
           | Some group1, Some group2 =>
               if bool_decide (0 < size (group1 ∩ group2))%nat
               then (<[i := group1 ∪ group2]> s.1, <[j := 0%nat]> s.2)
               else s
           | _, _ => s
           end
  | _ => s
  end.

Definition outer_step (s : groups) (i : nat) : groups :=
  match s.2 !! i with
  | Some (S _) => foldl (inner_step i) s (seq 0 (length s.1))
  | _ => s
  end.

(** One full pass of the [while] body. *)
Definition merge_pass (s : groups) : groups :=
  foldl outer_step s (seq 0 (length s.1)).

Definition valid_groups (s : groups) : nat := sum_list s.2.

(** The [while True] loop; [fuel] bounds the number of passes. *)
Fixpoint merge_loop (fuel : nat) (number_of_valid_groups : nat) (s : groups)
    : option groups :=
  match fuel with
  | O => None
  | S fuel' =>
      let s' := merge_pass s in
      let new_number_of_valid_groups := valid_groups s' in
      if decide (number_of_valid_groups = new_number_of_valid_groups)
      then Some s'
      else merge_loop fuel' new_number_of_valid_groups s'
  end.

(** The groups as they stand when the [while] loop is left. A pass that
    merges anything lowers the number of valid groups, so one more pass than
    there are valid groups is enough (see [merge_loop_terminates]). *)
Definition merged_groups (net : Network) (int_buffer : float) : option groups :=
  let s := collect_groups net int_buffer in
  merge_loop (S (valid_groups s)) (valid_groups s) s.

(** [for node in group: node.main_node_id = max_main_node_id]. *)
Definition assign_group (m : Z) (group : gset nref) (ns : gmap nref Node)
    : gmap nref Node :=
  foldl (λ acc r, alter (set_main_node_id (Some m)) r acc) ns (elements group).

Definition assign_step (acc : gmap nref Node * Z) (item : gset nref * nat)
    : gmap nref Node * Z :=
  match item.2 with
  | O => acc
  | S _ => (assign_group acc.2 item.1 acc.1, acc.2 + 1)
  end.

Definition assign_groups (s : groups) (acc : gmap nref Node * Z)
    : gmap nref Node * Z :=
  foldl assign_step acc (zip s.1 s.2).

Definition _identifyComplexIntersections (net : Network) (int_buffer : float)
    : option Network :=
  s ← merged_groups net int_buffer;
  let r := assign_groups s (nodes net, max_main_node_id net) in
  Some {| nodes := r.1; links := links net;
          node_dict := node_dict net; link_dict := link_dict net;
          max_node_id := max_node_id net; max_main_node_id := r.2 |}.

(** ** Consolidation: [consolidateComplexIntersections] *)

(** Failing computations (a Python exception is [None]) folded over a
    list. *)
Fixpoint fold_opt {A B : Type} (f : A → B → option A) (a : A) (l : list B)
    : option A :=
  match l with
  | [] => Some a
  | b :: l' => a' ← f a b; fold_opt f a' l'
  end.

Definition upd_nodes (f : gmap nref Node → gmap nref Node) (net : Network)
    : Network :=
  {| nodes := f (nodes net); links := links net;
     node_dict := node_dict net; link_dict := link_dict net;
     max_node_id := max_node_id net;
     max_main_node_id := max_main_node_id net |}.

Definition upd_links (f : gmap lref Link → gmap lref Link) (net : Network)
    : Network :=
  {| nodes := nodes net; links := f (links net);
     node_dict := node_dict net; link_dict := link_dict net;
     max_node_id := max_node_id net;
     max_main_node_id := max_main_node_id net |}.

Definition set_from_node (r : nref) (lk : Link) : Link :=
  {| link_id := link_id lk; from_node := r; to_node := to_node lk;
     link_length := link_length lk |}.

Definition set_to_node (r : nref) (lk : Link) : Link :=
  {| link_id := link_id lk; from_node := from_node lk; to_node := r;
     link_length := link_length lk |}.

Definition push_incoming (l : lref) (n : Node) : Node :=
  {| node_id := node_id n; osm_node_id := osm_node_id n;
     osm_highway := osm_highway n; ctrl_type := ctrl_type n;
     geometry := geometry n; geometry_xy := geometry_xy n;
     main_node_id := main_node_id n;
     incoming_link_list := incoming_link_list n ++ [l];
     outgoing_link_list := outgoing_link_list n |}.

Definition push_outgoing (l : lref) (n : Node) : Node :=
  {| node_id := node_id n; osm_node_id := osm_node_id n;
     osm_highway := osm_highway n; ctrl_type := ctrl_type n;
     geometry := geometry n; geometry_xy := geometry_xy n;
     main_node_id := main_node_id n;
     incoming_link_list := incoming_link_list n;
     outgoing_link_list := outgoing_link_list n ++ [l] |}.

Definition set_ctrl_type (v : option string) (n : Node) : Node :=
  {| node_id := node_id n; osm_node_id := osm_node_id n;
     osm_highway := osm_highway n; ctrl_type := v;
     geometry := geometry n; geometry_xy := geometry_xy n;
     main_node_id := main_node_id n;
     incoming_link_list := incoming_link_list n;
     outgoing_link_list := outgoing_link_list n |}.

Definition set_osm_highway (v : option string) (n : Node) : Node :=
  {| node_id := node_id n; osm_node_id := osm_node_id n;
     osm_highway := v; ctrl_type := ctrl_type n;
     geometry := geometry n; geometry_xy := geometry_xy n;
     main_node_id := main_node_id n;
     incoming_link_list := incoming_link_list n;
     outgoing_link_list := outgoing_link_list n |}.

(** The three assignments that close the processing of a group. *)
Definition set_identity (osm : string) (g gxy : Point) (n : Node) : Node :=
  {| node_id := node_id n; osm_node_id := Some osm;
     osm_highway := osm_highway n; ctrl_type := ctrl_type n;
     geometry := Some g; geometry_xy := Some gxy;
     main_node_id := main_node_id n;
     incoming_link_list := incoming_link_list n;
     outgoing_link_list := outgoing_link_list n |}.

(** [node_group_dict] and [node_group_ctrl_type_dict]. *)
Definition group_dicts : Type := odict Z (list nref) * odict Z bool.

Definition group_step (net : Network) (acc : group_dicts) (item : Z * nref)
    : group_dicts :=
  let node := node_of net item.2 in
  match main_node_id node with
  | None => acc
  | Some m =>
      let acc1 :=
        match OrderedDict.get m acc.1 with
        | Some node_group =>
            (OrderedDict.set m (node_group ++ [item.2]) acc.1, acc.2)
        | None =>
            (OrderedDict.set m [item.2] acc.1, OrderedDict.set m false acc.2)
        end in
      if is_signal node then (acc1.1, OrderedDict.set m true acc1.2) else acc1
  end.

Definition group_nodes (net : Network) : group_dicts :=
  foldl (group_step net) ([], []) (node_dict net).

(** The network under consolidation with the two removal sets. *)
Record Consolidation := mkConsolidation {
  cnet : Network;
  removal_node_set : gset nref;
  removal_link_set : gset lref
}.

Definition upd_cnet (f : Network → Network) (c : Consolidation) : Consolidation :=
  {| cnet := f (cnet c); removal_node_set := removal_node_set c;
     removal_link_set := removal_link_set c |}.

Definition mark_node (r : nref) (c : Consolidation) : Consolidation :=
  {| cnet := cnet c; removal_node_set := {[r]} ∪ removal_node_set c;
     removal_link_set := removal_link_set c |}.

Definition mark_link (l : lref) (c : Consolidation) : Consolidation :=
  {| cnet := cnet c; removal_node_set := removal_node_set c;
     removal_link_set := {[l]} ∪ removal_link_set c |}.

(** The body of [for link in node.incoming_link_list]. Membership in
    [node_group], a list of nodes, is by object identity. *)
Definition rewire_incoming (node_group : list nref) (new_node : nref)
    (c : Consolidation) (l : lref) : Consolidation :=
  if bool_decide (from_node (link_of (cnet c) l) ∈ node_group)
  then mark_link l c
  else upd_cnet (λ net,
         upd_nodes (alter (push_incoming l) new_node)
           (upd_links (alter (set_to_node new_node) l) net)) c.

(** The body of [for link in node.outgoing_link_list]. *)
Definition rewire_outgoing (node_group : list nref) (new_node : nref)
    (c : Consolidation) (l : lref) : Consolidation :=
  if bool_decide (to_node (link_of (cnet c) l) ∈ node_group)
  then mark_link l c
  else upd_cnet (λ net,
         upd_nodes (alter (push_outgoing l) new_node)
           (upd_links (alter (set_from_node new_node) l) net)) c.

(** The accumulators of the loop over the members of a group. *)
Record Sums := mkSums {
  osm_node_id_list : list (option string);
  x_coord_sum : float;
  y_coord_sum : float;
  x_coord_xy_sum : float;
  y_coord_xy_sum : float
}.

Definition Sums_init : Sums :=
  {| osm_node_id_list := []; x_coord_sum := 0%float; y_coord_sum := 0%float;
     x_coord_xy_sum := 0%float; y_coord_xy_sum := 0%float |}.

(** The body of [for node in node_group]. Reading [.x] of a coordinate that
    is [None] raises. *)
Definition member_step (node_group : list nref) (new_node : nref)
    (acc : Consolidation * Sums) (r : nref) : option (Consolidation * Sums) :=
  let c0 := mark_node r acc.1 in
  let node := node_of (cnet c0) r in
  g ← geometry node;
  gxy ← geometry_xy node;
  let sums :=
    {| osm_node_id_list := osm_node_id_list acc.2 ++ [osm_node_id node];
       x_coord_sum := x_coord_sum acc.2 + geom_x g;
       y_coord_sum := y_coord_sum acc.2 + geom_y g;
       x_coord_xy_sum := x_coord_xy_sum acc.2 + geom_x gxy;
       y_coord_xy_sum := y_coord_xy_sum acc.2 + geom_y gxy |}%float in
  let c1 := foldl (rewire_incoming node_group new_node) c0
              (incoming_link_list (node_of (cnet c0) r)) in
  let c2 := foldl (rewire_outgoing node_group new_node) c1
              (outgoing_link_list (node_of (cnet c1) r)) in
  let c3 := upd_cnet (upd_nodes
              (alter (set_osm_highway (osm_highway (node_of (cnet c2) r)))
                 new_node)) c2 in
  Some (c3, sums).

(** ['_'.join(osm_node_id_list)]: a [TypeError] when an item is not a
    string. *)
Fixpoint join_underscore (l : list (option string)) : option string :=
  match l with
  | [] => Some ""%string
  | [o] => o
  | o :: l' => s ← o; t ← join_underscore l'; Some (s +:+ "_" +:+ t)%string
  end.

(** [len(node_group)] as the float the division converts it to. *)
Definition float_of_len (l : list nref) : float :=
  PrimFloat.of_uint63 (Uint63.of_Z (Z.of_nat (length l))).

Section Settings.
(** Python's built-in [round(x, ndigits)] and the two precisions of
    [osm2gmns.settings] (none of them is in the source at hand). *)
Variable round : float → Z → float.
Variables lonlat_coord_precision local_coord_precision : Z.

(** The body of [for main_node_id, node_group in node_group_dict.items()]. *)
Definition process_group (node_group_ctrl_type_dict : odict Z bool)
    (c : Consolidation) (item : Z * list nref) : option Consolidation :=
  let node_group := item.2 in
  if bool_decide (length node_group < 2)%nat then Some c
  else
    let new_node := fresh (dom (nodes (cnet c))) in
    let n0 := set_main_node_id (Some item.1)
                (Node_init (max_node_id (cnet c))) in
    signal ← OrderedDict.get item.1 node_group_ctrl_type_dict;
    let n1 := if signal : bool then set_ctrl_type (Some "signal"%string) n0
              else n0 in
    let c0 := upd_cnet (upd_nodes (insert new_node n1)) c in
    r ← fold_opt (member_step node_group new_node) (c0, Sums_init) node_group;
    osm ← join_underscore (osm_node_id_list r.2);
    let n := float_of_len node_group in
    let x_coord_ave := round (x_coord_sum r.2 / n)%float lonlat_coord_precision in
    let y_coord_ave := round (y_coord_sum r.2 / n)%float lonlat_coord_precision in
    let x_coord_xy_ave := round (x_coord_xy_sum r.2 / n)%float local_coord_precision in
    let y_coord_xy_ave := round (y_coord_xy_sum r.2 / n)%float local_coord_precision in
    let c1 := upd_cnet (upd_nodes (alter
                (set_identity osm (mkPoint x_coord_ave y_coord_ave)
                   (mkPoint x_coord_xy_ave y_coord_xy_ave)) new_node)) r.1 in
    Some (upd_cnet (λ net,
      {| nodes := nodes net; links := links net;
         node_dict := OrderedDict.set (node_id (node_of net new_node))
                        new_node (node_dict net);
         link_dict := link_dict net;
         max_node_id := max_node_id net + 1;
         max_main_node_id := max_main_node_id net |}) c1).

(** The two deletion loops that close the function. A Python set iterates
    in an order of its own; the loops are run over the elements in some
    order, and their outcome does not depend on it (see [od_del_all]). *)
Definition delete_nodes (net : Network) (rs : list nref) : option (odict Z nref) :=
  fold_opt (λ d r, OrderedDict.del (node_id (node_of net r)) d)
    (node_dict net) rs.

Definition delete_links (net : Network) (ls : list lref) : option (odict Z lref) :=
  fold_opt (λ d l, OrderedDict.del (link_id (link_of net l)) d)
    (link_dict net) ls.

(** The function from its grouping loop on. *)
Definition consolidate_groups (net : Network) : option Network :=
  let gd := group_nodes net in
  c ← fold_opt (process_group gd.2) (mkConsolidation net ∅ ∅) gd.1;
  nd ← delete_nodes (cnet c) (elements (removal_node_set c));
  ld ← delete_links (cnet c) (elements (removal_link_set c));
  Some {| nodes := nodes (cnet c); links := links (cnet c);
          node_dict := nd; link_dict := ld;
          max_node_id := max_node_id (cnet c);
          max_main_node_id := max_main_node_id (cnet c) |}.

(** [consolidateComplexIntersections(network, auto_identify, int_buffer)];
    the progress message printed under [verbose] changes no state. *)
Definition consolidateComplexIntersections (net : Network)
    (auto_identify : bool) (int_buffer : float) : option Network :=
  net1 ← (if auto_identify then _identifyComplexIntersections net int_buffer
          else Some net);
  consolidate_groups net1.
End Settings.

(** * Vocabulary of the specification *)

(** The active groups of a state are pairwise disjoint. *)
Definition disjoint_active (s : groups) : Prop :=
  ∀ i j g1 g2 a b,
    i ≠ j → s.1 !! i = Some g1 → s.1 !! j = Some g2 →
    s.2 !! i = Some (S a) → s.2 !! j = Some (S b) → g1 ## g2.

(** The group of an identifier, as the specification has it: the nodes of
    the node collection that carry it, in the order of the collection. *)
Definition group_of (net : Network) (m : Z) : list nref :=
  filter (λ r, main_node_id (node_of net r) = Some m)
         (OrderedDict.values (node_dict net)).

(** A group of at least two nodes. *)
Definition multi_group (net : Network) (m : Z) : Prop :=
  (2 ≤ length (group_of net m))%nat.

(** The network as the upstream construction leaves it: both dictionaries
    are keyed by the identifiers of the objects they hold, every registered
    link joins two registered nodes and sits in their link lists, the link
    lists of a registered node hold nothing but registered links incident to
    it, and every registered node has its coordinates and its source
    identifier. *)
Record wf_network (net : Network) : Prop := {
  wf_node_keys : NoDup (OrderedDict.keys (node_dict net));
  wf_node_ids : ∀ k r, (k, r) ∈ node_dict net →
    ∃ n, nodes net !! r = Some n ∧ node_id n = k;
  wf_link_keys : NoDup (OrderedDict.keys (link_dict net));
  wf_link_ids : ∀ k l, (k, l) ∈ link_dict net →
    ∃ lk, links net !! l = Some lk ∧ link_id lk = k;
  wf_endpoints : ∀ k l, (k, l) ∈ link_dict net →
    from_node (link_of net l) ∈ OrderedDict.values (node_dict net)
    ∧ to_node (link_of net l) ∈ OrderedDict.values (node_dict net)
    ∧ l ∈ outgoing_link_list (node_of net (from_node (link_of net l)))
    ∧ l ∈ incoming_link_list (node_of net (to_node (link_of net l)));
  wf_incoming : ∀ r l, r ∈ OrderedDict.values (node_dict net) →
    l ∈ incoming_link_list (node_of net r) →
    l ∈ OrderedDict.values (link_dict net) ∧ to_node (link_of net l) = r;
  wf_outgoing : ∀ r l, r ∈ OrderedDict.values (node_dict net) →
    l ∈ outgoing_link_list (node_of net r) →
    l ∈ OrderedDict.values (link_dict net) ∧ from_node (link_of net l) = r;
  wf_attributes : ∀ r, r ∈ OrderedDict.values (node_dict net) →
    is_Some (geometry (node_of net r))
    ∧ is_Some (geometry_xy (node_of net r))
    ∧ is_Some (osm_node_id (node_of net r))
}.

(** The network whose groups are consolidated: the one handed in, or the
    one the detection leaves when it is asked for. *)
Definition grouped_network (net : Network) (auto_identify : bool)
    (int_buffer : float) : option Network :=
  if auto_identify then _identifyComplexIntersections net int_buffer
  else Some net.

(** The groups the loop consolidates, in the order in which it meets
    them. *)
Definition consolidated_groups (net : Network) : list (Z * list nref) :=
  filter (λ item, (2 ≤ length item.2)%nat) (group_nodes net).1.

(** The precondition on the identifiers the loop mints, the node counter
    and its successors, one per consolidated group: none is the key of a
    registered node. *)
Definition fresh_identifiers (net : Network) : Prop :=
  ∀ i, (i < length (consolidated_groups net))%nat →
       max_node_id net + Z.of_nat i ∉ OrderedDict.keys (node_dict net).

(** The network with its node collection in another order. *)
Definition with_node_dict (nd : odict Z nref) (net : Network) : Network :=
  {| nodes := nodes net; links := links net; node_dict := nd;
     link_dict := link_dict net; max_node_id := max_node_id net;
     max_main_node_id := max_main_node_id net |}.

(** The sum of a list of floats, from [0.0] on and from left to right. *)
Definition sum_floats (xs : list float) : float := foldl PrimFloat.add 0%float xs.

(** * Properties of the detection *)

(** ** Loops as folds *)

Section Folds.
Context {A B : Type}.

Lemma foldl_invariant (P : A → Prop) (f : A → B → A) (l : list B) (a : A) :
  (∀ a b, P a → P (f a b)) → P a → P (foldl f a l).
Proof.
  intros Hstep. revert a.
  induction l as [|b l IH]; intros a Ha; simpl; [done|].
  apply IH, Hstep, Ha.
Qed.

(** A loop whose every iteration either changes nothing or lowers a
    measure: either no iteration changed anything, or the measure went
    down. *)
Lemma foldl_fixed_or_less (m : A → nat) (f : A → B → A) :
  (∀ a b, f a b = a ∨ (m (f a b) < m a)%nat) →
  ∀ l a, (foldl f a l = a ∧ ∀ b, b ∈ l → f a b = a)
         ∨ (m (foldl f a l) < m a)%nat.
Proof.
  intros Hf l. induction l as [|b l IH]; intros a; simpl.
  - left. split; [done|]. intros b Hb. by apply elem_of_nil in Hb.
  - destruct (Hf a b) as [E|L].
    + rewrite E. destruct (IH a) as [[E1 E2]|L1]; [left|by right].
      split; [done|]. intros b' [->|Hb']%elem_of_cons; auto.
    + right. destruct (IH (f a b)) as [[E1 _]|L1]; [by rewrite E1|lia].
Qed.
End Folds.

Lemma sum_list_deactivate (gs : list nat) (j k : nat) :
  gs !! j = Some (S k) → (sum_list (<[j := 0%nat]> gs) < sum_list gs)%nat.
Proof.
  revert j. induction gs as [|a gs IH]; intros [|j] Hj; simplify_eq/=.
  - lia.
  - specialize (IH _ Hj). lia.
Qed.

(** ** One step of the merge *)

Lemma inner_step_cases (i : nat) (s : groups) (j : nat) :
  inner_step i s j = s ∨
  ∃ k group1 group2,
    s.2 !! j = Some (S k) ∧ i ≠ j ∧
    s.1 !! i = Some group1 ∧ s.1 !! j = Some group2 ∧
    (0 < size (group1 ∩ group2))%nat ∧
    inner_step i s j = (<[i := group1 ∪ group2]> s.1, <[j := 0%nat]> s.2).
Proof.
  unfold inner_step.
  destruct (s.2 !! j) as [[|k]|] eqn:Hj; [by left| |by left].
  destruct (decide (i = j)) as [|Hij]; [by left|].
  destruct (s.1 !! i) as [g1|] eqn:Hi; [|by left].
  destruct (s.1 !! j) as [g2|] eqn:Hj'; [|by left].
  case_bool_decide as Hsz; [|by left].
  right. by exists k, g1, g2.
Qed.

Lemma inner_step_fixed_or_less (i : nat) (s : groups) (j : nat) :
  inner_step i s j = s ∨ (valid_groups (inner_step i s j) < valid_groups s)%nat.
Proof.
  destruct (inner_step_cases i s j) as [E|(k & g1 & g2 & Hj & _ & _ & _ & _ & E)];
    [by left|right].
  rewrite E. unfold valid_groups; simpl. by eapply sum_list_deactivate.
Qed.

Lemma outer_step_fixed_or_less (s : groups) (i : nat) :
  outer_step s i = s ∨ (valid_groups (outer_step s i) < valid_groups s)%nat.
Proof.
  unfold outer_step. destruct (s.2 !! i) as [[|k]|]; [by left| |by left].
  destruct (foldl_fixed_or_less valid_groups (inner_step i)
              (inner_step_fixed_or_less i) (seq 0 (length s.1)) s)
    as [[E _]|L]; auto.
Qed.

Lemma merge_pass_fixed_or_less (s : groups) :
  (merge_pass s = s ∧ ∀ i, i ∈ seq 0 (length s.1) → outer_step s i = s)
  ∨ (valid_groups (merge_pass s) < valid_groups s)%nat.
Proof.
  apply (foldl_fixed_or_less valid_groups outer_step outer_step_fixed_or_less).
Qed.

(** A pass that changes nothing has found every pair of active groups
    disjoint. *)
Lemma fixed_pass_disjoint (s : groups) :
  length s.1 = length s.2 →
  (∀ i, i ∈ seq 0 (length s.1) → outer_step s i = s) →
  disjoint_active s.
Proof.
  intros Hlen Hfix i j g1 g2 a b Hij Hi Hj Hai Haj.
  assert (Hi' : i ∈ seq 0 (length s.1)).
  { apply elem_of_seq. apply lookup_lt_Some in Hi. lia. }
  assert (Hj' : j ∈ seq 0 (length s.1)).
  { apply elem_of_seq. apply lookup_lt_Some in Hj. lia. }
  specialize (Hfix i Hi'). unfold outer_step in Hfix. rewrite Hai in Hfix.
  destruct (foldl_fixed_or_less valid_groups (inner_step i)
              (inner_step_fixed_or_less i) (seq 0 (length s.1)) s)
    as [[_ E]|L]; [|rewrite Hfix in L; lia].
  specialize (E j Hj').
  destruct (inner_step_cases i s j)
    as [E'|(k & h1 & h2 & Hk & _ & _ & _ & _ & E')].
  - unfold inner_step in E'. rewrite Haj, Hi, Hj in E'.
    destruct (decide (i = j)); [done|].
    case_bool_decide as Hsz.
    + exfalso. apply (f_equal (λ t, t.2 !! j)) in E'. simpl in E'.
      rewrite list_lookup_insert_eq in E' by (by eapply lookup_lt_Some).
      congruence.
    + apply disjoint_intersection_L, leibniz_equiv, size_empty_iff. lia.
  - exfalso. rewrite E in E'. apply (f_equal (λ t, t.2 !! j)) in E'.
    simpl in E'.
    rewrite list_lookup_insert_eq in E' by (by eapply lookup_lt_Some).
    congruence.
Qed.

(** ** States reached by merging *)

(** The states the merge loops run through: every step is an iteration of
    the inner loop for an active [group_no1]. *)
Inductive merges_from (s0 : groups) : groups → Prop :=
  | merges_refl : merges_from s0 s0
  | merges_step s i j k :
      merges_from s0 s → s.2 !! i = Some (S k) →
      merges_from s0 (inner_step i s j).

Lemma inner_step_keeps_active (i : nat) (s : groups) (j k : nat) :
  s.2 !! i = Some (S k) → (inner_step i s j).2 !! i = Some (S k).
Proof.
  intros Hi.
  destruct (inner_step_cases i s j) as [->|(? & ? & ? & _ & Hij & _ & _ & _ & ->)];
    [done|simpl].
  by rewrite list_lookup_insert_ne.
Qed.

Lemma inner_loop_merges (s0 : groups) (i k : nat) (l : list nat) (s : groups) :
  merges_from s0 s → s.2 !! i = Some (S k) →
  merges_from s0 (foldl (inner_step i) s l).
Proof.
  revert s. induction l as [|j l IH]; intros s Hs Hi; simpl; [done|].
  apply IH; [by eapply merges_step|by apply inner_step_keeps_active].
Qed.

Lemma outer_step_merges (s0 s : groups) (i : nat) :
  merges_from s0 s → merges_from s0 (outer_step s i).
Proof.
  intros Hs. unfold outer_step.
  destruct (s.2 !! i) as [[|k]|] eqn:Hi; [done| |done].
  by eapply inner_loop_merges.
Qed.

Lemma merge_pass_merges (s0 s : groups) :
  merges_from s0 s → merges_from s0 (merge_pass s).
Proof.
  intros Hs. unfold merge_pass.
  apply (foldl_invariant (merges_from s0)); [|done].
  intros; by apply outer_step_merges.
Qed.

Lemma merges_from_length (s0 s : groups) :
  merges_from s0 s →
  length s.1 = length s0.1 ∧ length s.2 = length s0.2.
Proof.
  induction 1 as [|s i j k _ [IH1 IH2] _]; [done|].
  destruct (inner_step_cases i s j) as [->|(? & ? & ? & _ & _ & _ & _ & _ & ->)];
    [done|simpl].
  by rewrite !length_insert.
Qed.

(** The [while] loop returns: with more fuel than valid groups it ends in a
    state reached by merging whose active groups are pairwise disjoint. *)
Lemma merge_loop_terminates (fuel : nat) (s0 s : groups) :
  merges_from s0 s → length s0.1 = length s0.2 →
  (valid_groups s < fuel)%nat →
  ∃ s', merge_loop fuel (valid_groups s) s = Some s'
        ∧ merges_from s0 s' ∧ disjoint_active s'.
Proof.
  revert s. induction fuel as [|fuel IH]; intros s Hs Hlen Hlt; [lia|].
  simpl. destruct (merge_pass_fixed_or_less s) as [[E F]|L].
  - rewrite E, decide_True by done. exists s. split_and!; [done..|].
    apply fixed_pass_disjoint; [|done].
    destruct (merges_from_length _ _ Hs) as [-> ->]. done.
  - rewrite decide_False by lia.
    apply IH; [by apply merge_pass_merges|done|lia].
Qed.

(** Every candidate group lies within an active group. *)
Definition covers (gl0 : list (gset nref)) (s : groups) : Prop :=
  ∀ p g0, gl0 !! p = Some g0 →
    ∃ q g k, s.1 !! q = Some g ∧ s.2 !! q = Some (S k) ∧ g0 ⊆ g.

(** Every member of a group came with a candidate group. *)
Definition drawn_from (gl0 : list (gset nref)) (s : groups) : Prop :=
  ∀ q g r, s.1 !! q = Some g → r ∈ g → ∃ p g0, gl0 !! p = Some g0 ∧ r ∈ g0.

Lemma merges_from_covers (s0 s : groups) :
  merges_from s0 s →
  (∀ p g0, s0.1 !! p = Some g0 → s0.2 !! p = Some 1%nat) →
  covers s0.1 s.
Proof.
  intros Hs Hall. induction Hs as [|s i j k _ IH Hi].
  - intros p g0 Hp. exists p, g0, 0%nat. split_and!; [done|by eapply Hall|done].
  - destruct (inner_step_cases i s j)
      as [->|(kj & g1 & g2 & Hj & Hij & Hg1 & Hg2 & _ & ->)]; [done|].
    assert (Hnew : (<[i:=g1 ∪ g2]> s.1) !! i = Some (g1 ∪ g2)).
    { apply list_lookup_insert_eq. by eapply lookup_lt_Some. }
    assert (Hact : (<[j:=0%nat]> s.2) !! i = Some (S k)).
    { by rewrite list_lookup_insert_ne. }
    intros p g0 Hp. destruct (IH p g0 Hp) as (q & g & kq & Hq & Hqa & Hsub).
    destruct (decide (q = i)) as [->|Hqi].
    { exists i, (g1 ∪ g2), k. simpl. split_and!; [done..|]. set_solver. }
    destruct (decide (q = j)) as [->|Hqj].
    { exists i, (g1 ∪ g2), k. simpl. split_and!; [done..|]. set_solver. }
    exists q, g, kq. simpl. by rewrite !list_lookup_insert_ne.
Qed.

Lemma merges_from_drawn (s0 s : groups) :
  merges_from s0 s → drawn_from s0.1 s.
Proof.
  induction 1 as [|s i j k _ IH Hi].
  - intros q g r Hq Hr. by exists q, g.
  - destruct (inner_step_cases i s j)
      as [->|(kj & g1 & g2 & Hj & Hij & Hg1 & Hg2 & _ & ->)]; [done|].
    intros q g r Hq Hr. simpl in Hq.
    destruct (decide (q = i)) as [->|Hqi].
    + rewrite list_lookup_insert_eq in Hq by (by eapply lookup_lt_Some).
      simplify_eq. apply elem_of_union in Hr as [Hr|Hr]; eauto.
    + rewrite list_lookup_insert_ne in Hq by done. eauto.
Qed.

(** ** Comparison of floats *)

Lemma SFcompare_antisym (f1 f2 : spec_float) :
  SFcompare f2 f1 = option_map CompOpp (SFcompare f1 f2).
Proof.
  destruct f1 as [s1|s1| |s1 m1 e1], f2 as [s2|s2| |s2 m2 e2]; simpl;
    try done; try (by destruct s1); try (by destruct s2);
    try (by destruct s1, s2).
  f_equal. destruct s1, s2; try done.
  - rewrite (Z.compare_antisym e1 e2).
    destruct (e1 ?= e2); simpl; try done.
    change (Pos.compare_cont Eq m2 m1) with (Pos.compare m2 m1).
    change (Pos.compare_cont Eq m1 m2) with (Pos.compare m1 m2).
    by rewrite (Pos.compare_antisym m1 m2).
  - rewrite (Z.compare_antisym e1 e2).
    destruct (e1 ?= e2); simpl; try done.
    change (Pos.compare_cont Eq m2 m1) with (Pos.compare m2 m1).
    change (Pos.compare_cont Eq m1 m2) with (Pos.compare m1 m2).
    by rewrite (Pos.compare_antisym m1 m2).
Qed.

Lemma SFcompare_refl (f : spec_float) :
  SFcompare f f = match f with S754_nan => None | _ => Some Eq end.
Proof.
  destruct f as [s|s| |s m e]; simpl; try done; try (by destruct s).
  f_equal. rewrite Z.compare_refl.
  change (Pos.compare_cont Eq m m) with (Pos.compare m m).
  rewrite Pos.compare_refl. by destruct s.
Qed.

Lemma SFcompare_None (f1 f2 : spec_float) :
  SFcompare f1 f2 = None ↔ f1 = S754_nan ∨ f2 = S754_nan.
Proof.
  destruct f1 as [s1|s1| |s1 m1 e1], f2 as [s2|s2| |s2 m2 e2]; simpl;
    split; try done; try tauto; intros [?|?]; done.
Qed.

Lemma is_nan_spec (x : float) :
  PrimFloat.is_nan x = true ↔ Prim2SF x = S754_nan.
Proof.
  unfold PrimFloat.is_nan. rewrite FloatAxioms.eqb_spec. unfold SFeqb.
  rewrite SFcompare_refl. destruct (Prim2SF x); simpl; split; done.
Qed.

(** At most: excludes NaN, and excludes greater. *)
Lemma float_leb_not_gt (a b : float) :
  PrimFloat.leb a b = true → float_gt a b = false.
Proof.
  unfold float_gt. rewrite leb_spec, ltb_spec. unfold SFleb, SFltb.
  rewrite (SFcompare_antisym (Prim2SF a) (Prim2SF b)).
  by destruct (SFcompare (Prim2SF a) (Prim2SF b)) as [[]|].
Qed.

(** Between two numbers, not greater is at most. *)
Lemma float_not_gt_leb (a b : float) :
  PrimFloat.is_nan a = false → PrimFloat.is_nan b = false →
  float_gt a b = false → PrimFloat.leb a b = true.
Proof.
  intros Ha Hb. unfold float_gt. rewrite leb_spec, ltb_spec.
  unfold SFleb, SFltb.
  rewrite (SFcompare_antisym (Prim2SF a) (Prim2SF b)).
  destruct (SFcompare (Prim2SF a) (Prim2SF b)) as [[]|] eqn:E; try done.
  apply SFcompare_None in E as [E|E]; apply is_nan_spec in E; congruence.
Qed.

(** A NaN is greater than nothing, and nothing is greater than a NaN. *)
Lemma float_gt_nan (a b : float) :
  PrimFloat.is_nan a = true ∨ PrimFloat.is_nan b = true →
  float_gt a b = false.
Proof.
  intros H. unfold float_gt. rewrite ltb_spec. unfold SFltb.
  assert (E : SFcompare (Prim2SF b) (Prim2SF a) = None).
  { apply SFcompare_None. rewrite !is_nan_spec in H. tauto. }
  by rewrite E.
Qed.

Lemma float_leb_nan (a b : float) :
  PrimFloat.is_nan a = true ∨ PrimFloat.is_nan b = true →
  PrimFloat.leb a b = false.
Proof.
  intros H. rewrite leb_spec. unfold SFleb.
  assert (E : SFcompare (Prim2SF a) (Prim2SF b) = None).
  { apply SFcompare_None. rewrite !is_nan_spec in H. tauto. }
  by rewrite E.
Qed.

(** At most, on the numbers the floats denote. *)
Definition SFle (f1 f2 : spec_float) : Prop :=
  SFcompare f1 f2 = Some Lt ∨ SFcompare f1 f2 = Some Eq.

Lemma SFle_trans (f1 f2 f3 : spec_float) : SFle f1 f2 → SFle f2 f3 → SFle f1 f3.
Proof.
  unfold SFle.
  destruct f1 as [s1|s1| |s1 m1 e1], f2 as [s2|s2| |s2 m2 e2],
    f3 as [s3|s3| |s3 m3 e3]; simpl;
    try (intros [?|?] [?|?]; discriminate);
    try (destruct s1; intros [?|?] [?|?]; (discriminate || tauto));
    try (destruct s2; intros [?|?] [?|?]; (discriminate || tauto));
    try (destruct s3; intros [?|?] [?|?]; (discriminate || tauto));
    try (destruct s1, s2; intros [?|?] [?|?]; (discriminate || tauto));
    try (destruct s1, s3; intros [?|?] [?|?]; (discriminate || tauto));
    try (destruct s2, s3; intros [?|?] [?|?]; (discriminate || tauto));
    try (destruct s1, s2, s3; intros [?|?] [?|?]; (discriminate || tauto)).
  change (Pos.compare_cont Eq m1 m2) with (Pos.compare m1 m2).
  change (Pos.compare_cont Eq m2 m3) with (Pos.compare m2 m3).
  change (Pos.compare_cont Eq m1 m3) with (Pos.compare m1 m3).
  destruct s1, s2, s3; try (intros [?|?] [?|?]; (discriminate || tauto));
    destruct (Z.compare_spec e1 e2), (Z.compare_spec e2 e3),
      (Z.compare_spec e1 e3); try lia;
    destruct (Pos.compare_spec m1 m2), (Pos.compare_spec m2 m3),
      (Pos.compare_spec m1 m3); try lia; simpl;
    intros [?|?] [?|?]; (discriminate || tauto).
Qed.

(** ** The candidate groups *)

Lemma collect_groups_spec (net : Network) (int_buffer : float) :
  collect_groups net int_buffer =
    (link_group <$>
       filter (λ lk, candidate_link net int_buffer lk = true)
              ((λ item, link_of net item.2) <$> link_dict net),
     replicate
       (length (filter (λ lk, candidate_link net int_buffer lk = true)
                       ((λ item, link_of net item.2) <$> link_dict net)))
       1%nat).
Proof.
  unfold collect_groups.
  cut (∀ l acc,
         foldl (collect_step net int_buffer) acc l =
           (acc.1 ++ (link_group <$>
              filter (λ lk, candidate_link net int_buffer lk = true)
                     ((λ item, link_of net item.2) <$> l)),
            acc.2 ++ replicate
              (length (filter (λ lk, candidate_link net int_buffer lk = true)
                              ((λ item, link_of net item.2) <$> l))) 1%nat)).
  { intros H. by rewrite H. }
  induction l as [|item l IH]; intros [gl gs]; simpl.
  - by rewrite !app_nil_r.
  - rewrite IH. unfold collect_step; simpl. rewrite filter_cons.
    destruct (candidate_link net int_buffer (link_of net item.2)) eqn:Hc.
    + rewrite decide_True by done. simpl. by rewrite <- !app_assoc.
    + rewrite decide_False by done. done.
Qed.

Lemma collect_groups_status (net : Network) (int_buffer : float) :
  let s := collect_groups net int_buffer in
  length s.1 = length s.2 ∧
  ∀ p g0, s.1 !! p = Some g0 → s.2 !! p = Some 1%nat.
Proof.
  rewrite collect_groups_spec; simpl. split.
  - by rewrite length_fmap, length_replicate.
  - intros p g0 Hp. apply lookup_replicate_2.
    apply lookup_lt_Some in Hp. by rewrite length_fmap in Hp.
Qed.

Lemma candidate_link_spec (net : Network) (int_buffer : float) (lk : Link) :
  candidate_link net int_buffer lk = true ↔
    float_gt (link_length lk) int_buffer = false
    ∧ main_node_id (node_of net (from_node lk)) = None
    ∧ main_node_id (node_of net (to_node lk)) = None
    ∧ ctrl_type (node_of net (from_node lk)) = Some "signal"%string
    ∧ ctrl_type (node_of net (to_node lk)) = Some "signal"%string.
Proof.
  unfold candidate_link, is_signal.
  destruct (float_gt (link_length lk) int_buffer) eqn:Hgt; simpl.
  - split; [done|]. intros [Hl _]. done.
  - repeat (case_bool_decide; simpl); intuition congruence.
Qed.

(** The detection returns. *)
Lemma merged_groups_spec (net : Network) (int_buffer : float) :
  ∃ s, merged_groups net int_buffer = Some s
       ∧ merges_from (collect_groups net int_buffer) s
       ∧ disjoint_active s
       ∧ covers (collect_groups net int_buffer).1 s
       ∧ drawn_from (collect_groups net int_buffer).1 s.
Proof.
  unfold merged_groups.
  destruct (collect_groups_status net int_buffer) as [Hlen Hone].
  destruct (merge_loop_terminates
              (S (valid_groups (collect_groups net int_buffer)))
              (collect_groups net int_buffer) (collect_groups net int_buffer))
    as (s & Hs & Hm & Hd); [constructor|done|lia|].
  exists s. split_and!; [done..| |].
  - by apply merges_from_covers.
  - by apply merges_from_drawn.
Qed.

(** ** The assignment of group identifiers *)

Lemma assign_list_lookup (m : Z) (l : list nref) (ns : gmap nref Node) (r : nref) :
  foldl (λ acc r, alter (set_main_node_id (Some m)) r acc) ns l !! r =
    if decide (r ∈ l) then set_main_node_id (Some m) <$> ns !! r else ns !! r.
Proof.
  revert ns. induction l as [|a l IH]; intros ns.
  - destruct (decide (r ∈ [])) as [H|H]; [by apply elem_of_nil in H|done].
  - cbn [foldl]. rewrite IH, lookup_alter.
    destruct (decide (r ∈ a :: l)) as [H|H], (decide (r ∈ l)) as [Hl|Hl],
      (decide (a = r)) as [->|Har]; try done.
    + by destruct (ns !! r).
    + apply elem_of_cons in H as [?|?]; congruence.
    + exfalso. apply H, list_elem_of_here.
    + exfalso. by apply H, list_elem_of_further.
    + exfalso. apply H, list_elem_of_here.
Qed.

Lemma assign_group_lookup (m : Z) (g : gset nref) (ns : gmap nref Node) (r : nref) :
  assign_group m g ns !! r =
    if decide (r ∈ g) then set_main_node_id (Some m) <$> ns !! r else ns !! r.
Proof.
  unfold assign_group. rewrite assign_list_lookup.
  destruct (decide (r ∈ elements g)) as [H|H], (decide (r ∈ g)) as [H'|H'];
    try done; rewrite elem_of_elements in H; done.
Qed.

(** What the assignment loop does to each object of the store: it leaves it
    as it is when no active group holds it, and stamps it with an identifier
    minted from the counter otherwise. *)
Lemma assign_steps_spec (zs : list (gset nref * nat)) (ns : gmap nref Node) (m : Z) :
  m ≤ (foldl assign_step (ns, m) zs).2 ∧
  ∀ x,
    ((foldl assign_step (ns, m) zs).1 !! x = ns !! x
     ∧ ∀ g a, (g, S a) ∈ zs → x ∉ g)
    ∨ (∃ k, m ≤ k < (foldl assign_step (ns, m) zs).2
            ∧ (foldl assign_step (ns, m) zs).1 !! x
                = set_main_node_id (Some k) <$> ns !! x
            ∧ ∃ g a, (g, S a) ∈ zs ∧ x ∈ g).
Proof.
  revert ns m. induction zs as [|[g [|a]] zs IH]; intros ns m.
  - split; [simpl; lia|]. intros x. left. split; [done|].
    intros g a H. by apply elem_of_nil in H.
  - change (foldl assign_step (ns, m) ((g, 0%nat) :: zs))
      with (foldl assign_step (ns, m) zs).
    destruct (IH ns m) as [Hle Hx]. split; [done|].
    intros x. destruct (Hx x) as [[E N]|(k & Hk & E & g' & a' & Hin & Hxg)].
    + left. split; [done|]. intros g' a' [?|?]%elem_of_cons; [done|eauto].
    + right. exists k. split; [done|]. split; [done|].
      exists g', a'. split; [by apply list_elem_of_further|done].
  - change (foldl assign_step (ns, m) ((g, S a) :: zs))
      with (foldl assign_step (assign_group m g ns, m + 1) zs).
    destruct (IH (assign_group m g ns) (m + 1)) as [Hle Hx]. split; [lia|].
    intros x. destruct (Hx x) as [[E N]|(k & Hk & E & g' & a' & Hin & Hxg)].
    + rewrite assign_group_lookup in E.
      destruct (decide (x ∈ g)) as [Hg|Hg].
      * right. exists m. split; [lia|]. split; [done|].
        exists g, a. split; [apply list_elem_of_here|done].
      * left. split; [done|].
        intros g' a' [?|?]%elem_of_cons; [by simplify_eq|eauto].
    + right. exists k. split; [lia|]. split.
      * rewrite E, assign_group_lookup.
        destruct (decide (x ∈ g)); [|done]. by destruct (ns !! x).
      * exists g', a'. split; [by apply list_elem_of_further|done].
Qed.

(** Two objects that the same active groups hold end with the same
    identifier. *)
Lemma assign_steps_together (zs : list (gset nref * nat))
    (ns : gmap nref Node) (m : Z) (x y : nref) :
  (∀ g a, (g, S a) ∈ zs → x ∈ g ↔ y ∈ g) →
  main_node_id <$> ns !! x = main_node_id <$> ns !! y →
  main_node_id <$> (foldl assign_step (ns, m) zs).1 !! x
    = main_node_id <$> (foldl assign_step (ns, m) zs).1 !! y.
Proof.
  revert ns m. induction zs as [|[g [|a]] zs IH]; intros ns m Hsame Hxy.
  - done.
  - change (foldl assign_step (ns, m) ((g, 0%nat) :: zs))
      with (foldl assign_step (ns, m) zs).
    apply IH; [|done].
    intros g' a' Hin. apply (Hsame g' a'). by apply list_elem_of_further.
  - change (foldl assign_step (ns, m) ((g, S a) :: zs))
      with (foldl assign_step (assign_group m g ns, m + 1) zs).
    apply IH.
    + intros g' a' Hin. apply (Hsame g' a'). by apply list_elem_of_further.
    + rewrite !assign_group_lookup.
      pose proof (Hsame g a (list_elem_of_here _ _)) as Hg.
      destruct (decide (x ∈ g)) as [Hx|Hx], (decide (y ∈ g)) as [Hy|Hy];
        [|tauto|tauto|done].
      destruct (ns !! x), (ns !! y); simplify_eq/=; done.
Qed.

Lemma active_group_lookup (s : groups) (g : gset nref) (a : nat) :
  (g, S a) ∈ zip s.1 s.2 ↔ ∃ q, s.1 !! q = Some g ∧ s.2 !! q = Some (S a).
Proof.
  rewrite list_elem_of_lookup. split.
  - intros [q Hq]. apply lookup_zip_with_Some in Hq as (g' & a' & ? & ? & ?).
    simplify_eq. eauto.
  - intros (q & H1 & H2). exists q. apply lookup_zip_with_Some. eauto.
Qed.

(** ** The detection as a whole *)

Definition in_active_group (s : groups) (x : nref) : Prop :=
  ∃ q g a, s.1 !! q = Some g ∧ s.2 !! q = Some (S a) ∧ x ∈ g.

Lemma identify_spec (net : Network) (int_buffer : float) :
  ∃ s net',
    merged_groups net int_buffer = Some s
    ∧ _identifyComplexIntersections net int_buffer = Some net'
    ∧ links net' = links net ∧ node_dict net' = node_dict net
    ∧ link_dict net' = link_dict net ∧ max_node_id net' = max_node_id net
    ∧ max_main_node_id net ≤ max_main_node_id net'
    ∧ nodes net' = (assign_groups s (nodes net, max_main_node_id net)).1
    ∧ ∀ x,
        (nodes net' !! x = nodes net !! x ∧ ¬ in_active_group s x)
        ∨ (∃ k, max_main_node_id net ≤ k < max_main_node_id net'
                ∧ nodes net' !! x = set_main_node_id (Some k) <$> nodes net !! x
                ∧ in_active_group s x).
Proof.
  destruct (merged_groups_spec net int_buffer) as (s & Hs & _).
  unfold _identifyComplexIntersections. rewrite Hs. simpl.
  eexists s, _. split_and!; try done; simpl; unfold assign_groups.
  - apply assign_steps_spec.
  - intros x.
    destruct (assign_steps_spec (zip s.1 s.2) (nodes net) (max_main_node_id net))
      as [_ Hx].
    destruct (Hx x) as [[E N]|(k & Hk & E & g & a & Hin & Hxg)].
    + left. split; [done|]. intros (q & g & a & H1 & H2 & H3).
      eapply N; [|done]. apply active_group_lookup. eauto.
    + right. exists k. split; [done|]. split; [done|].
      apply active_group_lookup in Hin as (q & ? & ?). by exists q, g, a.
Qed.

Lemma node_of_lookup (net : Network) (x : nref) (n : Node) :
  nodes net !! x = Some n → node_of net x = n.
Proof. intros H. unfold node_of. by apply lookup_total_correct. Qed.

Lemma node_of_signal_lookup (net : Network) (x : nref) :
  ctrl_type (node_of net x) = Some "signal"%string →
  nodes net !! x = Some (node_of net x).
Proof.
  unfold node_of. rewrite lookup_total_alt.
  destruct (nodes net !! x); [done|]. simpl. discriminate.
Qed.

(** Whatever the detection does to a node, it does to its group identifier
    only. *)
Lemma identify_node_of (net net' : Network) (x : nref) (v : option Z) :
  nodes net' !! x = set_main_node_id v <$> nodes net !! x →
  node_of net' x = node_of net x
  ∨ (node_of net' x = set_main_node_id v (node_of net x)
     ∧ nodes net !! x = Some (node_of net x)).
Proof.
  intros H. unfold node_of. rewrite !lookup_total_alt, H.
  destruct (nodes net !! x); simpl; auto.
Qed.

(** The endpoints of a candidate link lie in an active group once the
    merging is over. *)
Lemma candidate_endpoints_active (net : Network) (int_buffer : float)
    (s : groups) (k : Z) (l : lref) :
  merged_groups net int_buffer = Some s →
  (k, l) ∈ link_dict net →
  candidate_link net int_buffer (link_of net l) = true →
  ∃ q g a, s.1 !! q = Some g ∧ s.2 !! q = Some (S a)
           ∧ from_node (link_of net l) ∈ g ∧ to_node (link_of net l) ∈ g.
Proof.
  intros Hs Hin Hc.
  destruct (merged_groups_spec net int_buffer) as (s' & Hs' & _ & _ & Hcov & _).
  simplify_eq.
  assert (Hg : link_group (link_of net l) ∈ (collect_groups net int_buffer).1).
  { rewrite collect_groups_spec; simpl.
    apply list_elem_of_fmap. exists (link_of net l). split; [done|].
    apply list_elem_of_filter. split; [done|].
    apply list_elem_of_fmap. by exists (k, l). }
  apply list_elem_of_lookup in Hg as [p Hp].
  destruct (Hcov p _ Hp) as (q & g & a & H1 & H2 & Hsub).
  exists q, g, a. unfold link_group in Hsub. split_and!; [done..| |]; set_solver.
Qed.

Lemma collect_groups_members (net : Network) (int_buffer : float)
    (p : nat) (g0 : gset nref) (r : nref) :
  (collect_groups net int_buffer).1 !! p = Some g0 → r ∈ g0 →
  ∃ k l, (k, l) ∈ link_dict net
         ∧ candidate_link net int_buffer (link_of net l) = true
         ∧ (r = from_node (link_of net l) ∨ r = to_node (link_of net l)).
Proof.
  rewrite collect_groups_spec; simpl. intros Hp Hr.
  apply list_elem_of_lookup_2 in Hp.
  apply list_elem_of_fmap in Hp as (lk & -> & Hlk).
  apply list_elem_of_filter in Hlk as [Hc Hlk].
  apply list_elem_of_fmap in Hlk as ([k l] & -> & Hin).
  exists k, l. split_and!; [done..|]. unfold link_group in Hr. set_solver.
Qed.

(** A node of an active group was ungrouped and signal-controlled when the
    detection started (so it is an object of the store). *)
Lemma active_member_eligible (net : Network) (int_buffer : float)
    (s : groups) (x : nref) :
  merged_groups net int_buffer = Some s → in_active_group s x →
  main_node_id (node_of net x) = None
  ∧ ctrl_type (node_of net x) = Some "signal"%string.
Proof.
  intros Hs (q & g & a & Hq & _ & Hx).
  destruct (merged_groups_spec net int_buffer) as (s' & Hs' & _ & _ & _ & Hd).
  simplify_eq.
  destruct (Hd q g x Hq Hx) as (p & g0 & Hp & Hx0).
  destruct (collect_groups_members _ _ _ _ _ Hp Hx0) as (k & l & _ & Hc & Hor).
  apply candidate_link_spec in Hc as (_ & ? & ? & ? & ?).
  destruct Hor as [->| ->]; done.
Qed.

Lemma filter_length_le_1 {A : Type} (P : A → Prop) `{!∀ x, Decision (P x)}
    (l : list A) :
  (∀ i j a b, i ≠ j → l !! i = Some a → l !! j = Some b → P a → P b → False) →
  (length (filter P l) ≤ 1)%nat.
Proof.
  induction l as [|a l IH]; intros Hl; [simpl; lia|].
  rewrite filter_cons. destruct (decide (P a)) as [Ha|Ha].
  - destruct (filter P l) as [|b k] eqn:Hf; [simpl; lia|].
    assert (Hb : b ∈ filter P l) by (rewrite Hf; apply list_elem_of_here).
    apply list_elem_of_filter in Hb as [Hb Hin].
    apply list_elem_of_lookup in Hin as [j Hj].
    exfalso. by apply (Hl 0%nat (S j) a b).
  - apply IH. intros i j x y Hij Hi Hj. by apply (Hl (S i) (S j) x y); [lia|..].
Qed.

(** ** The identifier of an active group *)

(** The number of active groups before position [q]. *)
Definition active_before (zs : list (gset nref * nat)) (q : nat) : nat :=
  length (filter (λ item, item.2 ≠ 0%nat) (take q zs)).

(** The group identifiers in use lie below the counter. *)
Definition main_ids_below (net : Network) : Prop :=
  ∀ x n k, nodes net !! x = Some n → main_node_id n = Some k →
           k < max_main_node_id net.

Lemma active_before_cons_active (g : gset nref) (a : nat)
    (zs : list (gset nref * nat)) (q : nat) :
  active_before ((g, S a) :: zs) (S q) = S (active_before zs q).
Proof. unfold active_before. cbn [take]. by rewrite filter_cons_True. Qed.

Lemma active_before_cons_idle (g : gset nref)
    (zs : list (gset nref * nat)) (q : nat) :
  active_before ((g, 0%nat) :: zs) (S q) = active_before zs q.
Proof.
  unfold active_before. cbn [take].
  by rewrite filter_cons_False by (intros H; by apply H).
Qed.

(** The counter advances by the number of active groups. *)
Lemma assign_steps_counter (zs : list (gset nref * nat))
    (ns : gmap nref Node) (m : Z) :
  (foldl assign_step (ns, m) zs).2
  = m + Z.of_nat (length (filter (λ item, item.2 ≠ 0%nat) zs)).
Proof.
  revert ns m. induction zs as [|[g [|a]] zs IH]; intros ns m.
  - simpl. lia.
  - change (foldl assign_step (ns, m) ((g, 0%nat) :: zs))
      with (foldl assign_step (ns, m) zs).
    rewrite IH, filter_cons_False by (intros H; by apply H). done.
  - change (foldl assign_step (ns, m) ((g, S a) :: zs))
      with (foldl assign_step (assign_group m g ns, m + 1) zs).
    rewrite IH, filter_cons_True by done. cbn [length]. lia.
Qed.

(** A node that a single active group holds is stamped with the counter as
    it stood when the loop reached that group. *)
Lemma assign_steps_rank (zs : list (gset nref * nat)) (ns : gmap nref Node)
    (m : Z) (q : nat) (g : gset nref) (a : nat) (x : nref) (n : Node) :
  zs !! q = Some (g, S a) → x ∈ g →
  (∀ q' g' a', q' ≠ q → zs !! q' = Some (g', S a') → x ∉ g') →
  ns !! x = Some n →
  (foldl assign_step (ns, m) zs).1 !! x
  = Some (set_main_node_id (Some (m + Z.of_nat (active_before zs q))) n).
Proof.
  revert ns m q n. induction zs as [|[g0 [|a0]] zs IH]; intros ns m q n Hq Hx Hone Hn.
  - done.
  - change (foldl assign_step (ns, m) ((g0, 0%nat) :: zs))
      with (foldl assign_step (ns, m) zs).
    destruct q as [|q]; [done|]. simpl in Hq.
    rewrite active_before_cons_idle. apply IH; [done..| |done].
    intros q' g' a' Hne Hq'. apply (Hone (S q') g' a'); [lia|done].
  - change (foldl assign_step (ns, m) ((g0, S a0) :: zs))
      with (foldl assign_step (assign_group m g0 ns, m + 1) zs).
    destruct q as [|q].
    + injection Hq as -> ->.
      destruct (assign_steps_spec zs (assign_group m g ns) (m + 1)) as [_ Hall].
      destruct (Hall x) as [[E _]|(k & _ & _ & g' & a' & Hin & Hxg)].
      * rewrite E, assign_group_lookup, decide_True, Hn by done.
        unfold active_before. simpl. do 3 f_equal. lia.
      * apply list_elem_of_lookup in Hin as [q' Hq'].
        exfalso. by apply (Hone (S q') g' a').
    + simpl in Hq. rewrite active_before_cons_active.
      replace (m + Z.of_nat (S (active_before zs q)))
        with (m + 1 + Z.of_nat (active_before zs q)) by lia.
      apply IH; [done..| |].
      * intros q' g' a' Hne Hq'. apply (Hone (S q') g' a'); [lia|done].
      * rewrite assign_group_lookup, decide_False; [done|].
        by apply (Hone 0%nat g0 a0).
Qed.

Lemma active_before_lt (zs : list (gset nref * nat)) (q : nat)
    (g : gset nref) (a : nat) :
  zs !! q = Some (g, S a) →
  (active_before zs q < length (filter (λ item, item.2 ≠ 0%nat) zs))%nat.
Proof.
  revert q. induction zs as [|[g0 [|a0]] zs IH]; intros q Hq; [done|..].
  - destruct q as [|q]; [done|]. simpl in Hq.
    rewrite active_before_cons_idle, filter_cons_False by (intros H; by apply H).
    by apply IH.
  - rewrite filter_cons_True by done. cbn [length]. destruct q as [|q].
    + unfold active_before. simpl. lia.
    + simpl in Hq. rewrite active_before_cons_active.
      specialize (IH q Hq). lia.
Qed.

(** Two active groups do not share a rank. *)
Lemma active_before_inj (zs : list (gset nref * nat)) (q q' : nat)
    (g g' : gset nref) (a a' : nat) :
  zs !! q = Some (g, S a) → zs !! q' = Some (g', S a') →
  active_before zs q = active_before zs q' → q = q'.
Proof.
  revert q q'. induction zs as [|[g0 [|a0]] zs IH]; intros q q' Hq Hq' E; [done|..].
  - destruct q as [|q], q' as [|q']; try done. simpl in Hq, Hq'.
    rewrite !active_before_cons_idle in E. f_equal. by apply IH.
  - destruct q as [|q], q' as [|q']; try done.
    simpl in Hq, Hq'. rewrite !active_before_cons_active in E.
    f_equal. apply IH; [done..|lia].
Qed.

(** Every rank below the number of active groups is the one of an active
    group. *)
Lemma active_before_surj (zs : list (gset nref * nat)) (j : nat) :
  (j < length (filter (λ item, item.2 ≠ 0%nat) zs))%nat →
  ∃ q g a, zs !! q = Some (g, S a) ∧ active_before zs q = j.
Proof.
  revert j. induction zs as [|[g0 [|a0]] zs IH]; intros j Hj.
  - simpl in Hj. lia.
  - rewrite filter_cons_False in Hj by (intros H; by apply H).
    destruct (IH j Hj) as (q & g & a & Hq & E).
    exists (S q), g, a. by rewrite active_before_cons_idle.
  - rewrite filter_cons_True in Hj by done. cbn [length] in Hj.
    destruct j as [|j].
    + by exists 0%nat, g0, a0.
    + destruct (IH j) as (q & g & a & Hq & E); [lia|].
      exists (S q), g, a. by rewrite active_before_cons_active, E.
Qed.

(** What the detection leaves in the store, read off the final groups: a
    node of the active group at position [q] carries the counter plus the
    number of active groups before [q]. *)
Lemma identify_rank (net net' : Network) (int_buffer : float) (s : groups)
    (q : nat) (g : gset nref) (a : nat) (x : nref) :
  merged_groups net int_buffer = Some s →
  _identifyComplexIntersections net int_buffer = Some net' →
  s.1 !! q = Some g → s.2 !! q = Some (S a) → x ∈ g →
  main_node_id (node_of net x) = None
  ∧ node_of net' x
    = set_main_node_id
        (Some (max_main_node_id net
               + Z.of_nat (active_before (zip s.1 s.2) q))) (node_of net x).
Proof.
  intros Hs Hnet' Hq Ha Hx.
  destruct (merged_groups_spec net int_buffer) as (s' & Hs' & _ & Hd & _).
  rewrite Hs in Hs'. injection Hs' as <-.
  assert (Hact : in_active_group s x) by (by exists q, g, a).
  destruct (active_member_eligible _ _ _ _ Hs Hact) as [Hnone Hsig].
  split; [done|].
  apply node_of_signal_lookup in Hsig.
  unfold _identifyComplexIntersections in Hnet'. rewrite Hs in Hnet'.
  simpl in Hnet'. injection Hnet' as <-.
  unfold node_of at 1. cbn [nodes]. unfold assign_groups.
  apply lookup_total_correct.
  apply (assign_steps_rank _ _ _ q g a); [|done| |done].
  - apply lookup_zip_with_Some. by exists g, (S a).
  - intros q' g' a' Hne Hq'.
    apply lookup_zip_with_Some in Hq' as (? & ? & [= <- <-] & Hq1 & Hq2).
    specialize (Hd q' q g' g a' a Hne Hq1 Hq Hq2 Ha). set_solver.
Qed.

(** ** The claims about the detection *)

(** C5, as amended: a link contributes a candidate group
    [{from_node, to_node}] exactly when the comparison
    [link.length > int_buffer] is false, both endpoints carry no group
    identifier and both are signal-controlled; when neither the length nor
    the threshold is a NaN the comparison is false exactly when the length
    is at most the threshold, and when one of them is a NaN it is false
    whatever the other; any other link contributes nothing, and the group
    of a self-loop has one element. *)
Theorem candidate_group_iff (net : Network) (int_buffer : float) :
  (∀ lk, candidate_link net int_buffer lk = true ↔
      float_gt (link_length lk) int_buffer = false
      ∧ main_node_id (node_of net (from_node lk)) = None
      ∧ main_node_id (node_of net (to_node lk)) = None
      ∧ ctrl_type (node_of net (from_node lk)) = Some "signal"%string
      ∧ ctrl_type (node_of net (to_node lk)) = Some "signal"%string)
  ∧ (∀ lk,
      PrimFloat.is_nan (link_length lk) = false →
      PrimFloat.is_nan int_buffer = false →
      (float_gt (link_length lk) int_buffer = false
       ↔ PrimFloat.leb (link_length lk) int_buffer = true))
  ∧ (∀ lk,
      PrimFloat.is_nan (link_length lk) = true
      ∨ PrimFloat.is_nan int_buffer = true →
      float_gt (link_length lk) int_buffer = false
      ∧ PrimFloat.leb (link_length lk) int_buffer = false)
  ∧ (∀ acc item,
      collect_step net int_buffer acc item =
        if candidate_link net int_buffer (link_of net item.2)
        then (acc.1 ++ [ {[ from_node (link_of net item.2);
                            to_node (link_of net item.2) ]} ],
              acc.2 ++ [1%nat])
        else acc)
  ∧ (collect_groups net int_buffer).1 =
      (λ lk, {[ from_node lk; to_node lk ]}) <$>
        filter (λ lk, candidate_link net int_buffer lk = true)
               ((λ item, link_of net item.2) <$> link_dict net)
  ∧ (∀ i r len,
      link_group (mkLink i r r len) = {[ r ]}
      ∧ size (link_group (mkLink i r r len)) = 1%nat).
Proof.
  split_and!.
  - apply candidate_link_spec.
  - intros lk Ha Hb. split.
    + by apply float_not_gt_leb.
    + apply float_leb_not_gt.
  - intros lk Hnan. split; [by apply float_gt_nan|].
    by apply float_leb_nan.
  - done.
  - by rewrite collect_groups_spec.
  - intros i r len. unfold link_group. cbn [from_node to_node].
    rewrite (union_idemp_L ({[r]} : gset nref)).
    split; [done|apply size_singleton].
Qed.

(** C3, as amended: on a network in which every group identifier that a
    node carries lies below the counter of group identifiers, the detection
    returns; the groups that survive the merging are pairwise disjoint and a
    node lies in at most one of them; a node of no surviving group is left
    as it was; the surviving groups get the identifiers from the counter on,
    one each in their order, below the counter as the detection leaves it;
    no node carried the identifier of a surviving group before; a member of
    a surviving group was ungrouped and receives the identifier of its
    group and nothing else; afterwards the nodes that carry the identifier
    of a surviving group are exactly its members; and two surviving groups
    with one identifier are one group. *)
Theorem detection_partition (net : Network) (int_buffer : float) :
  main_ids_below net →
  ∃ s net',
    merged_groups net int_buffer = Some s
    ∧ _identifyComplexIntersections net int_buffer = Some net'
    ∧ disjoint_active s
    ∧ (∀ x, (length (filter (λ item, item.2 ≠ 0%nat ∧ x ∈ item.1)
                            (zip s.1 s.2)) ≤ 1)%nat)
    ∧ (∀ x, ¬ in_active_group s x → node_of net' x = node_of net x)
    ∧ ∀ q g a, s.1 !! q = Some g → s.2 !! q = Some (S a) →
        let k := max_main_node_id net
                 + Z.of_nat (active_before (zip s.1 s.2) q) in
        max_main_node_id net ≤ k < max_main_node_id net'
        ∧ (∀ y, main_node_id (node_of net y) ≠ Some k)
        ∧ (∀ x, x ∈ g →
             main_node_id (node_of net x) = None
             ∧ node_of net' x = set_main_node_id (Some k) (node_of net x))
        ∧ (∀ x, main_node_id (node_of net' x) = Some k ↔ x ∈ g)
        ∧ (∀ q' g' a', s.1 !! q' = Some g' → s.2 !! q' = Some (S a') →
             active_before (zip s.1 s.2) q' = active_before (zip s.1 s.2) q →
             q' = q).
Proof.
  intros Hbelow.
  destruct (identify_spec net int_buffer)
    as (s & net' & Hs & Hnet' & _ & _ & _ & _ & _ & _ & Hall).
  destruct (merged_groups_spec net int_buffer) as (s' & Hs' & _ & Hd & _).
  rewrite Hs in Hs'. injection Hs' as <-.
  assert (Hfresh : ∀ k y, max_main_node_id net ≤ k →
            main_node_id (node_of net y) ≠ Some k).
  { intros k y Hk Hy. destruct (nodes net !! y) as [n|] eqn:Hn.
    - rewrite (node_of_lookup net y n Hn) in Hy.
      specialize (Hbelow y n k Hn Hy). lia.
    - unfold node_of in Hy. rewrite lookup_total_alt, Hn in Hy. done. }
  exists s, net'. split_and!; [done..| | |].
  - intros x. apply filter_length_le_1.
    intros i j [g1 [|a]] [g2 [|b]] Hij Hi Hj [Ha Hx1] [Hb Hx2];
      simpl in *; try done.
    apply lookup_zip_with_Some in Hi as (? & ? & [= <- <-] & Hi1 & Hi2).
    apply lookup_zip_with_Some in Hj as (? & ? & [= <- <-] & Hj1 & Hj2).
    specialize (Hd i j g1 g2 a b Hij Hi1 Hj1 Hi2 Hj2). set_solver.
  - intros x Hx. destruct (Hall x) as [[E _]|(_ & _ & _ & Hact)]; [|done].
    unfold node_of. by rewrite !lookup_total_alt, E.
  - intros q g a Hq Ha k.
    assert (Hzq : zip s.1 s.2 !! q = Some (g, S a)).
    { apply lookup_zip_with_Some. by exists g, (S a). }
    assert (Hmax : max_main_node_id net'
                   = max_main_node_id net
                     + Z.of_nat (length (filter (λ item, item.2 ≠ 0%nat)
                                                (zip s.1 s.2)))).
    { pose proof Hnet' as H. unfold _identifyComplexIntersections in H.
      rewrite Hs in H. simpl in H. injection H as <-. cbn [max_main_node_id].
      unfold assign_groups. by rewrite assign_steps_counter. }
    pose proof (active_before_lt _ _ _ _ Hzq) as Hlt.
    assert (Hmem : ∀ x, x ∈ g →
              main_node_id (node_of net x) = None
              ∧ node_of net' x = set_main_node_id (Some k) (node_of net x)).
    { intros x Hx. by apply (identify_rank net net' int_buffer s q g a). }
    split_and!.
    + unfold k. lia.
    + unfold k. lia.
    + intros y. apply Hfresh. unfold k. lia.
    + done.
    + intros x. split.
      * intros Hk. destruct (Hall x) as [[E _]|(_ & _ & _ & q' & g' & a' & Hq' & Ha' & Hx')].
        { exfalso. apply (Hfresh k x); [unfold k; lia|].
          rewrite <- Hk. unfold node_of. by rewrite !lookup_total_alt, E. }
        destruct (identify_rank _ _ _ _ _ _ _ _ Hs Hnet' Hq' Ha' Hx') as [_ E].
        rewrite E in Hk. simpl in Hk. injection Hk as Hk.
        assert (q' = q) as ->.
        { apply (active_before_inj (zip s.1 s.2) q' q g' g a' a); [|done|].
          - apply lookup_zip_with_Some. by exists g', (S a').
          - unfold k in Hk. lia. }
        congruence.
      * intros Hx. destruct (Hmem x Hx) as [_ ->]. done.
    + intros q' g' a' Hq' Ha' E.
      apply (active_before_inj (zip s.1 s.2) q' q g' g a' a); [|done..].
      apply lookup_zip_with_Some. by exists g', (S a').
Qed.

(** Two nodes of one active group end with the same identifier. *)
Lemma same_group_same_id (net net' : Network) (int_buffer : float) (s : groups)
    (q : nat) (g : gset nref) (a : nat) (x y : nref) :
  merged_groups net int_buffer = Some s →
  _identifyComplexIntersections net int_buffer = Some net' →
  s.1 !! q = Some g → s.2 !! q = Some (S a) → x ∈ g → y ∈ g →
  ∃ k, main_node_id (node_of net' x) = Some k
       ∧ main_node_id (node_of net' y) = Some k.
Proof.
  intros Hs Hnet' Hq Ha Hx Hy.
  destruct (identify_spec net int_buffer)
    as (s1 & net1 & Hs1 & Hnet1 & _ & _ & _ & _ & _ & Hnodes & Hall).
  destruct (merged_groups_spec net int_buffer) as (s2 & Hs2 & _ & Hd & _).
  rewrite Hs in Hs1, Hs2. injection Hs1 as <-. injection Hs2 as <-.
  rewrite Hnet' in Hnet1. injection Hnet1 as <-.
  assert (Hax : in_active_group s x) by (by exists q, g, a).
  assert (Hay : in_active_group s y) by (by exists q, g, a).
  destruct (active_member_eligible _ _ _ _ Hs Hax) as [Hmx Hsx].
  destruct (active_member_eligible _ _ _ _ Hs Hay) as [Hmy Hsy].
  apply node_of_signal_lookup in Hsx, Hsy.
  assert (Heq : main_node_id <$> nodes net' !! x
                = main_node_id <$> nodes net' !! y).
  { rewrite Hnodes. unfold assign_groups. apply assign_steps_together.
    - intros g' a' Hin. apply active_group_lookup in Hin as (q' & Hq' & Ha').
      destruct (decide (q' = q)) as [->|Hne]; [naive_solver|].
      specialize (Hd q' q g' g a' a Hne Hq' Hq Ha' Ha). set_solver.
    - by rewrite Hsx, Hsy; simpl; rewrite Hmx, Hmy. }
  destruct (Hall x) as [[_ N]|(k & _ & E & _)]; [done|].
  rewrite E, Hsx in Heq. simpl in Heq.
  exists k. split.
  - unfold node_of. rewrite lookup_total_alt, E, Hsx. done.
  - unfold node_of. rewrite lookup_total_alt.
    destruct (nodes net' !! y); simplify_eq/=. done.
Qed.

(** C2: when [A]-[B] and [B]-[C] are links of length at most the threshold
    between signal-controlled, ungrouped nodes, the detection returns and
    leaves [A], [B] and [C] with one and the same group identifier, whether
    or not a link joins [A] and [C]. *)
Theorem detection_transitive (net : Network) (int_buffer : float)
    (ka kb : Z) (la lb : lref) (A B C : nref) :
  (ka, la) ∈ link_dict net → (kb, lb) ∈ link_dict net →
  PrimFloat.leb (link_length (link_of net la)) int_buffer = true →
  PrimFloat.leb (link_length (link_of net lb)) int_buffer = true →
  (from_node (link_of net la) = A ∧ to_node (link_of net la) = B)
    ∨ (from_node (link_of net la) = B ∧ to_node (link_of net la) = A) →
  (from_node (link_of net lb) = B ∧ to_node (link_of net lb) = C)
    ∨ (from_node (link_of net lb) = C ∧ to_node (link_of net lb) = B) →
  (∀ x, x ∈ [A; B; C] →
     ctrl_type (node_of net x) = Some "signal"%string
     ∧ main_node_id (node_of net x) = None) →
  ∃ net' k,
    _identifyComplexIntersections net int_buffer = Some net'
    ∧ main_node_id (node_of net' A) = Some k
    ∧ main_node_id (node_of net' B) = Some k
    ∧ main_node_id (node_of net' C) = Some k.
Proof.
  intros Hla Hlb Hlena Hlenb Hab Hbc Hnodes.
  destruct (Hnodes A) as [HsA HmA]; [repeat constructor|].
  destruct (Hnodes B) as [HsB HmB]; [repeat constructor|].
  destruct (Hnodes C) as [HsC HmC]; [repeat constructor|].
  destruct (identify_spec net int_buffer) as (s & net' & Hs & Hnet' & _).
  destruct (merged_groups_spec net int_buffer) as (s2 & Hs2 & _ & Hd & _).
  rewrite Hs in Hs2. injection Hs2 as <-.
  assert (Hca : candidate_link net int_buffer (link_of net la) = true).
  { apply candidate_link_spec. apply float_leb_not_gt in Hlena.
    destruct Hab as [[-> ->]|[-> ->]]; done. }
  assert (Hcb : candidate_link net int_buffer (link_of net lb) = true).
  { apply candidate_link_spec. apply float_leb_not_gt in Hlenb.
    destruct Hbc as [[-> ->]|[-> ->]]; done. }
  destruct (candidate_endpoints_active _ _ _ _ _ Hs Hla Hca)
    as (q1 & g1 & a1 & Hq1 & Ha1 & Hf1 & Ht1).
  destruct (candidate_endpoints_active _ _ _ _ _ Hs Hlb Hcb)
    as (q2 & g2 & a2 & Hq2 & Ha2 & Hf2 & Ht2).
  assert (HA1 : A ∈ g1) by (destruct Hab as [[<- <-]|[<- <-]]; done).
  assert (HB1 : B ∈ g1) by (destruct Hab as [[<- <-]|[<- <-]]; done).
  assert (HB2 : B ∈ g2) by (destruct Hbc as [[<- <-]|[<- <-]]; done).
  assert (HC2 : C ∈ g2) by (destruct Hbc as [[<- <-]|[<- <-]]; done).
  assert (q1 = q2) as <-.
  { destruct (decide (q1 = q2)) as [|Hne]; [done|].
    specialize (Hd q1 q2 g1 g2 a1 a2 Hne Hq1 Hq2 Ha1 Ha2). set_solver. }
  assert (g2 = g1) as -> by congruence.
  destruct (same_group_same_id _ _ _ _ _ _ _ A B Hs Hnet' Hq1 Ha1 HA1 HB1)
    as (k & HkA & HkB).
  destruct (same_group_same_id _ _ _ _ _ _ _ B C Hs Hnet' Hq1 Ha1 HB1 HC2)
    as (k' & HkB' & HkC).
  exists net', k. split_and!; [done..|congruence].
Qed.

(** A network without candidate link is left as it is. *)
Lemma identify_no_candidate (net : Network) (int_buffer : float) :
  (∀ k l, (k, l) ∈ link_dict net →
          candidate_link net int_buffer (link_of net l) = false) →
  _identifyComplexIntersections net int_buffer = Some net.
Proof.
  intros Hno.
  assert (Hc : collect_groups net int_buffer = ([], [])).
  { rewrite collect_groups_spec.
    assert (E : filter (λ lk, candidate_link net int_buffer lk = true)
                  ((λ item, link_of net item.2) <$> link_dict net) = []).
    { apply elem_of_nil_inv. intros lk Hlk.
      apply list_elem_of_filter in Hlk as [Hc Hlk].
      apply list_elem_of_fmap in Hlk as ([k l] & -> & Hin).
      simpl in Hc. rewrite (Hno k l Hin) in Hc. done. }
    by rewrite E. }
  unfold _identifyComplexIntersections, merged_groups. rewrite Hc. simpl.
  by destruct net.
Qed.

(** C8: after a first run of the detection every endpoint of a link that
    was a candidate carries a group identifier, and a second run with the
    same threshold changes nothing: no node, no counter. *)
Theorem detection_idempotent (net : Network) (int_buffer : float) :
  ∃ net1,
    _identifyComplexIntersections net int_buffer = Some net1
    ∧ (∀ k l, (k, l) ∈ link_dict net →
         candidate_link net int_buffer (link_of net l) = true →
         is_Some (main_node_id (node_of net1 (from_node (link_of net l))))
         ∧ is_Some (main_node_id (node_of net1 (to_node (link_of net l)))))
    ∧ _identifyComplexIntersections net1 int_buffer = Some net1.
Proof.
  destruct (identify_spec net int_buffer)
    as (s & net1 & Hs & Hnet1 & Hlinks & _ & Hld & _ & _ & _ & Hall).
  assert (Hstamped : ∀ k l, (k, l) ∈ link_dict net →
    candidate_link net int_buffer (link_of net l) = true →
    is_Some (main_node_id (node_of net1 (from_node (link_of net l))))
    ∧ is_Some (main_node_id (node_of net1 (to_node (link_of net l))))).
  { intros k l Hin Hc.
    destruct (candidate_endpoints_active _ _ _ _ _ Hs Hin Hc)
      as (q & g & a & Hq & Ha & Hf & Ht).
    destruct (same_group_same_id _ _ _ _ _ _ _ _ _ Hs Hnet1 Hq Ha Hf Ht)
      as (m & -> & ->). eauto. }
  assert (Hkeep : ∀ x,
    ctrl_type (node_of net1 x) = ctrl_type (node_of net x)
    ∧ (main_node_id (node_of net x) ≠ None →
       main_node_id (node_of net1 x) ≠ None)).
  { intros x. destruct (Hall x) as [[E _]|(m & _ & E & _)].
    - unfold node_of. by rewrite !lookup_total_alt, E.
    - destruct (identify_node_of net net1 x _ E) as [->|[-> _]]; done. }
  exists net1. split_and!; [done..|].
  apply identify_no_candidate. intros k l Hin.
  rewrite Hld in Hin. unfold link_of. rewrite Hlinks.
  fold (link_of net l).
  destruct (candidate_link net int_buffer (link_of net l)) eqn:Hc.
  - destruct (Hstamped k l Hin Hc) as [[m Hm] _].
    apply not_true_is_false. intros Hc1.
    apply candidate_link_spec in Hc1 as (_ & Hn & _). congruence.
  - apply not_true_is_false. intros Hc1.
    apply not_true_iff_false in Hc. apply Hc.
    apply candidate_link_spec in Hc1 as (Hl & Hf & Ht & Hsf & Hst).
    apply candidate_link_spec.
    destruct (Hkeep (from_node (link_of net l))) as [Ecf Hmf].
    destruct (Hkeep (to_node (link_of net l))) as [Ect Hmt].
    split_and!; [done| | |congruence|congruence].
    + destruct (main_node_id (node_of net (from_node (link_of net l))));
        [|done]. exfalso. by apply Hmf.
    + destruct (main_node_id (node_of net (to_node (link_of net l))));
        [|done]. exfalso. by apply Hmt.
Qed.

(** * Properties of the consolidation *)

(** ** Dictionaries *)

Lemma filter_all_id {A : Type} (P : A → Prop) `{!∀ x, Decision (P x)}
    (l : list A) :
  Forall P l → filter P l = l.
Proof.
  induction 1 as [|x l Hx _ IH]; [done|].
  by rewrite filter_cons_True, IH.
Qed.

Section DictFacts.
Context {K V : Type} `{EqDecision K}.
Implicit Types (d : list (K * V)) (k : K) (v : V).

Lemma od_get_set k k' v d :
  OrderedDict.get k (OrderedDict.set k' v d) =
    if decide (k = k') then Some v else OrderedDict.get k d.
Proof.
  induction d as [|[k1 v1] d IH]; simpl.
  - by destruct (decide (k = k')).
  - destruct (decide (k' = k1)) as [->|Hne]; simpl.
    + by destruct (decide (k = k1)).
    + destruct (decide (k = k1)) as [->|Hne'].
      * by rewrite decide_False by done.
      * done.
Qed.

Lemma od_get_Some_elem k v d : OrderedDict.get k d = Some v → (k, v) ∈ d.
Proof.
  induction d as [|[k1 v1] d IH]; simpl; [done|].
  destruct (decide (k = k1)) as [->|Hne].
  - intros [= ->]. apply list_elem_of_here.
  - intros H. by apply list_elem_of_further, IH.
Qed.

Lemma od_get_None k d : OrderedDict.get k d = None ↔ k ∉ OrderedDict.keys d.
Proof.
  unfold OrderedDict.keys. induction d as [|[k1 v1] d IH]; simpl.
  - split; [intros _; apply not_elem_of_nil|done].
  - rewrite not_elem_of_cons. destruct (decide (k = k1)) as [->|Hne].
    + split; [done|]. by intros [? _].
    + rewrite IH. tauto.
Qed.

Lemma od_elem_get k v d :
  NoDup (OrderedDict.keys d) → (k, v) ∈ d → OrderedDict.get k d = Some v.
Proof.
  unfold OrderedDict.keys. induction d as [|[k1 v1] d IH]; simpl.
  - intros _ H. by apply elem_of_nil in H.
  - intros [Hk1 Hnd]%NoDup_cons [[= -> ->]|Hin]%elem_of_cons.
    + by rewrite decide_True.
    + rewrite decide_False; [by apply IH|].
      intros ->. apply Hk1. apply list_elem_of_fmap. by exists (k1, v).
Qed.

Lemma od_keys_set k v d :
  OrderedDict.keys (OrderedDict.set k v d) =
    if decide (k ∈ OrderedDict.keys d) then OrderedDict.keys d
    else OrderedDict.keys d ++ [k].
Proof.
  unfold OrderedDict.keys. induction d as [|[k1 v1] d IH].
  - destruct (decide (k ∈ ([] : list (K * V)).*1)) as [H|H]; [|done].
    by apply elem_of_nil in H.
  - cbn [OrderedDict.set]. destruct (decide (k = k1)) as [->|Hne].
    + destruct (decide (k1 ∈ ((k1, v1) :: d).*1)) as [H|H]; [done|].
      exfalso. apply H. apply list_elem_of_here.
    + rewrite fmap_cons, IH.
      destruct (decide (k ∈ d.*1)) as [Hin|Hin],
        (decide (k ∈ ((k1, v1) :: d).*1)) as [H|H]; try done.
      * exfalso. apply H. by apply list_elem_of_further.
      * exfalso. rewrite fmap_cons in H.
        apply elem_of_cons in H as [?|?]; done.
Qed.

Lemma od_set_NoDup k v d :
  NoDup (OrderedDict.keys d) → NoDup (OrderedDict.keys (OrderedDict.set k v d)).
Proof.
  intros Hnd. rewrite od_keys_set. destruct (decide _) as [|Hk]; [done|].
  apply NoDup_app. split_and!; [done| |apply NoDup_singleton].
  intros x Hx ->%list_elem_of_singleton. done.
Qed.

(** Deleting a key that is present leaves the other entries in their
    order. *)
Lemma od_del_present k d :
  NoDup (OrderedDict.keys d) → k ∈ OrderedDict.keys d →
  OrderedDict.del k d = Some (filter (λ kv, kv.1 ≠ k) d).
Proof.
  unfold OrderedDict.keys. induction d as [|[k1 v1] d IH].
  - intros _ H. by apply elem_of_nil in H.
  - rewrite fmap_cons. intros [Hk1 Hnd]%NoDup_cons Hin.
    rewrite filter_cons. cbn [OrderedDict.del fst].
    destruct (decide (k = k1)) as [->|Hne].
    + rewrite decide_False by (intros ?; done). f_equal.
      symmetry. apply filter_all_id, Forall_forall.
      intros [k2 v2] H2 E. simpl in E. subst k2. apply Hk1.
      apply list_elem_of_fmap. by exists (k1, v2).
    + rewrite decide_True by done.
      apply elem_of_cons in Hin as [?|Hin]; [done|].
      by rewrite IH.
Qed.

Lemma od_del_absent k d : k ∉ OrderedDict.keys d → OrderedDict.del k d = None.
Proof.
  unfold OrderedDict.keys. induction d as [|[k1 v1] d IH]; simpl; [done|].
  rewrite not_elem_of_cons. intros [Hne Hk].
  rewrite decide_False by done. by rewrite IH.
Qed.

Lemma od_filter_keys_NoDup (P : K * V → Prop) `{!∀ x, Decision (P x)} d :
  NoDup (OrderedDict.keys d) → NoDup (OrderedDict.keys (filter P d)).
Proof.
  unfold OrderedDict.keys. induction d as [|[k1 v1] d IH]; simpl; [done|].
  intros [Hk1 Hnd]%NoDup_cons. rewrite filter_cons.
  destruct (decide (P (k1, v1))); [|by apply IH].
  simpl. apply NoDup_cons. split; [|by apply IH].
  intros Hin. apply Hk1. apply list_elem_of_fmap in Hin as ([k2 v2] & -> & Hin).
  apply list_elem_of_filter in Hin as [_ Hin].
  apply list_elem_of_fmap. by exists (k2, v2).
Qed.

(** Deleting a list of distinct keys, all present, filters them out; an
    absent or repeated key makes the loop fail. *)
Lemma od_del_all {A : Type} (key : A → K) (xs : list A) d :
  NoDup (OrderedDict.keys d) → NoDup (key <$> xs) →
  (∀ x, x ∈ xs → key x ∈ OrderedDict.keys d) →
  fold_opt (λ d x, OrderedDict.del (key x) d) d xs =
    Some (filter (λ kv, kv.1 ∉ key <$> xs) d).
Proof.
  revert d. induction xs as [|x xs IH]; intros d Hnd Hxs Hin; simpl.
  - f_equal. symmetry. apply filter_all_id, Forall_forall.
    intros kv _. apply not_elem_of_nil.
  - apply NoDup_cons in Hxs as [Hx Hxs].
    rewrite od_del_present; [|done|apply Hin, list_elem_of_here]. simpl.
    rewrite IH.
    + f_equal. rewrite list_filter_filter. apply list_filter_iff.
      intros [k v]; simpl. rewrite not_elem_of_cons. tauto.
    + by apply od_filter_keys_NoDup.
    + done.
    + intros y Hy. unfold OrderedDict.keys.
      apply list_elem_of_fmap.
      specialize (Hin y (list_elem_of_further _ _ _ Hy)).
      apply list_elem_of_fmap in Hin as ([k v] & Hk & Hkv). simpl in Hk.
      exists (k, v). split; [done|]. apply list_elem_of_filter. split; [|done].
      simpl. intros ->. apply Hx. rewrite <- Hk.
      apply list_elem_of_fmap. by exists y.
Qed.
End DictFacts.

(** ** The grouping loop *)

Lemma group_steps_spec (net : Network) (items : list (Z * nref)) :
  let gd := foldl (group_step net) ([], []) items in
  NoDup (OrderedDict.keys gd.1)
  ∧ (∀ m, OrderedDict.get m gd.1 =
          match filter (λ r, main_node_id (node_of net r) = Some m) items.*2 with
          | [] => None
          | g => Some g
          end)
  ∧ (∀ m, is_Some (OrderedDict.get m gd.1) → is_Some (OrderedDict.get m gd.2)).
Proof.
  induction items as [|[k r] items IH] using rev_ind.
  - simpl. split_and!; [constructor|done|]. intros m [? ?]. done.
  - rewrite foldl_snoc. cbv zeta in *.
    destruct IH as (Hnd & Hget & Hctrl).
    set (acc := foldl (group_step net) ([], []) items) in *.
    unfold group_step. cbn [snd].
    rewrite fmap_app. cbn [fmap list_fmap snd].
    destruct (main_node_id (node_of net r)) as [m0|] eqn:Hm0.
    + assert (Hfilter : ∀ m,
        filter (λ r, main_node_id (node_of net r) = Some m) (items.*2 ++ [r])
        = filter (λ r, main_node_id (node_of net r) = Some m) items.*2
          ++ (if decide (m = m0) then [r] else [])).
      { intros m. rewrite filter_app. f_equal. rewrite filter_cons, filter_nil.
        rewrite Hm0. destruct (decide (m = m0)) as [->|Hne].
        - by rewrite decide_True.
        - rewrite decide_False; [done|]. congruence. }
      assert (Hmain : ∃ g (acc2 : odict Z bool),
        (match OrderedDict.get m0 acc.1 with
         | Some node_group =>
             (OrderedDict.set m0 (node_group ++ [r]) acc.1, acc.2)
         | None =>
             (OrderedDict.set m0 [r] acc.1, OrderedDict.set m0 false acc.2)
         end) = (OrderedDict.set m0 g acc.1, acc2)
        ∧ g = filter (λ r, main_node_id (node_of net r) = Some m0) items.*2
              ++ [r]
        ∧ (∀ m, is_Some (OrderedDict.get m (OrderedDict.set m0 g acc.1)) →
                is_Some (OrderedDict.get m acc2))).
      { specialize (Hget m0).
        destruct (OrderedDict.get m0 acc.1) as [g|] eqn:Hg.
        - exists (g ++ [r]), acc.2. split_and!; [done| |].
          + destruct (filter _ items.*2); [done|]. by simplify_eq.
          + intros m. rewrite od_get_set.
            destruct (decide (m = m0)) as [->|]; [|apply Hctrl].
            intros _. apply Hctrl. by rewrite Hg.
        - exists [r], (OrderedDict.set m0 false acc.2). split_and!; [done| |].
          + by destruct (filter _ items.*2).
          + intros m. rewrite !od_get_set.
            destruct (decide (m = m0)) as [->|]; [eauto|apply Hctrl]. }
      destruct Hmain as (g & acc2 & -> & Hg & Hctrl2).
      assert (Hres : ∀ acc3 : odict Z bool,
        (∀ m, is_Some (OrderedDict.get m (OrderedDict.set m0 g acc.1)) →
              is_Some (OrderedDict.get m acc3)) →
        NoDup (OrderedDict.keys (OrderedDict.set m0 g acc.1))
        ∧ (∀ m, OrderedDict.get m (OrderedDict.set m0 g acc.1) =
             match filter (λ r, main_node_id (node_of net r) = Some m)
                     (items.*2 ++ [r]) with
             | [] => None
             | g => Some g
             end)
        ∧ (∀ m, is_Some (OrderedDict.get m (OrderedDict.set m0 g acc.1)) →
                is_Some (OrderedDict.get m acc3))).
      { intros acc3 H3. split_and!; [by apply od_set_NoDup| |done].
        intros m. rewrite od_get_set, Hfilter.
        destruct (decide (m = m0)) as [->|Hne].
        - rewrite Hg. by destruct (filter _ items.*2).
        - by rewrite app_nil_r. }
      destruct (is_signal (node_of net r)); cbn [fst snd]; apply Hres.
      * intros m Hm. rewrite od_get_set. destruct (decide (m = m0)); eauto.
      * done.
    + split_and!; [done| |done]. intros m. rewrite filter_app, filter_cons.
      rewrite Hm0, decide_False by done. rewrite filter_nil, app_nil_r. apply Hget.
Qed.

Lemma group_nodes_spec (net : Network) :
  NoDup (OrderedDict.keys (group_nodes net).1)
  ∧ (∀ m g, (m, g) ∈ (group_nodes net).1 ↔ g = group_of net m ∧ g ≠ [])
  ∧ (∀ m g, (m, g) ∈ (group_nodes net).1 →
            is_Some (OrderedDict.get m (group_nodes net).2)).
Proof.
  destruct (group_steps_spec net (node_dict net)) as (Hnd & Hget & Hctrl).
  fold (group_nodes net) in *. split_and!; [done| |].
  - intros m g. unfold group_of, OrderedDict.values. split.
    + intros Hin. apply (od_elem_get _ _ _ Hnd) in Hin.
      rewrite Hget in Hin. destruct (filter _ _); by simplify_eq.
    + intros [-> Hne]. apply od_get_Some_elem. rewrite Hget.
      by destruct (filter _ _).
  - intros m g Hin. apply Hctrl. apply (od_elem_get _ _ _ Hnd) in Hin.
    by rewrite Hin.
Qed.

(** ** The two rewiring loops *)

(** What the loop over the members of a group leaves alone: the registry
    of the network. *)
Definition same_registry (c c' : Consolidation) : Prop :=
  node_dict (cnet c') = node_dict (cnet c)
  ∧ link_dict (cnet c') = link_dict (cnet c)
  ∧ max_node_id (cnet c') = max_node_id (cnet c)
  ∧ max_main_node_id (cnet c') = max_main_node_id (cnet c).

(** The attributes of a node that the loop over the members of a group
    never writes. *)
Definition node_core (n : Node)
    : Z * option Z * option string * option string * option Point * option Point :=
  (node_id n, main_node_id n, ctrl_type n, osm_node_id n, geometry n,
   geometry_xy n).

(** Only the new node is written to, and only its link lists and highway
    tag. *)
Definition nodes_frame (new_node : nref) (c c' : Consolidation) : Prop :=
  (∀ r, r ≠ new_node → nodes (cnet c') !! r = nodes (cnet c) !! r)
  ∧ node_core <$> nodes (cnet c') !! new_node
    = node_core <$> nodes (cnet c) !! new_node.

Lemma same_registry_refl (c : Consolidation) : same_registry c c.
Proof. by repeat split. Qed.

Lemma same_registry_trans (c1 c2 c3 : Consolidation) :
  same_registry c1 c2 → same_registry c2 c3 → same_registry c1 c3.
Proof.
  intros (? & ? & ? & ?) (? & ? & ? & ?). repeat split; congruence.
Qed.

Lemma nodes_frame_refl (N : nref) (c : Consolidation) : nodes_frame N c c.
Proof. by split. Qed.

Lemma nodes_frame_trans (N : nref) (c1 c2 c3 : Consolidation) :
  nodes_frame N c1 c2 → nodes_frame N c2 c3 → nodes_frame N c1 c3.
Proof.
  intros [H1 H1'] [H2 H2']. split; [|congruence].
  intros r Hr. rewrite H2, H1; done.
Qed.

Lemma nodes_frame_alter (N : nref) (f : Node → Node) (c : Consolidation) :
  (∀ n, node_core (f n) = node_core n) →
  nodes_frame N c (upd_cnet (upd_nodes (alter f N)) c).
Proof.
  intros Hf. split; simpl.
  - intros r Hr. by rewrite lookup_alter_ne.
  - rewrite lookup_alter_eq. destruct (nodes (cnet c) !! N); simpl; [|done].
    by rewrite Hf.
Qed.

Section Rewire.
Variables (test : Link → nref) (upd : nref → Link → Link)
  (push : lref → Node → Node).
Hypothesis test_upd : ∀ r lk, test (upd r lk) = test lk.
Hypothesis upd_upd : ∀ r lk, upd r (upd r lk) = upd r lk.
Hypothesis push_core : ∀ l n, node_core (push l n) = node_core n.
Variables (G : list nref) (N : nref).

(** The common shape of [rewire_incoming] and [rewire_outgoing]. *)
Definition rewire (c : Consolidation) (l : lref) : Consolidation :=
  if bool_decide (test (link_of (cnet c) l) ∈ G)
  then mark_link l c
  else upd_cnet (λ net,
         upd_nodes (alter (push l) N)
           (upd_links (alter (upd N) l) net)) c.

Lemma rewire_links (c : Consolidation) (l l' : lref) :
  links (cnet (rewire c l)) !! l' =
    if decide (l' = l ∧ test (link_of (cnet c) l') ∉ G)
    then upd N <$> links (cnet c) !! l'
    else links (cnet c) !! l'.
Proof.
  unfold rewire. case_bool_decide as Ht; simpl.
  - rewrite decide_False; [done|]. intros [-> ?]. done.
  - destruct (decide (l' = l)) as [->|Hne].
    + rewrite decide_True by done. by rewrite lookup_alter_eq.
    + rewrite decide_False by tauto. by rewrite lookup_alter_ne.
Qed.

Lemma rewire_test (c : Consolidation) (l l' : lref) :
  test (link_of (cnet (rewire c l)) l') = test (link_of (cnet c) l').
Proof.
  unfold link_of. rewrite !lookup_total_alt, rewire_links.
  case_decide; [|done].
  destruct (links (cnet c) !! l'); simpl; [apply test_upd|done].
Qed.

Lemma rewire_marks (c : Consolidation) (l l' : lref) :
  l' ∈ removal_link_set (rewire c l) ↔
    l' ∈ removal_link_set c ∨ (l' = l ∧ test (link_of (cnet c) l') ∈ G).
Proof.
  unfold rewire. case_bool_decide as Ht; simpl.
  - rewrite elem_of_union, elem_of_singleton. split.
    + intros [->|?]; auto.
    + intros [?|[? _]]; auto.
  - split; [auto|]. intros [?|[-> ?]]; done.
Qed.

Lemma rewire_registry (c : Consolidation) (l : lref) :
  same_registry c (rewire c l).
Proof. unfold rewire. case_bool_decide; by repeat split. Qed.

Lemma rewire_nodes (c : Consolidation) (l : lref) :
  nodes_frame N c (rewire c l).
Proof.
  unfold rewire. case_bool_decide; [by split|].
  split; simpl.
  - intros r Hr. by rewrite lookup_alter_ne.
  - rewrite lookup_alter_eq. destruct (nodes (cnet c) !! N); simpl; [|done].
    by rewrite push_core.
Qed.

(** A whole loop over a list of links. *)
Lemma rewire_loop_links (ls : list lref) (c : Consolidation) (l' : lref) :
  links (cnet (foldl rewire c ls)) !! l' =
    if decide (l' ∈ ls ∧ test (link_of (cnet c) l') ∉ G)
    then upd N <$> links (cnet c) !! l'
    else links (cnet c) !! l'.
Proof.
  revert c. induction ls as [|l ls IH]; intros c.
  - cbn [foldl]. case_decide as H; [|done]. destruct H as [H _].
    by apply elem_of_nil in H.
  - cbn [foldl]. rewrite IH, rewire_test, rewire_links.
    destruct (decide (l' ∈ ls ∧ test (link_of (cnet c) l') ∉ G)) as [[H1 H2]|H1],
      (decide (l' = l ∧ test (link_of (cnet c) l') ∉ G)) as [[H3 H4]|H3],
      (decide (l' ∈ l :: ls ∧ test (link_of (cnet c) l') ∉ G)) as [[H5 H6]|H5];
      try done.
    + destruct (links (cnet c) !! l'); simpl; [by rewrite upd_upd|done].
    + exfalso. apply H5. split; [by apply list_elem_of_further|done].
    + exfalso. apply H5. split; [by apply list_elem_of_further|done].
    + exfalso. apply H5. split; [subst; apply list_elem_of_here|done].
    + exfalso. apply elem_of_cons in H5 as [?|?]; tauto.
Qed.

Lemma rewire_loop_marks (ls : list lref) (c : Consolidation) (l' : lref) :
  l' ∈ removal_link_set (foldl rewire c ls) ↔
    l' ∈ removal_link_set c ∨ (l' ∈ ls ∧ test (link_of (cnet c) l') ∈ G).
Proof.
  revert c. induction ls as [|l ls IH]; intros c.
  - simpl. split; [auto|]. intros [?|[H _]]; [done|]. by apply elem_of_nil in H.
  - cbn [foldl]. rewrite IH, rewire_test, rewire_marks, elem_of_cons. tauto.
Qed.

Lemma rewire_loop_registry (ls : list lref) (c : Consolidation) :
  same_registry c (foldl rewire c ls).
Proof.
  apply (foldl_invariant (same_registry c)); [|apply same_registry_refl].
  intros c' l H. eapply same_registry_trans; [done|apply rewire_registry].
Qed.

Lemma rewire_loop_removal_nodes (ls : list lref) (c : Consolidation) :
  removal_node_set (foldl rewire c ls) = removal_node_set c.
Proof.
  apply (foldl_invariant (λ c', removal_node_set c' = removal_node_set c));
    [|done].
  intros c' l <-. unfold rewire. by case_bool_decide.
Qed.

Lemma rewire_loop_nodes (ls : list lref) (c : Consolidation) :
  nodes_frame N c (foldl rewire c ls).
Proof.
  apply (foldl_invariant (nodes_frame N c)); [|apply nodes_frame_refl].
  intros c' l H. eapply nodes_frame_trans; [done|apply rewire_nodes].
Qed.
End Rewire.

Lemma rewire_incoming_rewire (G : list nref) (N : nref) :
  rewire_incoming G N = rewire from_node set_to_node push_incoming G N.
Proof. done. Qed.

Lemma rewire_outgoing_rewire (G : list nref) (N : nref) :
  rewire_outgoing G N = rewire to_node set_from_node push_outgoing G N.
Proof. done. Qed.

(** ** The loop over the members of a group *)

(** [l] is in the incoming (or outgoing) list of one of the nodes [M]. *)
Definition inb (sel : Node → list lref) (net : Network) (M : list nref)
    (l : lref) : bool :=
  bool_decide (Exists (λ r, l ∈ sel (node_of net r)) M).

Lemma inb_snoc sel net M r l :
  inb sel net (M ++ [r]) l = inb sel net M l || bool_decide (l ∈ sel (node_of net r)).
Proof.
  unfold inb. apply eq_true_iff_eq.
  rewrite orb_true_iff, !bool_decide_eq_true, Exists_app, Exists_cons, Exists_nil.
  tauto.
Qed.

Lemma inb_nil sel net l : inb sel net [] l = false.
Proof.
  unfold inb. apply bool_decide_eq_false_2. intros H. by apply Exists_nil in H.
Qed.

Lemma inb_true sel net M l :
  inb sel net M l = true ↔ ∃ r, r ∈ M ∧ l ∈ sel (node_of net r).
Proof. unfold inb. by rewrite bool_decide_eq_true, Exists_exists. Qed.

(** A link once the members whose lists hold it have been processed:
    [i] ([o]) tells whether it was met in an incoming (outgoing) list. *)
Definition rewire_link (G : list nref) (N : nref) (i o : bool) (lk : Link)
    : Link :=
  {| link_id := link_id lk;
     from_node := if o && negb (bool_decide (to_node lk ∈ G)) then N
                  else from_node lk;
     to_node := if i && negb (bool_decide (from_node lk ∈ G)) then N
                else to_node lk;
     link_length := link_length lk |}.

(** The contribution of one member to the accumulators. *)
Definition add_member (net : Network) (s : Sums) (r : nref) : option Sums :=
  g ← geometry (node_of net r);
  gxy ← geometry_xy (node_of net r);
  Some {| osm_node_id_list := osm_node_id_list s ++ [osm_node_id (node_of net r)];
          x_coord_sum := x_coord_sum s + geom_x g;
          y_coord_sum := y_coord_sum s + geom_y g;
          x_coord_xy_sum := x_coord_xy_sum s + geom_x gxy;
          y_coord_xy_sum := y_coord_xy_sum s + geom_y gxy |}%float.

Lemma node_of_frame (N : nref) (c c' : Consolidation) (r : nref) :
  nodes_frame N c c' → r ≠ N → node_of (cnet c') r = node_of (cnet c) r.
Proof.
  intros [H _] Hr. unfold node_of. by rewrite !lookup_total_alt, H.
Qed.

Lemma link_of_fmap (net net' : Network) (f : Link → Link) (l : lref) :
  links net' !! l = f <$> links net !! l →
  link_of net' l = match links net !! l with
                   | Some _ => f (link_of net l)
                   | None => link_of net l
                   end.
Proof.
  intros H. unfold link_of. rewrite !lookup_total_alt, H.
  by destruct (links net !! l).
Qed.

Section Members.
Variables (G : list nref) (N : nref) (cS : Consolidation).
Hypothesis N_fresh : N ∉ G.
Hypothesis adj_in : ∀ r l,
  r ∈ G → l ∈ incoming_link_list (node_of (cnet cS) r) →
  to_node (link_of (cnet cS) l) = r.
Hypothesis adj_out : ∀ r l,
  r ∈ G → l ∈ outgoing_link_list (node_of (cnet cS) r) →
  from_node (link_of (cnet cS) l) = r.

(** The state of the loop once the members [M] have been processed. *)
Record members_done (M : list nref) (c : Consolidation) : Prop := {
  md_links : ∀ l,
    links (cnet c) !! l =
      rewire_link G N (inb incoming_link_list (cnet cS) M l)
                      (inb outgoing_link_list (cnet cS) M l)
        <$> links (cnet cS) !! l;
  md_marks : ∀ l,
    l ∈ removal_link_set c ↔
      l ∈ removal_link_set cS
      ∨ (inb incoming_link_list (cnet cS) M l = true
         ∧ from_node (link_of (cnet cS) l) ∈ G)
      ∨ (inb outgoing_link_list (cnet cS) M l = true
         ∧ to_node (link_of (cnet cS) l) ∈ G);
  md_nodes : nodes_frame N cS c;
  md_registry : same_registry cS c;
  md_removal : removal_node_set c = list_to_set M ∪ removal_node_set cS
}.

Lemma members_done_nil : members_done [] cS.
Proof.
  split.
  - intros l. rewrite !inb_nil.
    unfold rewire_link; simpl. destruct (links (cnet cS) !! l) as [[]|]; done.
  - intros l. rewrite !inb_nil. naive_solver.
  - apply nodes_frame_refl.
  - apply same_registry_refl.
  - simpl. by rewrite union_empty_l_L.
Qed.

Lemma member_step_spec (M : list nref) (c : Consolidation) (s s' : Sums)
    (r : nref) :
  r ∈ G → members_done M c → add_member (cnet cS) s r = Some s' →
  ∃ c', member_step G N (c, s) r = Some (c', s')
        ∧ members_done (M ++ [r]) c'.
Proof.
  intros Hr [Hlinks Hmarks Hnodes Hreg Hrm] Hs.
  assert (HrN : r ≠ N) by (intros ->; done).
  unfold member_step. cbn [fst snd].
  set (c0 := mark_node r c).
  assert (Hnodes0 : nodes_frame N cS c0) by done.
  rewrite (node_of_frame N cS c0 r Hnodes0 HrN).
  unfold add_member in Hs.
  destruct (geometry (node_of (cnet cS) r)) as [g|]; [|done].
  destruct (geometry_xy (node_of (cnet cS) r)) as [gxy|]; [|done].
  simpl in Hs. injection Hs as <-. simpl.
  rewrite rewire_incoming_rewire, rewire_outgoing_rewire.
  set (lsin := incoming_link_list (node_of (cnet cS) r)).
  set (c1 := foldl (rewire from_node set_to_node push_incoming G N) c0 lsin).
  assert (Hnodes1 : nodes_frame N cS c1).
  { eapply nodes_frame_trans; [exact Hnodes0|].
    by apply rewire_loop_nodes. }
  rewrite (node_of_frame N cS c1 r Hnodes1 HrN).
  set (lsout := outgoing_link_list (node_of (cnet cS) r)).
  set (c2 := foldl (rewire to_node set_from_node push_outgoing G N) c1 lsout).
  assert (Hnodes2 : nodes_frame N cS c2).
  { eapply nodes_frame_trans; [exact Hnodes1|].
    by apply rewire_loop_nodes. }
  eexists. split; [done|].
  (* the link seen from the state before this member *)
  assert (Hfrom0 : ∀ l, l ∈ lsin →
    from_node (link_of (cnet c0) l) = from_node (link_of (cnet cS) l)).
  { intros l Hl. change (cnet c0) with (cnet c).
    rewrite (link_of_fmap _ _ _ _ (Hlinks l)).
    destruct (links (cnet cS) !! l); [|done]. simpl.
    rewrite (adj_in r l Hr Hl), (bool_decide_eq_true_2 _ Hr).
    by rewrite andb_false_r. }
  assert (Hlinks1 : ∀ l, links (cnet c1) !! l =
    rewire_link G N (inb incoming_link_list (cnet cS) (M ++ [r]) l)
                    (inb outgoing_link_list (cnet cS) M l)
      <$> links (cnet cS) !! l).
  { intros l. unfold c1.
    rewrite rewire_loop_links by done.
    change (links (cnet c0)) with (links (cnet c)). rewrite Hlinks, inb_snoc.
    fold lsin. destruct (decide (l ∈ lsin)) as [Hl|Hl].
    - rewrite (Hfrom0 l Hl), (bool_decide_eq_true_2 _ Hl), orb_true_r.
      destruct (links (cnet cS) !! l) as [lk|] eqn:Hlk;
        [|by case_decide].
      assert (link_of (cnet cS) l = lk) as ->
        by (by apply lookup_total_correct).
      pose proof (adj_in r l Hr Hl) as Hto.
      assert (link_of (cnet cS) l = lk) as Hlk'
        by (by apply lookup_total_correct).
      rewrite Hlk' in Hto.
      unfold rewire_link, set_to_node; simpl.
      rewrite Hto, (bool_decide_eq_true_2 _ Hr), andb_false_r.
      case_decide as Hc; simpl.
      + destruct Hc as [_ Hc]. by rewrite (bool_decide_eq_false_2 _ Hc).
      + assert (from_node lk ∈ G) as HfG.
        { destruct (decide (from_node lk ∈ G)); [done|]. tauto. }
        by rewrite (bool_decide_eq_true_2 _ HfG), !andb_false_r.
    - rewrite (bool_decide_eq_false_2 _ Hl), orb_false_r.
      rewrite decide_False by tauto. done. }
  assert (Hto1 : ∀ l, l ∈ lsout →
    to_node (link_of (cnet c1) l) = to_node (link_of (cnet cS) l)).
  { intros l Hl. rewrite (link_of_fmap _ _ _ _ (Hlinks1 l)).
    destruct (links (cnet cS) !! l); [|done]. simpl.
    rewrite (adj_out r l Hr Hl), (bool_decide_eq_true_2 _ Hr).
    by rewrite andb_false_r. }
  split.
  - intros l. simpl. fold c0 c1 c2. unfold c2.
    rewrite rewire_loop_links by done.
    rewrite Hlinks1, inb_snoc.
    fold lsout. rewrite (inb_snoc outgoing_link_list). fold lsout.
    destruct (decide (l ∈ lsout)) as [Hl|Hl].
    + rewrite (Hto1 l Hl), (bool_decide_eq_true_2 _ Hl), orb_true_r.
      destruct (links (cnet cS) !! l) as [lk|] eqn:Hlk;
        [|by case_decide].
      assert (link_of (cnet cS) l = lk) as Hlk'
        by (by apply lookup_total_correct).
      pose proof (adj_out r l Hr Hl) as Hfrom. rewrite Hlk' in *.
      unfold rewire_link, set_from_node; simpl.
      rewrite Hfrom, (bool_decide_eq_true_2 _ Hr), !andb_false_r.
      case_decide as Hc; simpl.
      * destruct Hc as [_ Hc]. by rewrite (bool_decide_eq_false_2 _ Hc).
      * assert (to_node lk ∈ G) as HtG.
        { destruct (decide (to_node lk ∈ G)); [done|]. tauto. }
        by rewrite (bool_decide_eq_true_2 _ HtG), !andb_false_r.
    + rewrite (bool_decide_eq_false_2 _ Hl), orb_false_r.
      rewrite decide_False by tauto. done.
  - intros l. simpl. fold c0 c1 c2. unfold c2.
    rewrite rewire_loop_marks by done. unfold c1.
    rewrite rewire_loop_marks by done. fold c1.
    change (removal_link_set c0) with (removal_link_set c).
    rewrite Hmarks, !inb_snoc, !orb_true_iff, !bool_decide_eq_true.
    fold lsin lsout. split.
    + intros [[H|[Hl H]]|[Hl H]].
      * tauto.
      * rewrite (Hfrom0 l Hl) in H. tauto.
      * rewrite (Hto1 l Hl) in H. tauto.
    + intros [H|[[[H|Hl] H']|[[H|Hl] H']]]; try tauto.
      * left. right. by rewrite (Hfrom0 l Hl).
      * right. by rewrite (Hto1 l Hl).
  - eapply nodes_frame_trans; [exact Hnodes2|].
    by apply nodes_frame_alter.
  - eapply same_registry_trans; [exact Hreg|].
    eapply same_registry_trans; [|apply rewire_loop_registry].
    eapply same_registry_trans; [|apply rewire_loop_registry].
    by repeat split.
  - simpl. fold c0 c1 c2. unfold c2, c1.
    rewrite !rewire_loop_removal_nodes. simpl. rewrite Hrm.
    rewrite list_to_set_app_L. simpl. set_solver.
Qed.

Lemma member_loop_spec (R M : list nref) (c : Consolidation) (s s' : Sums) :
  (∀ r, r ∈ R → r ∈ G) → members_done M c →
  fold_opt (add_member (cnet cS)) s R = Some s' →
  ∃ c', fold_opt (member_step G N) (c, s) R = Some (c', s')
        ∧ members_done (M ++ R) c'.
Proof.
  revert M c s. induction R as [|r R IH]; intros M c s HR HM Hs.
  - simpl in *. injection Hs as <-. exists c. by rewrite app_nil_r.
  - simpl in Hs. destruct (add_member (cnet cS) s r) as [s1|] eqn:Hs1; [|done].
    simpl in Hs.
    destruct (member_step_spec M c s s1 r) as (c1 & Hc1 & HM1);
      [apply HR, list_elem_of_here|done|done|].
    destruct (IH (M ++ [r]) c1 s1) as (c' & Hc' & HM'); [|done|done|].
    { intros r' Hr'. by apply HR, list_elem_of_further. }
    exists c'. cbn [fold_opt]. rewrite Hc1. simpl.
    by rewrite <- app_assoc in HM'.
Qed.
End Members.

(** ** Registries of well-formed networks *)

Lemma values_elem {K V : Type} (d : list (K * V)) (v : V) :
  v ∈ OrderedDict.values d ↔ ∃ k, (k, v) ∈ d.
Proof.
  unfold OrderedDict.values. rewrite list_elem_of_fmap. split.
  - intros ([k v'] & -> & H). by exists k.
  - intros [k H]. by exists (k, v).
Qed.

Lemma keys_elem {K V : Type} (d : list (K * V)) (k : K) :
  k ∈ OrderedDict.keys d ↔ ∃ v, (k, v) ∈ d.
Proof.
  unfold OrderedDict.keys. rewrite list_elem_of_fmap. split.
  - intros ([k' v] & -> & H). by exists v.
  - intros [v H]. by exists (k, v).
Qed.

(** A dictionary keyed by an attribute of its values holds each value
    once. *)
Lemma values_NoDup {K V : Type} (key : V → K) (d : list (K * V)) :
  NoDup (OrderedDict.keys d) → (∀ k v, (k, v) ∈ d → key v = k) →
  NoDup (OrderedDict.values d).
Proof.
  unfold OrderedDict.keys, OrderedDict.values.
  induction d as [|[k v] d IH]; intros Hnd Hkey; [constructor|].
  rewrite fmap_cons in *. apply NoDup_cons in Hnd as [Hk Hnd].
  apply NoDup_cons. split.
  - intros Hv. apply Hk. simpl in *.
    apply list_elem_of_fmap in Hv as ([k' v'] & Hv & Hin). simpl in Hv. subst v'.
    apply list_elem_of_fmap. exists (k', v). split; [|done]. simpl.
    rewrite <- (Hkey k v (list_elem_of_here _ _)).
    by apply Hkey, list_elem_of_further.
  - apply IH; [done|]. intros k' v' H. by apply Hkey, list_elem_of_further.
Qed.

Lemma wf_node_registered (net : Network) (k : Z) (r : nref) :
  wf_network net → (k, r) ∈ node_dict net →
  nodes net !! r = Some (node_of net r) ∧ node_id (node_of net r) = k.
Proof.
  intros Hwf Hin. destruct (wf_node_ids net Hwf k r Hin) as (n & Hn & Hk).
  by rewrite (node_of_lookup net r n Hn).
Qed.

Lemma wf_link_registered (net : Network) (k : Z) (l : lref) :
  wf_network net → (k, l) ∈ link_dict net →
  links net !! l = Some (link_of net l) ∧ link_id (link_of net l) = k.
Proof.
  intros Hwf Hin. destruct (wf_link_ids net Hwf k l Hin) as (lk & Hlk & Hk).
  unfold link_of. by rewrite (lookup_total_correct _ _ _ Hlk).
Qed.

Lemma group_of_elem (net : Network) (m : Z) (r : nref) :
  r ∈ group_of net m ↔
    r ∈ OrderedDict.values (node_dict net)
    ∧ main_node_id (node_of net r) = Some m.
Proof. unfold group_of. rewrite list_elem_of_filter. tauto. Qed.

Lemma group_of_disjoint (net : Network) (m m' : Z) (r : nref) :
  r ∈ group_of net m → r ∈ group_of net m' → m = m'.
Proof. rewrite !group_of_elem. intros [_ H] [_ H']. congruence. Qed.

(** ** Groups already consolidated *)

(** A consolidated group: its identifier, its members and the node that
    replaces them. *)
Record Merged := mkMerged {
  mg_main : Z;
  mg_members : list nref;
  mg_new : nref
}.

(** The node a link endpoint is rewired to. *)
Fixpoint replacement (P : list Merged) (r : nref) : nref :=
  match P with
  | [] => r
  | p :: P' =>
      if bool_decide (r ∈ mg_members p) then mg_new p else replacement P' r
  end.

(** Both endpoints lie in one consolidated group. *)
Definition internal (P : list Merged) (lk : Link) : bool :=
  existsb (λ p, bool_decide (from_node lk ∈ mg_members p)
                && bool_decide (to_node lk ∈ mg_members p)) P.

(** A registered link after the consolidation of the groups [P]. *)
Definition consolidated_link (P : list Merged) (lk : Link) : Link :=
  if internal P lk then lk
  else {| link_id := link_id lk;
          from_node := replacement P (from_node lk);
          to_node := replacement P (to_node lk);
          link_length := link_length lk |}.

Definition merged_member (P : list Merged) (r : nref) : Prop :=
  Exists (λ p, r ∈ mg_members p) P.

Global Instance merged_member_dec (P : list Merged) (r : nref) :
  Decision (merged_member P r).
Proof. unfold merged_member. apply _. Defined.

Lemma merged_member_iff (P : list Merged) (r : nref) :
  merged_member P r ↔ ∃ p, p ∈ P ∧ r ∈ mg_members p.
Proof. unfold merged_member. apply Exists_exists. Qed.

Lemma replacement_not_member (P : list Merged) (r : nref) :
  ¬ merged_member P r → replacement P r = r.
Proof.
  unfold merged_member. induction P as [|p P IH]; intros H; simpl; [done|].
  rewrite Exists_cons in H. case_bool_decide; [tauto|]. apply IH. tauto.
Qed.

Lemma replacement_member (P : list Merged) (r : nref) :
  merged_member P r → ∃ p, p ∈ P ∧ r ∈ mg_members p ∧ replacement P r = mg_new p.
Proof.
  unfold merged_member. induction P as [|p P IH]; intros H; simpl.
  - by apply Exists_nil in H.
  - case_bool_decide as Hr.
    + exists p. split_and!; [apply list_elem_of_here|done..].
    + apply Exists_cons in H as [?|H]; [done|].
      destruct (IH H) as (q & Hq & Hrq & E).
      exists q. split_and!; [by apply list_elem_of_further|done..].
Qed.

Lemma replacement_snoc (P : list Merged) (p : Merged) (r : nref) :
  replacement (P ++ [p]) r =
    if decide (merged_member P r) then replacement P r
    else if decide (r ∈ mg_members p) then mg_new p else r.
Proof.
  unfold merged_member. induction P as [|q P IH].
  - cbn [app replacement].
    rewrite decide_False by (intros H; by apply Exists_nil in H).
    destruct (decide (r ∈ mg_members p)) as [H|H].
    + by rewrite (bool_decide_eq_true_2 _ H).
    + by rewrite (bool_decide_eq_false_2 _ H).
  - cbn [app replacement]. case_bool_decide as Hq.
    + rewrite decide_True; [done|]. by apply Exists_cons_hd.
    + rewrite IH.
      destruct (decide (Exists (λ p, r ∈ mg_members p) P)) as [H|H],
        (decide (Exists (λ p, r ∈ mg_members p) (q :: P))) as [H'|H'];
        try done.
      * exfalso. apply H'. by apply Exists_cons_tl.
      * exfalso. apply Exists_cons in H'. tauto.
Qed.

Lemma internal_snoc (P : list Merged) (p : Merged) (lk : Link) :
  internal (P ++ [p]) lk =
    internal P lk
    || (bool_decide (from_node lk ∈ mg_members p)
        && bool_decide (to_node lk ∈ mg_members p)).
Proof. unfold internal. rewrite existsb_app. simpl. by rewrite orb_false_r. Qed.

Lemma internal_true (P : list Merged) (lk : Link) :
  internal P lk = true ↔
    ∃ p, p ∈ P ∧ from_node lk ∈ mg_members p ∧ to_node lk ∈ mg_members p.
Proof.
  unfold internal. rewrite existsb_exists. split.
  - intros (p & Hp & H). apply andb_true_iff in H as [H1 H2].
    apply bool_decide_eq_true in H1, H2. exists p.
    split_and!; [by apply list_elem_of_In|done..].
  - intros (p & Hp & H1 & H2). exists p. split; [by apply list_elem_of_In|].
    by rewrite !bool_decide_eq_true_2.
Qed.

Lemma consolidated_link_nil (lk : Link) : consolidated_link [] lk = lk.
Proof. by destruct lk. Qed.

Lemma consolidated_link_id (P : list Merged) (lk : Link) :
  link_id (consolidated_link P lk) = link_id lk.
Proof. unfold consolidated_link. by destruct (internal P lk). Qed.

Lemma consolidated_link_from (P : list Merged) (lk : Link) :
  ¬ merged_member P (from_node lk) →
  from_node (consolidated_link P lk) = from_node lk.
Proof.
  intros H. unfold consolidated_link. destruct (internal P lk); [done|].
  simpl. by apply replacement_not_member.
Qed.

Lemma consolidated_link_to (P : list Merged) (lk : Link) :
  ¬ merged_member P (to_node lk) →
  to_node (consolidated_link P lk) = to_node lk.
Proof.
  intros H. unfold consolidated_link. destruct (internal P lk); [done|].
  simpl. by apply replacement_not_member.
Qed.

(** Rewiring a link for one more group, seen from the links alone. *)
Lemma consolidated_link_snoc (P : list Merged) (m : Z) (G : list nref)
    (N : nref) (lk : Link) :
  (∀ r, r ∈ G → ¬ merged_member P r) →
  (∀ p, p ∈ P → mg_new p ∉ G) →
  rewire_link G N (bool_decide (to_node lk ∈ G))
                  (bool_decide (from_node lk ∈ G)) (consolidated_link P lk)
  = consolidated_link (P ++ [mkMerged m G N]) lk.
Proof.
  intros Hdisj Hnew.
  assert (Hrepl : ∀ x, replacement P x ∈ G ↔ x ∈ G).
  { intros x. destruct (decide (merged_member P x)) as [Hx|Hx].
    - destruct (replacement_member P x Hx) as (p & Hp & _ & ->).
      split; [intros H; by apply Hnew in H|intros H; by apply Hdisj in H].
    - by rewrite replacement_not_member. }
  unfold consolidated_link. rewrite internal_snoc. cbn [mg_members].
  destruct (internal P lk) eqn:Hi.
  - apply internal_true in Hi as (p & Hp & Hf & Ht). cbn [orb].
    assert (from_node lk ∉ G) as Hf'.
    { intros H. apply (Hdisj _ H), merged_member_iff. eauto. }
    assert (to_node lk ∉ G) as Ht'.
    { intros H. apply (Hdisj _ H), merged_member_iff. eauto. }
    rewrite (bool_decide_eq_false_2 _ Hf'), (bool_decide_eq_false_2 _ Ht').
    by destruct lk.
  - cbn [orb]. unfold rewire_link. cbn [from_node to_node link_id link_length].
    rewrite !replacement_snoc. cbn [mg_members mg_new].
    rewrite (bool_decide_ext _ _ (Hrepl (from_node lk))).
    rewrite (bool_decide_ext _ _ (Hrepl (to_node lk))).
    destruct (decide (from_node lk ∈ G)) as [Hf|Hf],
      (decide (to_node lk ∈ G)) as [Ht|Ht].
    + rewrite !(bool_decide_eq_true_2 _ Hf), !(bool_decide_eq_true_2 _ Ht).
      cbn [andb negb].
      rewrite !replacement_not_member by auto. by destruct lk.
    + rewrite !(bool_decide_eq_true_2 _ Hf), !(bool_decide_eq_false_2 _ Ht).
      cbn [andb negb].
      rewrite (decide_False (P := merged_member P (from_node lk))) by auto.
      f_equal. destruct (decide (merged_member P (to_node lk))) as [H|H];
        [done|by apply replacement_not_member].
    + rewrite !(bool_decide_eq_false_2 _ Hf), !(bool_decide_eq_true_2 _ Ht).
      cbn [andb negb].
      rewrite (decide_False (P := merged_member P (to_node lk))) by auto.
      f_equal. destruct (decide (merged_member P (from_node lk))) as [H|H];
        [done|by apply replacement_not_member].
    + rewrite !(bool_decide_eq_false_2 _ Hf), !(bool_decide_eq_false_2 _ Ht).
      cbn [andb negb]. f_equal.
      * destruct (decide (merged_member P (from_node lk))) as [H|H];
          [done|by apply replacement_not_member].
      * destruct (decide (merged_member P (to_node lk))) as [H|H];
          [done|by apply replacement_not_member].
Qed.

(** ** Coordinates of a replacement node, as the specification words them *)

(** The mean of the points, each coordinate rounded once, after the sum and
    the division by the number of points [n]. *)
Definition mean_point (round : float → Z → float) (prec : Z) (n : float)
    (pts : list Point) : Point :=
  {| geom_x := round (sum_floats (geom_x <$> pts) / n)%float prec;
     geom_y := round (sum_floats (geom_y <$> pts) / n)%float prec |}.

Definition group_point (round : float → Z → float) (prec : Z)
    (sel : Node → option Point) (net : Network) (G : list nref)
    : option Point :=
  pts ← mapM (λ r, sel (node_of net r)) G;
  Some (mean_point round prec (float_of_len G) pts).

Lemma fold_opt_ext {A B : Type} (f g : A → B → option A) (l : list B) (a : A) :
  (∀ a b, b ∈ l → f a b = g a b) → fold_opt f a l = fold_opt g a l.
Proof.
  revert a. induction l as [|b l IH]; intros a H; simpl; [done|].
  rewrite (H a b (list_elem_of_here _ _)). destruct (g a b); simpl; [|done].
  apply IH. intros a' b' Hb'. by apply H, list_elem_of_further.
Qed.

Lemma add_members_spec (net : Network) (G : list nref) (s : Sums) :
  (∀ r, r ∈ G → is_Some (geometry (node_of net r))
                ∧ is_Some (geometry_xy (node_of net r))) →
  ∃ pts ptsxy,
    mapM (λ r, geometry (node_of net r)) G = Some pts
    ∧ mapM (λ r, geometry_xy (node_of net r)) G = Some ptsxy
    ∧ fold_opt (add_member net) s G =
        Some {| osm_node_id_list :=
                  osm_node_id_list s ++ ((λ r, osm_node_id (node_of net r)) <$> G);
                x_coord_sum := foldl PrimFloat.add (x_coord_sum s) (geom_x <$> pts);
                y_coord_sum := foldl PrimFloat.add (y_coord_sum s) (geom_y <$> pts);
                x_coord_xy_sum :=
                  foldl PrimFloat.add (x_coord_xy_sum s) (geom_x <$> ptsxy);
                y_coord_xy_sum :=
                  foldl PrimFloat.add (y_coord_xy_sum s) (geom_y <$> ptsxy) |}.
Proof.
  revert s. induction G as [|r G IH]; intros s HG.
  - exists [], []. split_and!; [done..|]. simpl. rewrite app_nil_r. by destruct s.
  - destruct (HG r (list_elem_of_here _ _)) as [[g Hg] [gxy Hgxy]].
    set (s1 := {| osm_node_id_list := osm_node_id_list s ++ [osm_node_id (node_of net r)];
          x_coord_sum := x_coord_sum s + geom_x g;
          y_coord_sum := y_coord_sum s + geom_y g;
          x_coord_xy_sum := x_coord_xy_sum s + geom_x gxy;
          y_coord_xy_sum := y_coord_xy_sum s + geom_y gxy |}%float).
    destruct (IH s1) as (pts & ptsxy & Hp & Hpxy & Hs).
    { intros r' Hr'. by apply HG, list_elem_of_further. }
    exists (g :: pts), (gxy :: ptsxy). split_and!.
    + cbn [mapM]. rewrite Hg, Hp. done.
    + cbn [mapM]. rewrite Hgxy, Hpxy. done.
    + assert (H1 : add_member net s r = Some s1).
      { unfold add_member. by rewrite Hg, Hgxy. }
      cbn [fold_opt]. rewrite H1. simpl. rewrite Hs. simpl.
      by rewrite <- app_assoc.
Qed.

Lemma join_underscore_Some (l : list (option string)) :
  Forall is_Some l → is_Some (join_underscore l).
Proof.
  induction 1 as [|o l [s ->] Hl IH]; [by eexists|].
  destruct l as [|o' l]; [by eexists|].
  destruct IH as [t Ht]. cbn [join_underscore] in *. rewrite Ht. by eexists.
Qed.

Lemma nodes_frame_dom (N : nref) (c c' : Consolidation) :
  nodes_frame N c c' → dom (nodes (cnet c')) = dom (nodes (cnet c)).
Proof.
  intros [H1 H2]. apply set_eq. intros r. rewrite !elem_of_dom.
  destruct (decide (r = N)) as [->|Hne]; [|by rewrite H1].
  destruct (nodes (cnet c') !! N), (nodes (cnet c) !! N); simplify_eq/=;
    split; intros [? ?]; done || eauto.
Qed.

(** ** The loop over the groups *)

Section Consolidate.
Variable round : float → Z → float.
Variables lonlat_coord_precision local_coord_precision : Z.
Variable net0 : Network.
Hypothesis Hwf : wf_network net0.

(** The state of the loop once the groups [P] have been consolidated. *)
Record groups_done (P : list Merged) (c : Consolidation) : Prop := {
  gd_old_nodes : ∀ r, r ∈ dom (nodes net0) →
    nodes (cnet c) !! r = nodes net0 !! r;
  gd_dom : dom (nodes (cnet c)) = dom (nodes net0) ∪ list_to_set (mg_new <$> P);
  gd_new_NoDup : NoDup (mg_new <$> P);
  gd_new_fresh : ∀ p, p ∈ P → mg_new p ∉ dom (nodes net0);
  gd_members : ∀ p, p ∈ P →
    mg_members p = group_of net0 (mg_main p) ∧ (2 ≤ length (mg_members p))%nat;
  gd_new_node : ∀ i p, P !! i = Some p →
    ∃ n, nodes (cnet c) !! mg_new p = Some n
         ∧ node_id n = max_node_id net0 + Z.of_nat i
         ∧ main_node_id n = Some (mg_main p)
         ∧ geometry n =
             group_point round lonlat_coord_precision geometry net0 (mg_members p)
         ∧ geometry_xy n =
             group_point round local_coord_precision geometry_xy net0
               (mg_members p);
  gd_links : ∀ k l, (k, l) ∈ link_dict net0 →
    links (cnet c) !! l = Some (consolidated_link P (link_of net0 l));
  gd_marks : ∀ l, l ∈ removal_link_set c ↔
    ∃ k, (k, l) ∈ link_dict net0 ∧ internal P (link_of net0 l) = true;
  gd_removal : ∀ r, r ∈ removal_node_set c ↔ merged_member P r;
  gd_node_keys : NoDup (OrderedDict.keys (node_dict (cnet c)));
  gd_node_get : ∀ k,
    OrderedDict.get k (node_dict (cnet c)) =
      if decide (max_node_id net0 ≤ k < max_node_id net0 + Z.of_nat (length P))
      then mg_new <$> P !! Z.to_nat (k - max_node_id net0)
      else OrderedDict.get k (node_dict net0);
  gd_max : max_node_id (cnet c) = max_node_id net0 + Z.of_nat (length P);
  gd_link_dict : link_dict (cnet c) = link_dict net0;
  gd_max_main : max_main_node_id (cnet c) = max_main_node_id net0
}.

Lemma groups_done_nil : groups_done [] (mkConsolidation net0 ∅ ∅).
Proof.
  split; simpl; try done.
  - by rewrite union_empty_r_L.
  - constructor.
  - intros p Hp. by apply elem_of_nil in Hp.
  - intros p Hp. by apply elem_of_nil in Hp.
  - intros k l Hin. rewrite consolidated_link_nil.
    by apply (wf_link_registered net0 k l).
  - intros l. split; [intros H; by apply elem_of_empty in H|].
    intros (k & _ & H). done.
  - intros r. split; [intros H; by apply elem_of_empty in H|].
    intros H. by apply Exists_nil in H.
  - by apply wf_node_keys.
  - intros k. rewrite decide_False; [done|lia].
  - lia.
Qed.

Lemma group_member_registered (m : Z) (r : nref) :
  r ∈ group_of net0 m →
  r ∈ OrderedDict.values (node_dict net0)
  ∧ nodes net0 !! r = Some (node_of net0 r)
  ∧ main_node_id (node_of net0 r) = Some m.
Proof.
  intros [Hreg Hm]%group_of_elem. split_and!; [done| |done].
  apply values_elem in Hreg as [k Hk]. by apply (wf_node_registered net0 k).
Qed.

(** The lists of the members of a group hold a registered link exactly
    when it ends (starts) in the group. *)
Lemma inb_incoming_group (net : Network) (m : Z) (k : Z) (l : lref) :
  (∀ r, r ∈ group_of net0 m → node_of net r = node_of net0 r) →
  (k, l) ∈ link_dict net0 →
  inb incoming_link_list net (group_of net0 m) l
  = bool_decide (to_node (link_of net0 l) ∈ group_of net0 m).
Proof.
  intros Hsame Hin. apply eq_true_iff_eq.
  rewrite inb_true, bool_decide_eq_true. split.
  - intros (r & Hr & Hl). rewrite (Hsame r Hr) in Hl.
    destruct (group_member_registered m r Hr) as (Hreg & _).
    destruct (wf_incoming net0 Hwf r l Hreg Hl) as [_ ->]. done.
  - intros Hr. exists (to_node (link_of net0 l)). split; [done|].
    rewrite (Hsame _ Hr). by apply (wf_endpoints net0 Hwf k l).
Qed.

Lemma inb_outgoing_group (net : Network) (m : Z) (k : Z) (l : lref) :
  (∀ r, r ∈ group_of net0 m → node_of net r = node_of net0 r) →
  (k, l) ∈ link_dict net0 →
  inb outgoing_link_list net (group_of net0 m) l
  = bool_decide (from_node (link_of net0 l) ∈ group_of net0 m).
Proof.
  intros Hsame Hin. apply eq_true_iff_eq.
  rewrite inb_true, bool_decide_eq_true. split.
  - intros (r & Hr & Hl). rewrite (Hsame r Hr) in Hl.
    destruct (group_member_registered m r Hr) as (Hreg & _).
    destruct (wf_outgoing net0 Hwf r l Hreg Hl) as [_ ->]. done.
  - intros Hr. exists (from_node (link_of net0 l)). split; [done|].
    rewrite (Hsame _ Hr). by apply (wf_endpoints net0 Hwf k l).
Qed.

Lemma consolidated_from_in (P : list Merged) (G : list nref) (lk : Link) :
  (∀ r, r ∈ G → ¬ merged_member P r) →
  (∀ p, p ∈ P → mg_new p ∉ G) →
  from_node (consolidated_link P lk) ∈ G ↔ from_node lk ∈ G.
Proof.
  intros Hdisj Hnew. unfold consolidated_link.
  destruct (internal P lk); [done|]. simpl.
  destruct (decide (merged_member P (from_node lk))) as [Hx|Hx].
  - destruct (replacement_member P _ Hx) as (p & Hp & _ & ->).
    split; [intros H; by apply Hnew in H|intros H; by apply Hdisj in H].
  - by rewrite replacement_not_member.
Qed.

Lemma consolidated_to_in (P : list Merged) (G : list nref) (lk : Link) :
  (∀ r, r ∈ G → ¬ merged_member P r) →
  (∀ p, p ∈ P → mg_new p ∉ G) →
  to_node (consolidated_link P lk) ∈ G ↔ to_node lk ∈ G.
Proof.
  intros Hdisj Hnew. unfold consolidated_link.
  destruct (internal P lk); [done|]. simpl.
  destruct (decide (merged_member P (to_node lk))) as [Hx|Hx].
  - destruct (replacement_member P _ Hx) as (p & Hp & _ & ->).
    split; [intros H; by apply Hnew in H|intros H; by apply Hdisj in H].
  - by rewrite replacement_not_member.
Qed.

Lemma process_group_spec (ctrl : odict Z bool) (P : list Merged)
    (c : Consolidation) (m : Z) :
  groups_done P c →
  (2 ≤ length (group_of net0 m))%nat →
  (∀ p, p ∈ P → mg_main p ≠ m) →
  is_Some (OrderedDict.get m ctrl) →
  ∃ c',
    process_group round lonlat_coord_precision local_coord_precision ctrl c
      (m, group_of net0 m) = Some c'
    ∧ groups_done
        (P ++ [mkMerged m (group_of net0 m) (fresh (dom (nodes (cnet c))))]) c'.
Proof.
  intros Hgd Hlen Hmain [signal Hsig].
  set (G := group_of net0 m) in *. set (N := fresh (dom (nodes (cnet c)))).
  assert (HN : N ∉ dom (nodes (cnet c))) by apply is_fresh.
  assert (HN0 : N ∉ dom (nodes net0)).
  { rewrite (gd_dom _ _ Hgd) in HN. set_solver. }
  assert (HNnew : ∀ p, p ∈ P → mg_new p ≠ N).
  { intros p Hp E. apply HN. rewrite (gd_dom _ _ Hgd).
    apply elem_of_union_r, elem_of_list_to_set, list_elem_of_fmap. eauto. }
  assert (HGdom : ∀ r, r ∈ G → r ∈ dom (nodes net0)).
  { intros r Hr. destruct (group_member_registered m r Hr) as (_ & H & _).
    apply elem_of_dom. eauto. }
  assert (HNG : N ∉ G) by (intros H; by apply HGdom in H).
  assert (Hdisj : ∀ r, r ∈ G → ¬ merged_member P r).
  { intros r Hr (p & Hp & Hrp)%merged_member_iff.
    destruct (gd_members _ _ Hgd p Hp) as [E _]. rewrite E in Hrp.
    apply (Hmain p Hp). by eapply group_of_disjoint. }
  assert (HnewG : ∀ p, p ∈ P → mg_new p ∉ G).
  { intros p Hp H. apply HGdom in H. by apply (gd_new_fresh _ _ Hgd p). }
  unfold process_group. cbn [fst snd]. fold G N.
  rewrite bool_decide_eq_false_2 by lia. rewrite Hsig. cbn [mbind option_bind].
  set (n1 := if signal
             then set_ctrl_type (Some "signal"%string)
                    (set_main_node_id (Some m) (Node_init (max_node_id (cnet c))))
             else set_main_node_id (Some m) (Node_init (max_node_id (cnet c)))).
  set (cS := upd_cnet (upd_nodes (insert N n1)) c).
  assert (Hn1 : node_id n1 = max_node_id (cnet c)
                ∧ main_node_id n1 = Some m).
  { unfold n1. by destruct signal. }
  assert (HcS_old : ∀ r, r ∈ dom (nodes net0) →
            nodes (cnet cS) !! r = nodes net0 !! r).
  { intros r Hr. simpl. rewrite lookup_insert_ne by (intros ->; done).
    by apply (gd_old_nodes _ _ Hgd). }
  assert (HcS_node : ∀ r, r ∈ G → node_of (cnet cS) r = node_of net0 r).
  { intros r Hr. unfold node_of. rewrite !lookup_total_alt.
    by rewrite HcS_old by auto. }
  assert (HcS_link : ∀ k l, (k, l) ∈ link_dict net0 →
            link_of (cnet cS) l = consolidated_link P (link_of net0 l)).
  { intros k l Hin. unfold link_of at 1. simpl.
    by rewrite (lookup_total_correct _ _ _ (gd_links _ _ Hgd k l Hin)). }
  assert (adj_in : ∀ r l, r ∈ G →
            l ∈ incoming_link_list (node_of (cnet cS) r) →
            to_node (link_of (cnet cS) l) = r).
  { intros r l Hr Hl. rewrite (HcS_node r Hr) in Hl.
    destruct (group_member_registered m r Hr) as (Hreg & _).
    destruct (wf_incoming net0 Hwf r l Hreg Hl) as [[k Hk]%values_elem Hto].
    rewrite (HcS_link k l Hk), consolidated_link_to; rewrite Hto; auto. }
  assert (adj_out : ∀ r l, r ∈ G →
            l ∈ outgoing_link_list (node_of (cnet cS) r) →
            from_node (link_of (cnet cS) l) = r).
  { intros r l Hr Hl. rewrite (HcS_node r Hr) in Hl.
    destruct (group_member_registered m r Hr) as (Hreg & _).
    destruct (wf_outgoing net0 Hwf r l Hreg Hl) as [[k Hk]%values_elem Hfrom].
    rewrite (HcS_link k l Hk), consolidated_link_from; rewrite Hfrom; auto. }
  destruct (add_members_spec net0 G Sums_init)
    as (pts & ptsxy & Hpts & Hptsxy & Hsums).
  { intros r Hr. destruct (group_member_registered m r Hr) as (Hreg & _).
    destruct (wf_attributes net0 Hwf r Hreg) as (? & ? & _). done. }
  assert (Hsums' : fold_opt (add_member (cnet cS)) Sums_init G
                   = fold_opt (add_member net0) Sums_init G).
  { apply fold_opt_ext. intros a r Hr. unfold add_member.
    by rewrite (HcS_node r Hr). }
  rewrite <- Hsums' in Hsums.
  edestruct (member_loop_spec G N cS HNG adj_in adj_out G [] cS Sums_init)
    as (c1 & Hfold & Hmd); [done|apply members_done_nil|exact Hsums|].
  rewrite Hfold. cbn [mbind option_bind fst snd osm_node_id_list
    x_coord_sum y_coord_sum x_coord_xy_sum y_coord_xy_sum].
  destruct (join_underscore_Some
              (osm_node_id_list Sums_init
               ++ ((λ r, osm_node_id (node_of net0 r)) <$> G))) as [osm Hosm].
  { apply Forall_app. split; [constructor|]. apply Forall_fmap, Forall_forall.
    intros r Hr. destruct (group_member_registered m r Hr) as (Hreg & _).
    by destruct (wf_attributes net0 Hwf r Hreg) as (_ & _ & ?). }
  rewrite Hosm. cbn [mbind option_bind].
  eexists. split; [reflexivity|].
  cbn [app] in Hmd.
  destruct Hmd as [Hlinks Hmarks Hnodes Hreg Hrm].
  assert (HN1 : ∃ nN, nodes (cnet c1) !! N = Some nN
                      ∧ node_core nN = node_core n1).
  { destruct Hnodes as [_ Hcore]. simpl in Hcore.
    rewrite lookup_insert_eq in Hcore.
    destruct (nodes (cnet c1) !! N) as [nN|]; [|done].
    exists nN. split; [done|]. simpl in Hcore. congruence. }
  destruct HN1 as (nN & HnN & HcoreN).
  assert (HidN : node_id nN = max_node_id net0 + Z.of_nat (length P)
                 ∧ main_node_id nN = Some m).
  { destruct Hn1 as [E1 E2]. unfold node_core in HcoreN.
    rewrite (gd_max _ _ Hgd) in E1. split; congruence. }
  set (p := mkMerged m G N).
  split.
  - (* old nodes *)
    intros r Hr. simpl. rewrite lookup_alter_ne by (intros ->; done).
    destruct Hnodes as [Hn _]. rewrite Hn by (intros ->; done).
    by apply HcS_old.
  - (* allocated nodes *)
    simpl. rewrite dom_alter_L, (nodes_frame_dom N cS c1 Hnodes). simpl.
    rewrite dom_insert_L, (gd_dom _ _ Hgd), fmap_app, list_to_set_app_L.
    simpl. set_solver.
  - rewrite fmap_app. apply NoDup_app. split_and!.
    + by apply (gd_new_NoDup _ _ Hgd).
    + intros x Hx Hx'. apply list_elem_of_singleton in Hx'. subst x.
      apply list_elem_of_fmap in Hx as (q & Hq & Hin). simpl in Hq.
      by apply (HNnew q).
    + apply NoDup_singleton.
  - intros q [Hq|Hq]%elem_of_app.
    + by apply (gd_new_fresh _ _ Hgd).
    + apply list_elem_of_singleton in Hq. by subst q.
  - intros q [Hq|Hq]%elem_of_app.
    + by apply (gd_members _ _ Hgd).
    + apply list_elem_of_singleton in Hq. by subst q.
  - (* the replacement nodes *)
    intros i q Hq. apply lookup_app_Some in Hq as [Hq|[Hi Hq]].
    + destruct (gd_new_node _ _ Hgd i q Hq) as (n & Hn & Hrest).
      exists n. split; [|done]. simpl.
      assert (mg_new q ≠ N) as Hne.
      { apply HNnew. by eapply list_elem_of_lookup_2. }
      rewrite lookup_alter_ne by done.
      destruct Hnodes as [Hn' _]. rewrite Hn' by done. simpl.
      by rewrite lookup_insert_ne.
    + apply list_lookup_singleton_Some in Hq as [Hi0 <-].
      eexists. split; [simpl; by rewrite lookup_alter_eq, HnN|].
      destruct HidN as [E1 E2]. simpl. split_and!.
      * rewrite E1. lia.
      * done.
      * unfold group_point. by rewrite Hpts.
      * unfold group_point. by rewrite Hptsxy.
  - (* the links *)
    intros k l Hin. simpl. rewrite Hlinks.
    change (links (cnet cS)) with (links (cnet c)).
    rewrite (gd_links _ _ Hgd k l Hin). cbn [fmap option_fmap option_map].
    f_equal.
    pose proof (inb_incoming_group (cnet cS) m k l HcS_node Hin) as Ei.
    pose proof (inb_outgoing_group (cnet cS) m k l HcS_node Hin) as Eo.
    fold G in Ei, Eo. rewrite Ei, Eo.
    by apply consolidated_link_snoc.
  - (* the links to remove *)
    intros l. simpl. rewrite Hmarks.
    change (removal_link_set cS) with (removal_link_set c).
    rewrite (gd_marks _ _ Hgd). split.
    + intros [(k & Hin & Hint)|[[Hi Hf]|[Ho Ht]]].
      * exists k. split; [done|]. by rewrite internal_snoc, Hint.
      * apply inb_true in Hi as (r & Hr & Hl). rewrite (HcS_node r Hr) in Hl.
        destruct (group_member_registered m r Hr) as (Hreg' & _).
        destruct (wf_incoming net0 Hwf r l Hreg' Hl) as [[k Hk]%values_elem Hto].
        exists k. split; [done|]. rewrite internal_snoc. simpl.
        rewrite (HcS_link k l Hk) in Hf.
        apply consolidated_from_in in Hf; [|done..].
        rewrite (bool_decide_eq_true_2 _ Hf), Hto, (bool_decide_eq_true_2 _ Hr).
        apply orb_true_r.
      * apply inb_true in Ho as (r & Hr & Hl). rewrite (HcS_node r Hr) in Hl.
        destruct (group_member_registered m r Hr) as (Hreg' & _).
        destruct (wf_outgoing net0 Hwf r l Hreg' Hl) as [[k Hk]%values_elem Hfrom].
        exists k. split; [done|]. rewrite internal_snoc. simpl.
        rewrite (HcS_link k l Hk) in Ht.
        apply consolidated_to_in in Ht; [|done..].
        rewrite (bool_decide_eq_true_2 _ Ht), Hfrom, (bool_decide_eq_true_2 _ Hr).
        apply orb_true_r.
    + intros (k & Hin & Hint). rewrite internal_snoc in Hint.
      apply orb_true_iff in Hint as [Hint|Hint]; [left; eauto|].
      simpl in Hint. apply andb_true_iff in Hint as [Hf Ht].
      apply bool_decide_eq_true in Hf, Ht.
      right. left. split.
      * pose proof (inb_incoming_group (cnet cS) m k l HcS_node Hin) as Ei.
        fold G in Ei. rewrite Ei. by apply bool_decide_eq_true_2.
      * rewrite (HcS_link k l Hin). by apply consolidated_from_in.
  - (* the nodes to remove *)
    intros r. simpl. rewrite Hrm.
    change (removal_node_set cS) with (removal_node_set c).
    rewrite elem_of_union, elem_of_list_to_set, (gd_removal _ _ Hgd).
    unfold merged_member. rewrite Exists_app, Exists_cons, Exists_nil. simpl.
    tauto.
  - simpl. apply od_set_NoDup. destruct Hreg as (E & _). rewrite E. simpl.
    by apply (gd_node_keys _ _ Hgd).
  - (* the node collection *)
    intros k. cbn [cnet upd_cnet node_dict]. rewrite od_get_set.
    match goal with |- context [node_id (node_of ?x N)] =>
      assert (Hid : node_id (node_of x N)
                    = max_node_id net0 + Z.of_nat (length P))
    end.
    { unfold node_of. cbn [nodes upd_nodes].
      rewrite lookup_total_alter_eq, HnN. simpl. by destruct HidN. }
    rewrite Hid. cbn [upd_nodes node_dict].
    destruct Hreg as (E & _). rewrite E. simpl.
    rewrite (gd_node_get _ _ Hgd).
    rewrite length_app. simpl.
    destruct (decide (k = max_node_id net0 + Z.of_nat (length P))) as [->|Hk].
    + rewrite decide_True by lia.
      replace (Z.to_nat (max_node_id net0 + Z.of_nat (length P) - max_node_id net0))
        with (length P + 0)%nat by lia.
      rewrite lookup_app_r by lia.
      by replace (length P + 0 - length P)%nat with 0%nat by lia.
    + destruct (decide (max_node_id net0 ≤ k
                        < max_node_id net0 + Z.of_nat (length P))) as [Hr|Hr].
      * rewrite decide_True by lia. by rewrite lookup_app_l by lia.
      * rewrite decide_False by lia. done.
  - simpl. destruct Hreg as (_ & _ & E & _). rewrite E. simpl.
    rewrite (gd_max _ _ Hgd), length_app. simpl. lia.
  - simpl. destruct Hreg as (_ & E & _). rewrite E. simpl.
    by apply (gd_link_dict _ _ Hgd).
  - simpl. destruct Hreg as (_ & _ & _ & E). rewrite E. simpl.
    by apply (gd_max_main _ _ Hgd).
Qed.

Lemma process_group_short (ctrl : odict Z bool) (c : Consolidation)
    (m : Z) (g : list nref) :
  (length g < 2)%nat →
  process_group round lonlat_coord_precision local_coord_precision ctrl c (m, g)
  = Some c.
Proof. intros H. unfold process_group. cbn [snd]. by rewrite bool_decide_eq_true_2. Qed.

Lemma process_groups_spec (ctrl : odict Z bool) (gl : list (Z * list nref))
    (P : list Merged) (c : Consolidation) :
  groups_done P c →
  NoDup gl.*1 →
  (∀ m g, (m, g) ∈ gl →
     g = group_of net0 m ∧ is_Some (OrderedDict.get m ctrl)
     ∧ ∀ p, p ∈ P → mg_main p ≠ m) →
  ∃ c' P',
    fold_opt (process_group round lonlat_coord_precision local_coord_precision
                ctrl) c gl = Some c'
    ∧ groups_done (P ++ P') c'
    ∧ (λ p, (mg_main p, mg_members p)) <$> P'
      = filter (λ item, (2 ≤ length item.2)%nat) gl.
Proof.
  revert P c. induction gl as [|[m g] gl IH]; intros P c Hgd Hnd Hgl.
  - exists c, []. rewrite app_nil_r. by split_and!.
  - rewrite fmap_cons in Hnd. apply NoDup_cons in Hnd as [Hm Hnd].
    destruct (Hgl m g (list_elem_of_here _ _)) as (-> & Hctrl & Hmain).
    cbn [fold_opt]. rewrite filter_cons. cbn [snd].
    destruct (decide (2 ≤ length (group_of net0 m))%nat) as [Hlen|Hlen].
    + destruct (process_group_spec ctrl P c m Hgd Hlen Hmain Hctrl)
        as (c1 & -> & Hgd1).
      cbn [mbind option_bind].
      destruct (IH _ c1 Hgd1 Hnd) as (c' & P' & Hc' & Hgd' & HP').
      { intros m' g' Hin.
        destruct (Hgl m' g' (list_elem_of_further _ _ _ Hin)) as (Hg' & Hc & Hp).
        split_and!; [done..|].
        intros p [Hp'|Hp']%elem_of_app; [by apply Hp|].
        apply list_elem_of_singleton in Hp'. subst p. simpl.
        intros ->. apply Hm. apply list_elem_of_fmap. by exists (m', g'). }
      exists c', (mkMerged m (group_of net0 m) (fresh (dom (nodes (cnet c)))) :: P').
      split_and!; [done| |].
      * by rewrite <- app_assoc in Hgd'.
      * rewrite fmap_cons. simpl. by rewrite HP'.
    + rewrite process_group_short by lia. cbn [mbind option_bind].
      destruct (IH P c Hgd Hnd) as (c' & P' & Hc' & Hgd' & HP').
      { intros m' g' Hin.
        apply (Hgl m' g'). by apply list_elem_of_further. }
      by exists c', P'.
Qed.

(** The merged-away nodes and the identifiers they are registered under. *)
Definition merged_nodes (P : list Merged) : list nref :=
  P ≫= mg_members.

Definition merged_ids (P : list Merged) : list Z :=
  (λ r, node_id (node_of net0 r)) <$> merged_nodes P.

Lemma merged_nodes_elem (P : list Merged) (r : nref) :
  r ∈ merged_nodes P ↔ merged_member P r.
Proof.
  unfold merged_nodes. rewrite list_elem_of_bind, merged_member_iff.
  naive_solver.
Qed.

(** The network once [consolidateComplexIntersections] has consolidated the
    groups [P], in the order in which it met them. *)
Record consolidated (P : list Merged) (net' : Network) : Prop := {
  co_groups : ∀ m, (2 ≤ length (group_of net0 m))%nat ↔
                   ∃ p, p ∈ P ∧ mg_main p = m;
  co_members : ∀ p, p ∈ P →
    mg_members p = group_of net0 (mg_main p) ∧ (2 ≤ length (mg_members p))%nat;
  co_order : (λ p, (mg_main p, mg_members p)) <$> P
             = filter (λ item, (2 ≤ length item.2)%nat) (group_nodes net0).1;
  co_main_NoDup : NoDup (mg_main <$> P);
  co_new_NoDup : NoDup (mg_new <$> P);
  co_new_fresh : ∀ p, p ∈ P → mg_new p ∉ dom (nodes net0);
  co_old_nodes : ∀ r, r ∈ dom (nodes net0) → nodes net' !! r = nodes net0 !! r;
  co_new_node : ∀ i p, P !! i = Some p →
    ∃ n, nodes net' !! mg_new p = Some n
         ∧ node_id n = max_node_id net0 + Z.of_nat i
         ∧ main_node_id n = Some (mg_main p)
         ∧ geometry n =
             group_point round lonlat_coord_precision geometry net0 (mg_members p)
         ∧ geometry_xy n =
             group_point round local_coord_precision geometry_xy net0
               (mg_members p);
  co_links : ∀ k l, (k, l) ∈ link_dict net0 →
    links net' !! l = Some (consolidated_link P (link_of net0 l));
  co_link_dict :
    link_dict net' =
      filter (λ item, internal P (link_of net0 item.2) = false) (link_dict net0);
  co_node_keys : NoDup (OrderedDict.keys (node_dict net'));
  co_node_get : ∀ k,
    OrderedDict.get k (node_dict net') =
      if decide (k ∈ merged_ids P) then None
      else if decide (max_node_id net0 ≤ k
                      < max_node_id net0 + Z.of_nat (length P))
      then mg_new <$> P !! Z.to_nat (k - max_node_id net0)
      else OrderedDict.get k (node_dict net0);
  co_max : max_node_id net' = max_node_id net0 + Z.of_nat (length P);
  co_max_main : max_main_node_id net' = max_main_node_id net0
}.

Lemma od_get_filter_keys {K V : Type} `{EqDecision K} (Q : K → Prop)
    `{!∀ k, Decision (Q k)} (d : list (K * V)) (k : K) :
  OrderedDict.get k (filter (λ kv, Q kv.1) d) =
    if decide (Q k) then OrderedDict.get k d else None.
Proof.
  induction d as [|[k1 v1] d IH].
  - simpl. by destruct (decide (Q k)).
  - rewrite filter_cons. cbn [fst].
    destruct (decide (Q k1)) as [H1|H1]; cbn [OrderedDict.get];
      destruct (decide (k = k1)) as [->|Hne]; rewrite ?IH; try done;
      destruct (decide (Q k1)); done.
Qed.

Lemma filter_ext_elem {A : Type} (P1 P2 : A → Prop)
    `{!∀ x, Decision (P1 x)} `{!∀ x, Decision (P2 x)} (l : list A) :
  (∀ x, x ∈ l → P1 x ↔ P2 x) → filter P1 l = filter P2 l.
Proof.
  induction l as [|x l IH]; intros Hl; [done|].
  rewrite !filter_cons.
  pose proof (Hl x (list_elem_of_here _ _)) as Hx.
  rewrite IH by (intros y Hy; by apply Hl, list_elem_of_further).
  destruct (decide (P1 x)), (decide (P2 x)); tauto || done.
Qed.

Lemma merged_member_registered (P : list Merged) (c : Consolidation) (r : nref) :
  groups_done P c → merged_member P r →
  ∃ k, (k, r) ∈ node_dict net0
       ∧ node_of (cnet c) r = node_of net0 r
       ∧ node_id (node_of net0 r) = k.
Proof.
  intros Hgd (p & Hp & Hr)%merged_member_iff.
  destruct (gd_members _ _ Hgd p Hp) as [E _]. rewrite E in Hr.
  destruct (group_member_registered _ r Hr) as ([k Hk]%values_elem & Hn & _).
  exists k. split_and!; [done| |by apply (wf_node_registered net0 k r)].
  unfold node_of. rewrite !lookup_total_alt.
  rewrite (gd_old_nodes _ _ Hgd); [done|]. apply elem_of_dom. eauto.
Qed.

Lemma marked_link_registered (P : list Merged) (c : Consolidation) (k : Z)
    (l : lref) :
  groups_done P c → (k, l) ∈ link_dict net0 →
  link_id (link_of (cnet c) l) = k.
Proof.
  intros Hgd Hin. unfold link_of.
  rewrite (lookup_total_correct _ _ _ (gd_links _ _ Hgd k l Hin)).
  rewrite consolidated_link_id. by apply (wf_link_registered net0 k l).
Qed.

(** The two deletion loops, and the network they leave. *)
Lemma deletion_spec (c : Consolidation) (P : list Merged) :
  groups_done P c →
  (λ p, (mg_main p, mg_members p)) <$> P
    = filter (λ item, (2 ≤ length item.2)%nat) (group_nodes net0).1 →
  delete_nodes (cnet c) (elements (removal_node_set c))
    = Some (filter (λ kv, kv.1 ∉ merged_ids P) (node_dict (cnet c)))
  ∧ delete_links (cnet c) (elements (removal_link_set c))
    = Some (filter (λ item, internal P (link_of net0 item.2) = false)
              (link_dict net0))
  ∧ consolidated P
      {| nodes := nodes (cnet c); links := links (cnet c);
         node_dict := filter (λ kv, kv.1 ∉ merged_ids P) (node_dict (cnet c));
         link_dict := filter (λ item, internal P (link_of net0 item.2) = false)
                        (link_dict net0);
         max_node_id := max_node_id (cnet c);
         max_main_node_id := max_main_node_id (cnet c) |}.
Proof.
  intros Hgd HP.
  destruct (group_nodes_spec net0) as (Hnd & Hgl & Hctrl).
  (* the deletion of the merged-away nodes *)
  assert (Hdel_nodes :
    delete_nodes (cnet c) (elements (removal_node_set c))
    = Some (filter (λ kv, kv.1 ∉ merged_ids P) (node_dict (cnet c)))).
  { unfold delete_nodes.
    trans (Some (filter
      (λ kv, kv.1 ∉ (λ r, node_id (node_of (cnet c) r))
                      <$> elements (removal_node_set c))
      (node_dict (cnet c)))); [apply (od_del_all (λ r, node_id (node_of (cnet c) r)))|].
    4:{ f_equal. apply filter_ext_elem. intros [k r] _. cbn [fst].
      unfold merged_ids. rewrite !list_elem_of_fmap.
      split; intros H (r' & Hk & Hr'); apply H.
      + apply merged_nodes_elem in Hr'.
        destruct (merged_member_registered P c r' Hgd Hr') as (k' & _ & E & _).
        exists r'. rewrite E. split; [done|].
        by apply elem_of_elements, (gd_removal _ _ Hgd).
      + apply elem_of_elements, (gd_removal _ _ Hgd) in Hr'.
        destruct (merged_member_registered P c r' Hgd Hr') as (k' & _ & E & _).
        exists r'. rewrite <- E. split; [done|]. by apply merged_nodes_elem. }
    - by apply (gd_node_keys _ _ Hgd).
    - apply NoDup_fmap_2_strong; [|apply NoDup_elements].
      intros x y Hx Hy Exy.
      apply elem_of_elements, (gd_removal _ _ Hgd) in Hx, Hy.
      destruct (merged_member_registered P c x Hgd Hx) as (kx & Hkx & Ex & Eidx).
      destruct (merged_member_registered P c y Hgd Hy) as (ky & Hky & Ey & Eidy).
      rewrite Ex, Ey, Eidx, Eidy in Exy. subst ky.
      apply (od_elem_get _ _ _ (wf_node_keys net0 Hwf)) in Hkx, Hky. congruence.
    - intros x Hx. apply elem_of_elements, (gd_removal _ _ Hgd) in Hx.
      destruct (merged_member_registered P c x Hgd Hx) as (kx & Hkx & Ex & Eidx).
      rewrite Ex, Eidx.
      destruct (decide (kx ∈ OrderedDict.keys (node_dict (cnet c))))
        as [|Hno]; [done|exfalso].
      apply od_get_None in Hno. rewrite (gd_node_get _ _ Hgd) in Hno.
      apply (od_elem_get _ _ _ (wf_node_keys net0 Hwf)) in Hkx.
      destruct (decide (max_node_id net0 ≤ kx
                        < max_node_id net0 + Z.of_nat (length P))) as [Hr|Hr];
        [|congruence].
      destruct (lookup_lt_is_Some_2 P (Z.to_nat (kx - max_node_id net0)))
        as [p Hp]; [lia|].
      by rewrite Hp in Hno. }
  (* the deletion of the internal links *)
  assert (Hdel_links :
    delete_links (cnet c) (elements (removal_link_set c))
    = Some (filter (λ item, internal P (link_of net0 item.2) = false)
              (link_dict net0))).
  { unfold delete_links. rewrite (gd_link_dict _ _ Hgd).
    trans (Some (filter
      (λ kv, kv.1 ∉ (λ l, link_id (link_of (cnet c) l))
                      <$> elements (removal_link_set c))
      (link_dict net0))); [apply (od_del_all (λ l, link_id (link_of (cnet c) l)))|].
    4:{ f_equal. apply filter_ext_elem. intros [k l] Hin. cbn [fst snd].
      rewrite list_elem_of_fmap. split.
      + intros H. apply not_true_is_false. intros Hint. apply H.
        exists l. split.
        * symmetry. by apply (marked_link_registered P).
        * apply elem_of_elements, (gd_marks _ _ Hgd). by exists k.
      + intros Hint (l' & Hk & Hl').
        apply elem_of_elements, (gd_marks _ _ Hgd) in Hl' as (k' & Hin' & Hint').
        rewrite (marked_link_registered P c k' l' Hgd Hin') in Hk. subst k'.
        apply (od_elem_get _ _ _ (wf_link_keys net0 Hwf)) in Hin, Hin'.
        congruence. }
    - by apply wf_link_keys.
    - apply NoDup_fmap_2_strong; [|apply NoDup_elements].
      intros x y Hx Hy Exy.
      apply elem_of_elements, (gd_marks _ _ Hgd) in Hx as (kx & Hkx & _).
      apply elem_of_elements, (gd_marks _ _ Hgd) in Hy as (ky & Hky & _).
      rewrite (marked_link_registered P c kx x Hgd Hkx) in Exy.
      rewrite (marked_link_registered P c ky y Hgd Hky) in Exy. subst ky.
      apply (od_elem_get _ _ _ (wf_link_keys net0 Hwf)) in Hkx, Hky. congruence.
    - intros x Hx.
      apply elem_of_elements, (gd_marks _ _ Hgd) in Hx as (kx & Hkx & _).
      rewrite (marked_link_registered P c kx x Hgd Hkx).
      apply keys_elem. by exists x. }
  split_and!; [done..|].
  split; cbn [nodes links node_dict link_dict max_node_id max_main_node_id].
  - intros m. split.
    + intros Hlen.
      assert (Hin : (m, group_of net0 m)
                    ∈ (λ p, (mg_main p, mg_members p)) <$> P).
      { rewrite HP. apply list_elem_of_filter. split; [done|].
        apply Hgl. split; [done|]. intros E. rewrite E in Hlen. simpl in Hlen. lia. }
      apply list_elem_of_fmap in Hin as (p & [= E _] & Hp). eauto.
    + intros (p & Hp & <-).
      destruct (gd_members _ _ Hgd p Hp) as [E Hlen]. by rewrite <- E.
  - by apply (gd_members _ _ Hgd).
  - done.
  - assert (E : mg_main <$> P = ((λ p, (mg_main p, mg_members p)) <$> P).*1).
    { by rewrite <- list_fmap_compose. }
    rewrite E, HP. by apply (od_filter_keys_NoDup _ _ Hnd).
  - by apply (gd_new_NoDup _ _ Hgd).
  - by apply (gd_new_fresh _ _ Hgd).
  - by apply (gd_old_nodes _ _ Hgd).
  - by apply (gd_new_node _ _ Hgd).
  - by apply (gd_links _ _ Hgd).
  - done.
  - apply od_filter_keys_NoDup. by apply (gd_node_keys _ _ Hgd).
  - intros k.
    etrans;
      [exact (od_get_filter_keys (K:=Z) (V:=positive) (λ k, k ∉ merged_ids P)
                (node_dict (cnet c)) k)|].
    cbv beta.
    rewrite (gd_node_get _ _ Hgd).
    destruct (decide (k ∈ merged_ids P)) as [H|H].
    + rewrite decide_False; [done|]. tauto.
    + by rewrite decide_True.
  - by apply (gd_max _ _ Hgd).
  - by apply (gd_max_main _ _ Hgd).
Qed.

Theorem consolidate_groups_spec :
  ∃ net' P,
    consolidate_groups round lonlat_coord_precision local_coord_precision net0
      = Some net'
    ∧ consolidated P net'.
Proof.
  destruct (group_nodes_spec net0) as (Hnd & Hgl & Hctrl).
  destruct (process_groups_spec (group_nodes net0).2 (group_nodes net0).1 []
              (mkConsolidation net0 ∅ ∅) groups_done_nil Hnd)
    as (c & P & Hc & Hgd & HP).
  { intros m g Hin. split_and!.
    - by apply Hgl.
    - by eapply Hctrl.
    - intros p Hp. by apply elem_of_nil in Hp. }
  cbn [app] in Hgd.
  destruct (deletion_spec c P Hgd HP) as (Hdel_nodes & Hdel_links & Hco).
  unfold consolidate_groups. rewrite Hc. cbn [mbind option_bind].
  rewrite Hdel_nodes. cbn [mbind option_bind].
  rewrite Hdel_links. cbn [mbind option_bind].
  eexists _, P. split; [reflexivity|]. exact Hco.
Qed.
End Consolidate.

(** ** Detection keeps a network well formed *)

Lemma identify_attrs (net net' : Network) (int_buffer : float) :
  _identifyComplexIntersections net int_buffer = Some net' →
  links net' = links net ∧ node_dict net' = node_dict net
  ∧ link_dict net' = link_dict net ∧ max_node_id net' = max_node_id net
  ∧ ∀ x, ∃ v, nodes net' !! x = set_main_node_id v <$> nodes net !! x.
Proof.
  intros Hnet'.
  destruct (identify_spec net int_buffer)
    as (s & net1 & _ & Hnet1 & Hl & Hnd & Hld & Hmax & _ & _ & Hall).
  rewrite Hnet' in Hnet1. injection Hnet1 as <-.
  split_and!; [done..|]. intros x.
  destruct (Hall x) as [[E _]|(k & _ & E & _)]; [|by exists (Some k)].
  exists (main_node_id (node_of net x)). rewrite E. unfold node_of.
  rewrite lookup_total_alt. destruct (nodes net !! x) as [[]|]; done.
Qed.

Lemma identify_wf (net net' : Network) (int_buffer : float) :
  wf_network net →
  _identifyComplexIntersections net int_buffer = Some net' →
  wf_network net'.
Proof.
  intros Hwf Hnet'.
  destruct (identify_attrs net net' int_buffer Hnet')
    as (Hl & Hnd & Hld & Hmax & Hall).
  assert (Hnode : ∀ x, ∃ v, node_of net' x = set_main_node_id v (node_of net x)
                            ∨ (node_of net' x = node_of net x)).
  { intros x. destruct (Hall x) as [v Hv]. exists v.
    destruct (identify_node_of net net' x v Hv) as [?|[? _]]; auto. }
  assert (Hlink : ∀ l, link_of net' l = link_of net l).
  { intros l. unfold link_of. by rewrite Hl. }
  assert (Hin : ∀ x, incoming_link_list (node_of net' x)
                     = incoming_link_list (node_of net x)).
  { intros x. destruct (Hnode x) as (v & [-> | ->]); done. }
  assert (Hout : ∀ x, outgoing_link_list (node_of net' x)
                      = outgoing_link_list (node_of net x)).
  { intros x. destruct (Hnode x) as (v & [-> | ->]); done. }
  split.
  - rewrite Hnd. by apply wf_node_keys.
  - intros k r Hk. rewrite Hnd in Hk.
    destruct (wf_node_ids net Hwf k r Hk) as (n & Hn & Hid).
    destruct (Hall r) as [v Hv]. rewrite Hn in Hv. simpl in Hv.
    eexists. split; [exact Hv|done].
  - rewrite Hld. by apply wf_link_keys.
  - intros k l Hk. rewrite Hld in Hk. rewrite Hl.
    by apply (wf_link_ids net Hwf).
  - intros k l Hk. rewrite Hld in Hk. rewrite Hnd, !Hlink, Hin, Hout.
    by apply (wf_endpoints net Hwf k l).
  - intros r l. rewrite Hnd, Hld, Hin, Hlink. by apply (wf_incoming net Hwf).
  - intros r l. rewrite Hnd, Hld, Hout, Hlink. by apply (wf_outgoing net Hwf).
  - intros r Hr. rewrite Hnd in Hr.
    destruct (wf_attributes net Hwf r Hr) as (? & ? & ?).
    destruct (Hnode r) as (v & [-> | ->]); done.
Qed.

(** ** The consolidation as a whole *)

Lemma consolidate_spec (round : float → Z → float)
    (lonlat_coord_precision local_coord_precision : Z)
    (net : Network) (auto_identify : bool) (int_buffer : float) :
  wf_network net →
  ∃ net1 net' P,
    grouped_network net auto_identify int_buffer = Some net1
    ∧ wf_network net1
    ∧ consolidateComplexIntersections round lonlat_coord_precision
        local_coord_precision net auto_identify int_buffer = Some net'
    ∧ consolidated round lonlat_coord_precision local_coord_precision net1 P net'.
Proof.
  intros Hwf. unfold consolidateComplexIntersections, grouped_network.
  destruct auto_identify.
  - destruct (identify_spec net int_buffer) as (s & net1 & _ & Hnet1 & _).
    pose proof (identify_wf net net1 int_buffer Hwf Hnet1) as Hwf1.
    destruct (consolidate_groups_spec round lonlat_coord_precision
                local_coord_precision net1 Hwf1) as (net' & P & Hnet' & Hco).
    exists net1, net', P. rewrite Hnet1. by split_and!.
  - destruct (consolidate_groups_spec round lonlat_coord_precision
                local_coord_precision net Hwf) as (net' & P & Hnet' & Hco).
    exists net, net', P. by split_and!.
Qed.

Section Consolidated.
Variable round : float → Z → float.
Variables lonlat_coord_precision local_coord_precision : Z.
Variables (net0 net' : Network) (P : list Merged).
Hypothesis Hwf : wf_network net0.
Hypothesis Hco : consolidated round lonlat_coord_precision
                   local_coord_precision net0 P net'.

Lemma co_merged_member (r : nref) :
  merged_member P r ↔ ∃ m, multi_group net0 m ∧ r ∈ group_of net0 m.
Proof.
  rewrite merged_member_iff. split.
  - intros (p & Hp & Hr). destruct (co_members _ _ _ _ _ _ Hco p Hp) as [E Hlen].
    exists (mg_main p). unfold multi_group. by rewrite <- E.
  - intros (m & Hm & Hr).
    apply (co_groups _ _ _ _ _ _ Hco) in Hm as (p & Hp & <-).
    exists p. split; [done|].
    by destruct (co_members _ _ _ _ _ _ Hco p Hp) as [-> _].
Qed.

Lemma co_internal (lk : Link) :
  internal P lk = true ↔
    ∃ m, multi_group net0 m
         ∧ from_node lk ∈ group_of net0 m ∧ to_node lk ∈ group_of net0 m.
Proof.
  rewrite internal_true. split.
  - intros (p & Hp & Hf & Ht).
    destruct (co_members _ _ _ _ _ _ Hco p Hp) as [E Hlen].
    exists (mg_main p). unfold multi_group. by rewrite <- E.
  - intros (m & Hm & Hf & Ht).
    apply (co_groups _ _ _ _ _ _ Hco) in Hm as (p & Hp & <-).
    exists p. by destruct (co_members _ _ _ _ _ _ Hco p Hp) as [-> _].
Qed.

(** The replacement node of a group: a new object that carries the group
    identifier and is the replacement of each member. *)
Lemma co_replacement (m : Z) :
  multi_group net0 m →
  ∃ i p, P !! i = Some p ∧ mg_main p = m
         ∧ mg_members p = group_of net0 m
         ∧ (mg_new p ∉ dom (nodes net0))
         ∧ (∀ r, r ∈ group_of net0 m → replacement P r = mg_new p).
Proof.
  intros Hm. apply (co_groups _ _ _ _ _ _ Hco) in Hm as (p & Hp & <-).
  destruct (co_members _ _ _ _ _ _ Hco p Hp) as [E Hlen].
  apply list_elem_of_lookup in Hp as Hi. destruct Hi as [i Hi].
  exists i, p. split_and!; [done..|by apply (co_new_fresh _ _ _ _ _ _ Hco)|].
  intros r Hr.
  destruct (replacement_member P r) as (q & Hq & Hrq & ->).
  { apply merged_member_iff. exists p. by rewrite E. }
  destruct (co_members _ _ _ _ _ _ Hco q Hq) as [Eq _]. rewrite Eq in Hrq.
  pose proof (group_of_disjoint _ _ _ _ Hr Hrq) as Emain.
  (* one group per identifier *)
  apply list_elem_of_lookup in Hq as [j Hj].
  assert (i = j) as ->; [|congruence].
  eapply NoDup_lookup; [apply (co_main_NoDup _ _ _ _ _ _ Hco)|..].
  - by rewrite list_lookup_fmap, Hi.
  - by rewrite list_lookup_fmap, Hj, Emain.
Qed.

Lemma co_link_of (k : Z) (l : lref) :
  (k, l) ∈ link_dict net0 →
  link_of net' l = consolidated_link P (link_of net0 l).
Proof.
  intros Hin. unfold link_of at 1.
  by rewrite (lookup_total_correct _ _ _ (co_links _ _ _ _ _ _ Hco k l Hin)).
Qed.

Lemma co_link_dict_elem (k : Z) (l : lref) :
  (k, l) ∈ link_dict net' ↔
    (k, l) ∈ link_dict net0 ∧ internal P (link_of net0 l) = false.
Proof.
  rewrite (co_link_dict _ _ _ _ _ _ Hco), list_elem_of_filter. simpl. tauto.
Qed.
End Consolidated.

Section Registered.
Variable round : float → Z → float.
Variables lonlat_coord_precision local_coord_precision : Z.
Variables (net0 net' : Network) (P : list Merged).
Hypothesis Hwf : wf_network net0.
Hypothesis Hco : consolidated round lonlat_coord_precision
                   local_coord_precision net0 P net'.

Lemma co_length : length P = length (consolidated_groups net0).
Proof.
  unfold consolidated_groups. rewrite <- (co_order _ _ _ _ _ _ Hco).
  by rewrite length_fmap.
Qed.

Lemma merged_ids_keys (k : Z) :
  k ∈ merged_ids net0 P →
  ∃ r, merged_member P r ∧ (k, r) ∈ node_dict net0.
Proof.
  unfold merged_ids. intros (r & -> & Hr)%list_elem_of_fmap.
  apply merged_nodes_elem in Hr. exists r. split; [done|].
  apply (co_merged_member _ _ _ _ _ _ Hco) in Hr as (m & _ & Hr).
  apply group_of_elem in Hr as [[k Hk]%values_elem _].
  by destruct (wf_node_registered net0 k r Hwf Hk) as [_ ->].
Qed.

Lemma co_new_node_of (i : nat) (p : Merged) :
  P !! i = Some p →
  nodes net0 !! mg_new p = None
  ∧ node_id (node_of net' (mg_new p)) = max_node_id net0 + Z.of_nat i
  ∧ main_node_id (node_of net' (mg_new p)) = Some (mg_main p).
Proof.
  intros Hi. destruct (co_new_node _ _ _ _ _ _ Hco i p Hi) as (n & Hn & ? & ? & _).
  rewrite (node_of_lookup net' _ n Hn). split_and!; [|done..].
  apply not_elem_of_dom, (co_new_fresh _ _ _ _ _ _ Hco).
  by eapply list_elem_of_lookup_2.
Qed.

Lemma co_new_registered (i : nat) (p : Merged) :
  fresh_identifiers net0 → P !! i = Some p →
  (max_node_id net0 + Z.of_nat i, mg_new p) ∈ node_dict net'.
Proof.
  intros Hfresh Hi. apply od_get_Some_elem.
  pose proof (lookup_lt_Some _ _ _ Hi) as Hlt.
  assert (Hkey : max_node_id net0 + Z.of_nat i
                 ∉ OrderedDict.keys (node_dict net0)).
  { apply Hfresh. by rewrite <- co_length. }
  rewrite (co_node_get _ _ _ _ _ _ Hco).
  rewrite decide_False.
  - rewrite decide_True by lia.
    replace (Z.to_nat (max_node_id net0 + Z.of_nat i - max_node_id net0))
      with i by lia.
    by rewrite Hi.
  - intros (r & _ & Hr)%merged_ids_keys. apply Hkey, keys_elem. eauto.
Qed.

Lemma co_old_registered (k : Z) (r : nref) :
  fresh_identifiers net0 → (k, r) ∈ node_dict net0 → ¬ merged_member P r →
  (k, r) ∈ node_dict net'.
Proof.
  intros Hfresh Hk Hr. apply od_get_Some_elem.
  rewrite (co_node_get _ _ _ _ _ _ Hco).
  rewrite decide_False.
  - rewrite decide_False.
    + by apply od_elem_get; [apply wf_node_keys|].
    + intros Hrange.
      apply (Hfresh (Z.to_nat (k - max_node_id net0))).
      * rewrite <- co_length. lia.
      * replace (max_node_id net0 + Z.of_nat (Z.to_nat (k - max_node_id net0)))
          with k by lia.
        apply keys_elem. eauto.
  - intros (r' & Hr' & Hk')%merged_ids_keys.
    apply (od_elem_get _ _ _ (wf_node_keys net0 Hwf)) in Hk, Hk'. congruence.
Qed.

Lemma co_new_collision (i : nat) (p : Merged) :
  P !! i = Some p →
  max_node_id net0 + Z.of_nat i ∈ merged_ids net0 P →
  mg_new p ∉ OrderedDict.values (node_dict net').
Proof.
  intros Hi Hcoll [k Hk]%values_elem.
  apply (od_elem_get _ _ _ (co_node_keys _ _ _ _ _ _ Hco)) in Hk.
  rewrite (co_node_get _ _ _ _ _ _ Hco) in Hk.
  destruct (decide (k ∈ merged_ids net0 P)) as [|Hno]; [done|].
  destruct (decide (max_node_id net0 ≤ k
                    < max_node_id net0 + Z.of_nat (length P))) as [Hr|Hr].
  - destruct (P !! Z.to_nat (k - max_node_id net0)) as [q|] eqn:Hq;
      simplify_eq/=.
    assert (Z.to_nat (k - max_node_id net0) = i) as Hidx.
    { eapply NoDup_lookup; [apply (co_new_NoDup _ _ _ _ _ _ Hco)|..].
      - by rewrite list_lookup_fmap, Hq.
      - by rewrite list_lookup_fmap, Hi, Hk. }
    apply Hno. by replace k with (max_node_id net0 + Z.of_nat i) by lia.
  - apply od_get_Some_elem in Hk.
    destruct (wf_node_registered net0 k _ Hwf Hk) as [Hn _].
    destruct (co_new_node_of i p Hi) as (Hnone & _). congruence.
Qed.
End Registered.

(** ** The claims about the consolidation *)

(** C1, as amended: on a well-formed network (see [wf_network]: beyond
    every registered link being in the outgoing list of its [from_node] and
    the incoming list of its [to_node], both collections are keyed by the
    identifiers of what they hold, the endpoints of a registered link are
    registered nodes, the link lists of a registered node hold nothing but
    registered links incident to it, and every registered node has its
    coordinates and its source identifier) the consolidation returns; for
    every group of at least two nodes there is a new node such that each
    link with
    exactly one endpoint in the group is still registered, under its key,
    with that endpoint rewired to the new node; a link with both endpoints
    in the group is registered no more; the links that leave the link
    collection are exactly those with both endpoints in one such group, and
    no link is registered twice. *)
Theorem consolidation_conserves_links (round : float → Z → float)
    (lonlat_coord_precision local_coord_precision : Z)
    (net : Network) (auto_identify : bool) (int_buffer : float) :
  wf_network net →
  ∃ net1 net',
    grouped_network net auto_identify int_buffer = Some net1
    ∧ consolidateComplexIntersections round lonlat_coord_precision
        local_coord_precision net auto_identify int_buffer = Some net'
    ∧ NoDup (OrderedDict.keys (link_dict net'))
    ∧ NoDup (OrderedDict.values (link_dict net'))
    ∧ (∀ k l, (k, l) ∈ link_dict net' ↔
         (k, l) ∈ link_dict net1
         ∧ ¬ ∃ m, multi_group net1 m
                  ∧ from_node (link_of net1 l) ∈ group_of net1 m
                  ∧ to_node (link_of net1 l) ∈ group_of net1 m)
    ∧ ∀ m, multi_group net1 m →
        ∃ N, nodes net1 !! N = None
             ∧ main_node_id (node_of net' N) = Some m
             ∧ ∀ k l, (k, l) ∈ link_dict net1 →
                 (from_node (link_of net1 l) ∈ group_of net1 m →
                  to_node (link_of net1 l) ∉ group_of net1 m →
                  (k, l) ∈ link_dict net'
                  ∧ link_id (link_of net' l) = k
                  ∧ from_node (link_of net' l) = N)
                 ∧ (from_node (link_of net1 l) ∉ group_of net1 m →
                    to_node (link_of net1 l) ∈ group_of net1 m →
                    (k, l) ∈ link_dict net'
                    ∧ link_id (link_of net' l) = k
                    ∧ to_node (link_of net' l) = N)
                 ∧ (from_node (link_of net1 l) ∈ group_of net1 m →
                    to_node (link_of net1 l) ∈ group_of net1 m →
                    (k ∉ OrderedDict.keys (link_dict net'))
                    ∧ (l ∉ OrderedDict.values (link_dict net'))).
Proof.
  intros Hwf.
  destruct (consolidate_spec round lonlat_coord_precision local_coord_precision
              net auto_identify int_buffer Hwf)
    as (net1 & net' & P & Hnet1 & Hwf1 & Hnet' & Hco).
  exists net1, net'.
  assert (Helem : ∀ k l, (k, l) ∈ link_dict net' ↔
            (k, l) ∈ link_dict net1
            ∧ ¬ ∃ m, multi_group net1 m
                     ∧ from_node (link_of net1 l) ∈ group_of net1 m
                     ∧ to_node (link_of net1 l) ∈ group_of net1 m).
  { intros k l. rewrite (co_link_dict_elem _ _ _ _ _ _ Hco).
    rewrite <- (co_internal _ _ _ _ _ _ Hco).
    by destruct (internal P (link_of net1 l)); naive_solver. }
  assert (Hkeys : NoDup (OrderedDict.keys (link_dict net'))).
  { rewrite (co_link_dict _ _ _ _ _ _ Hco).
    apply od_filter_keys_NoDup. by apply wf_link_keys. }
  split_and!; [done..| |done|].
  - apply (values_NoDup (λ l, link_id (link_of net1 l))); [done|].
    intros k l [Hin _]%Helem. by apply wf_link_registered.
  - intros m Hm.
    destruct (co_replacement _ _ _ _ _ _ Hco m Hm)
      as (i & p & Hi & Hmain & Hmem & Hfresh & Hrepl).
    destruct (co_new_node_of _ _ _ _ _ _ Hco i p Hi) as (Hnone & _ & HmainN).
    exists (mg_new p). split_and!; [done|by rewrite HmainN, Hmain|].
    intros k l Hin.
    assert (Hext : (from_node (link_of net1 l) ∉ group_of net1 m
                    ∨ to_node (link_of net1 l) ∉ group_of net1 m) →
                   (from_node (link_of net1 l) ∈ group_of net1 m
                    ∨ to_node (link_of net1 l) ∈ group_of net1 m) →
                   internal P (link_of net1 l) = false).
    { intros Hout Hin'. apply not_true_is_false.
      intros (m' & _ & Hf & Ht)%(co_internal _ _ _ _ _ _ Hco).
      destruct Hin' as [Hin'|Hin'].
      - rewrite (group_of_disjoint _ _ _ _ Hin' Hf) in Hout. tauto.
      - rewrite (group_of_disjoint _ _ _ _ Hin' Ht) in Hout. tauto. }
    split_and!.
    + intros Hf Ht. specialize (Hext (or_intror Ht) (or_introl Hf)).
      split; [by apply (co_link_dict_elem _ _ _ _ _ _ Hco)|].
      rewrite (co_link_of _ _ _ _ _ _ Hco k l Hin).
      unfold consolidated_link. rewrite Hext. simpl.
      split; [by apply wf_link_registered|by apply Hrepl].
    + intros Hf Ht. specialize (Hext (or_introl Hf) (or_intror Ht)).
      split; [by apply (co_link_dict_elem _ _ _ _ _ _ Hco)|].
      rewrite (co_link_of _ _ _ _ _ _ Hco k l Hin).
      unfold consolidated_link. rewrite Hext. simpl.
      split; [by apply wf_link_registered|by apply Hrepl].
    + intros Hf Ht.
      assert (Hint : ∃ m, multi_group net1 m
                ∧ from_node (link_of net1 l) ∈ group_of net1 m
                ∧ to_node (link_of net1 l) ∈ group_of net1 m) by eauto.
      split.
      * intros [l' Hl']%keys_elem. apply Helem in Hl' as Hl1.
        destruct Hl1 as [Hl1 Hno].
        apply (od_elem_get _ _ _ (wf_link_keys net1 Hwf1)) in Hin, Hl1.
        assert (l' = l) as -> by congruence. done.
      * intros [k' Hk']%values_elem. apply Helem in Hk' as [_ Hno]. done.
Qed.

Lemma wf_reorder (net : Network) (nd : odict Z nref) :
  wf_network net → nd ≡ₚ node_dict net → wf_network (with_node_dict nd net).
Proof.
  intros Hwf Hperm.
  assert (Hel : ∀ kr, kr ∈ nd ↔ kr ∈ node_dict net).
  { intros kr. by rewrite Hperm. }
  assert (Hval : ∀ r, r ∈ OrderedDict.values nd
                      ↔ r ∈ OrderedDict.values (node_dict net)).
  { intros r. unfold OrderedDict.values. by rewrite Hperm. }
  split; simpl; unfold node_of, link_of; simpl;
    fold (node_of net) (link_of net).
  - unfold OrderedDict.keys. rewrite Hperm. by apply wf_node_keys.
  - intros k r Hk%Hel. by apply (wf_node_ids net Hwf).
  - by apply wf_link_keys.
  - by apply (wf_link_ids net Hwf).
  - intros k l Hk. rewrite !Hval. by apply (wf_endpoints net Hwf k l).
  - intros r l. rewrite Hval. by apply (wf_incoming net Hwf).
  - intros r l. rewrite Hval. by apply (wf_outgoing net Hwf).
  - intros r. rewrite Hval. by apply (wf_attributes net Hwf).
Qed.

(** C6, as amended: on a well-formed network (see [wf_network]: both
    collections are keyed by the identifiers of what they hold, every
    registered link joins two registered nodes and is in the outgoing list
    of its [from_node] and the incoming list of its [to_node], the link
    lists of a registered node hold nothing but registered links incident
    to it, and every registered node has its coordinates and its source
    identifier) a link from a member of one group of at least two nodes to
    a member of another one is still registered after the consolidation,
    from the
    replacement node of the first group to that of the second; and this
    whatever the order [nd] of the node collection, which is what decides
    the order in which the groups are processed. *)
Theorem cross_group_link_rewired (round : float → Z → float)
    (lonlat_coord_precision local_coord_precision : Z)
    (net : Network) (nd : odict Z nref) (auto_identify : bool)
    (int_buffer : float) :
  wf_network net → nd ≡ₚ node_dict net →
  ∃ net1 net',
    grouped_network (with_node_dict nd net) auto_identify int_buffer = Some net1
    ∧ consolidateComplexIntersections round lonlat_coord_precision
        local_coord_precision (with_node_dict nd net) auto_identify int_buffer
      = Some net'
    ∧ ∀ mA mB k l,
        mA ≠ mB → multi_group net1 mA → multi_group net1 mB →
        (k, l) ∈ link_dict net1 →
        from_node (link_of net1 l) ∈ group_of net1 mA →
        to_node (link_of net1 l) ∈ group_of net1 mB →
        ∃ NA NB,
          nodes net1 !! NA = None ∧ main_node_id (node_of net' NA) = Some mA
          ∧ nodes net1 !! NB = None ∧ main_node_id (node_of net' NB) = Some mB
          ∧ (k, l) ∈ link_dict net'
          ∧ link_id (link_of net' l) = k
          ∧ from_node (link_of net' l) = NA
          ∧ to_node (link_of net' l) = NB.
Proof.
  intros Hwf Hperm. pose proof (wf_reorder net nd Hwf Hperm) as Hwfp.
  destruct (consolidate_spec round lonlat_coord_precision local_coord_precision
              _ auto_identify int_buffer Hwfp)
    as (net1 & net' & P & Hnet1 & Hwf1 & Hnet' & Hco).
  exists net1, net'. split_and!; [done..|].
  intros mA mB k l Hne HA HB Hin Hf Ht.
  destruct (co_replacement _ _ _ _ _ _ Hco mA HA)
    as (i & p & Hi & Hmain & _ & _ & Hrepl).
  destruct (co_replacement _ _ _ _ _ _ Hco mB HB)
    as (j & q & Hj & Hmainq & _ & _ & Hreplq).
  destruct (co_new_node_of _ _ _ _ _ _ Hco i p Hi) as (Hnone & _ & HmainN).
  destruct (co_new_node_of _ _ _ _ _ _ Hco j q Hj) as (Hnoneq & _ & HmainNq).
  assert (Hext : internal P (link_of net1 l) = false).
  { apply not_true_is_false.
    intros (m' & _ & Hf' & Ht')%(co_internal _ _ _ _ _ _ Hco).
    apply Hne. rewrite (group_of_disjoint _ _ _ _ Hf Hf').
    by rewrite (group_of_disjoint _ _ _ _ Ht Ht'). }
  exists (mg_new p), (mg_new q).
  rewrite HmainN, HmainNq, Hmain, Hmainq.
  rewrite (co_link_of _ _ _ _ _ _ Hco k l Hin).
  unfold consolidated_link. rewrite Hext. simpl.
  split_and!; [done..| | | |].
  - by apply (co_link_dict_elem _ _ _ _ _ _ Hco).
  - by apply wf_link_registered.
  - by apply Hrepl.
  - by apply Hreplq.
Qed.


Lemma process_groups_short (round : float → Z → float)
    (lonlat_coord_precision local_coord_precision : Z)
    (ctrl : odict Z bool) (gl : list (Z * list nref)) (c : Consolidation) :
  (∀ item, item ∈ gl → (length item.2 < 2)%nat) →
  fold_opt (process_group round lonlat_coord_precision local_coord_precision
              ctrl) c gl = Some c.
Proof.
  induction gl as [|[m g] gl IH]; intros Hgl; [done|].
  cbn [fold_opt]. rewrite process_group_short.
  - simpl. apply IH. intros item Hin. by apply Hgl, list_elem_of_further.
  - apply (Hgl (m, g)), list_elem_of_here.
Qed.

(** C9: without automatic identification, a network in which no identifier
    is shared by two registered nodes (possibly because none is set) comes
    back as it was: same store, same collections, same counters. *)
Theorem consolidation_without_groups (round : float → Z → float)
    (lonlat_coord_precision local_coord_precision : Z)
    (net : Network) (int_buffer : float) :
  (∀ m, (length (group_of net m) < 2)%nat) →
  consolidateComplexIntersections round lonlat_coord_precision
    local_coord_precision net false int_buffer = Some net.
Proof.
  intros Hshort. unfold consolidateComplexIntersections. simpl.
  unfold consolidate_groups.
  rewrite process_groups_short.
  - simpl. rewrite elements_empty. simpl. by destruct net.
  - intros [m g] Hin. simpl.
    destruct (group_nodes_spec net) as (_ & Hgl & _).
    apply Hgl in Hin as [-> _]. apply Hshort.
Qed.

(** C4, as amended: on a well-formed network in which none of the
    identifiers the call mints (the counter and its successors, one per
    consolidated group) is the key of a registered node, every link that is
    still registered after the consolidation has both its endpoints in the
    node collection. *)
Theorem remaining_links_have_endpoints (round : float → Z → float)
    (lonlat_coord_precision local_coord_precision : Z)
    (net : Network) (auto_identify : bool) (int_buffer : float) (net1 : Network) :
  wf_network net →
  grouped_network net auto_identify int_buffer = Some net1 →
  fresh_identifiers net1 →
  ∃ net',
    consolidateComplexIntersections round lonlat_coord_precision
      local_coord_precision net auto_identify int_buffer = Some net'
    ∧ ∀ k l, (k, l) ∈ link_dict net' →
        from_node (link_of net' l) ∈ OrderedDict.values (node_dict net')
        ∧ to_node (link_of net' l) ∈ OrderedDict.values (node_dict net').
Proof.
  intros Hwf Hnet1 Hfresh.
  destruct (consolidate_spec round lonlat_coord_precision local_coord_precision
              net auto_identify int_buffer Hwf)
    as (net1' & net' & P & Hnet1' & Hwf1 & Hnet' & Hco).
  rewrite Hnet1 in Hnet1'. injection Hnet1' as <-.
  exists net'. split; [done|].
  assert (Hrepl : ∀ r, r ∈ OrderedDict.values (node_dict net1) →
            replacement P r ∈ OrderedDict.values (node_dict net')).
  { intros r [k Hk]%values_elem. apply values_elem.
    destruct (decide (merged_member P r)) as [Hr|Hr].
    - destruct (replacement_member P r Hr) as (p & Hp & _ & ->).
      apply list_elem_of_lookup in Hp as [i Hi].
      eexists. by apply (co_new_registered _ _ _ _ _ _ Hwf1 Hco i p).
    - rewrite replacement_not_member by done.
      exists k. by apply (co_old_registered _ _ _ _ _ _ Hwf1 Hco). }
  intros k l [Hin Hint]%(co_link_dict_elem _ _ _ _ _ _ Hco).
  rewrite (co_link_of _ _ _ _ _ _ Hco k l Hin).
  unfold consolidated_link. rewrite Hint. simpl.
  destruct (wf_endpoints net1 Hwf1 k l Hin) as (Hf & Ht & _).
  split; by apply Hrepl.
Qed.

(** C10, as amended: every group of at least two nodes gets a replacement
    node; when none of the identifiers the call mints (the counter and its
    successors, one per consolidated group) is the key of a registered node,
    that node is registered, under its identifier, when the call returns;
    and when its identifier is the one of a merged-away node, the deletion
    phase leaves it out of the node collection. *)
Theorem replacement_node_registered (round : float → Z → float)
    (lonlat_coord_precision local_coord_precision : Z)
    (net : Network) (auto_identify : bool) (int_buffer : float) (net1 : Network) :
  wf_network net →
  grouped_network net auto_identify int_buffer = Some net1 →
  ∃ net',
    consolidateComplexIntersections round lonlat_coord_precision
      local_coord_precision net auto_identify int_buffer = Some net'
    ∧ ∀ m, multi_group net1 m →
        ∃ N, nodes net1 !! N = None
             ∧ main_node_id (node_of net' N) = Some m
             ∧ (fresh_identifiers net1 →
                (node_id (node_of net' N), N) ∈ node_dict net')
             ∧ ((∃ m' r, multi_group net1 m' ∧ r ∈ group_of net1 m'
                         ∧ node_id (node_of net1 r) = node_id (node_of net' N)) →
                N ∉ OrderedDict.values (node_dict net')).
Proof.
  intros Hwf Hnet1.
  destruct (consolidate_spec round lonlat_coord_precision local_coord_precision
              net auto_identify int_buffer Hwf)
    as (net1' & net' & P & Hnet1' & Hwf1 & Hnet' & Hco).
  rewrite Hnet1 in Hnet1'. injection Hnet1' as <-.
  exists net'. split; [done|]. intros m Hm.
  destruct (co_replacement _ _ _ _ _ _ Hco m Hm)
    as (i & p & Hi & Hmain & _ & _ & _).
  destruct (co_new_node_of _ _ _ _ _ _ Hco i p Hi) as (Hnone & Hid & HmainN).
  exists (mg_new p). rewrite Hid, HmainN, Hmain. split_and!; [done..| |].
  - intros Hfresh. by apply (co_new_registered _ _ _ _ _ _ Hwf1 Hco).
  - intros (m' & r & Hm' & Hr & Hidr).
    apply (co_new_collision _ _ _ _ _ _ Hwf1 Hco i p Hi).
    rewrite <- Hidr. unfold merged_ids. apply list_elem_of_fmap.
    exists r. split; [done|].
    apply merged_nodes_elem, (co_merged_member _ _ _ _ _ _ Hco). eauto.
Qed.

(** * Further properties of the detection *)

(** A registered link that passes the three tests of the first loop joins
    [x] and [y], in one direction or the other. *)
Definition candidate_edge (net : Network) (int_buffer : float) (x y : nref) : Prop :=
  ∃ k l, (k, l) ∈ link_dict net
    ∧ candidate_link net int_buffer (link_of net l) = true
    ∧ ((from_node (link_of net l) = x ∧ to_node (link_of net l) = y)
       ∨ (from_node (link_of net l) = y ∧ to_node (link_of net l) = x)).

(** [x] is an endpoint of such a link. *)
Definition candidate_endpoint (net : Network) (int_buffer : float) (x : nref) : Prop :=
  ∃ y, candidate_edge net int_buffer x y.

Lemma candidate_edge_sym (net : Network) (int_buffer : float) (x y : nref) :
  candidate_edge net int_buffer x y → candidate_edge net int_buffer y x.
Proof. intros (k & l & ? & ? & ?). exists k, l. tauto. Qed.

Lemma candidate_edge_endpoint (net : Network) (int_buffer : float) (x y : nref) :
  candidate_edge net int_buffer x y →
  candidate_endpoint net int_buffer x ∧ candidate_endpoint net int_buffer y.
Proof.
  intros H. split; [by exists y|]. exists x. by apply candidate_edge_sym.
Qed.

(** ** More invariants of the merging *)

(** A relation that holds within every candidate group and is transitive
    holds within every group the merging builds. *)
Lemma merges_from_related (R : relation nref) (s0 s : groups) :
  (∀ x y z, R x y → R y z → R x z) →
  (∀ p g x y, s0.1 !! p = Some g → x ∈ g → y ∈ g → R x y) →
  merges_from s0 s →
  ∀ q g x y, s.1 !! q = Some g → x ∈ g → y ∈ g → R x y.
Proof.
  intros Htrans H0. induction 1 as [|s i j k _ IH Hi]; [done|].
  destruct (inner_step_cases i s j)
    as [->|(kj & g1 & g2 & Hj & Hij & Hg1 & Hg2 & Hsz & ->)]; [done|].
  intros q g x y Hq Hx Hy. simpl in Hq.
  destruct (decide (q = i)) as [->|Hqi].
  - rewrite list_lookup_insert_eq in Hq by (by eapply lookup_lt_Some).
    injection Hq as <-.
    assert (∃ z, z ∈ g1 ∧ z ∈ g2) as (z & Hz1 & Hz2).
    { destruct (set_choose_L (g1 ∩ g2)) as [z Hz].
      - intros E. rewrite E, size_empty in Hsz. lia.
      - exists z. set_solver. }
    apply elem_of_union in Hx as [Hx|Hx], Hy as [Hy|Hy].
    + by apply (IH i g1).
    + apply (Htrans x z y); [by apply (IH i g1)|by apply (IH j g2)].
    + apply (Htrans x z y); [by apply (IH j g2)|by apply (IH i g1)].
    + by apply (IH j g2).
  - rewrite list_lookup_insert_ne in Hq by done. by apply (IH q g).
Qed.

(** A group never loses a member. *)
Lemma merges_from_grows (s0 s : groups) :
  merges_from s0 s →
  ∀ q g0, s0.1 !! q = Some g0 → ∃ g, s.1 !! q = Some g ∧ g0 ⊆ g.
Proof.
  induction 1 as [|s i j k _ IH Hi]; [by eauto|].
  destruct (inner_step_cases i s j)
    as [->|(kj & g1 & g2 & Hj & Hij & Hg1 & Hg2 & _ & ->)]; [done|].
  intros q g0 Hq. destruct (IH q g0 Hq) as (g & Hg & Hsub). simpl.
  destruct (decide (q = i)) as [->|Hqi].
  - exists (g1 ∪ g2). rewrite list_lookup_insert_eq by (by eapply lookup_lt_Some).
    split; [done|]. set_solver.
  - exists g. by rewrite list_lookup_insert_ne.
Qed.

(** A status is 0 or 1. *)
Lemma merges_from_status (s0 s : groups) :
  merges_from s0 s →
  Forall (λ a, a ≤ 1)%nat s0.2 → Forall (λ a, a ≤ 1)%nat s.2.
Proof.
  intros Hs H0. induction Hs as [|s i j k _ IH Hi]; [done|].
  destruct (inner_step_cases i s j)
    as [->|(kj & g1 & g2 & Hj & Hij & Hg1 & Hg2 & _ & ->)]; [done|].
  simpl. apply Forall_insert; [done|lia].
Qed.

Lemma sum_list_active (gl : list (gset nref)) (gs : list nat) :
  length gl = length gs → Forall (λ a, a ≤ 1)%nat gs →
  sum_list gs = length (filter (λ item, item.2 ≠ 0%nat) (zip gl gs)).
Proof.
  revert gl. induction gs as [|a gs IH]; intros [|g gl] Hlen Hall;
    simplify_eq/=; [done|].
  apply Forall_cons in Hall as [Ha Hall]. rewrite filter_cons. cbn [snd].
  rewrite (IH gl) by done.
  destruct a as [|[|a]]; [|by rewrite decide_True|lia].
  by rewrite decide_False by (intros H; by apply H).
Qed.

(** ** The detection, group by group *)

(** An endpoint of a candidate link lies in an active group. *)
Lemma candidate_endpoint_active (net : Network) (int_buffer : float) (s : groups)
    (x : nref) :
  merged_groups net int_buffer = Some s →
  candidate_endpoint net int_buffer x →
  ∃ q g a, s.1 !! q = Some g ∧ s.2 !! q = Some (S a) ∧ x ∈ g.
Proof.
  intros Hs (y & k & l & Hin & Hc & Hxy).
  destruct (candidate_endpoints_active _ _ _ _ _ Hs Hin Hc)
    as (q & g & a & Hq & Ha & Hf & Ht).
  exists q, g, a. destruct Hxy as [[<- _]|[_ <-]]; done.
Qed.

(** The two ends of a chain of candidate links lie in one active group. *)
Lemma joined_same_group (net : Network) (int_buffer : float) (s : groups)
    (x y : nref) (q : nat) (g : gset nref) (a : nat) :
  merged_groups net int_buffer = Some s →
  rtc (candidate_edge net int_buffer) x y →
  s.1 !! q = Some g → s.2 !! q = Some (S a) → x ∈ g → y ∈ g.
Proof.
  intros Hs Hxy. revert q g a.
  destruct (merged_groups_spec net int_buffer) as (s' & Hs' & _ & Hd & _).
  rewrite Hs in Hs'. injection Hs' as <-.
  induction Hxy as [x|x z y (k & l & Hin & Hc & Hxz) _ IH]; intros q g a Hq Ha Hx;
    [done|].
  destruct (candidate_endpoints_active _ _ _ _ _ Hs Hin Hc)
    as (q' & g' & a' & Hq' & Ha' & Hf & Ht).
  assert (x ∈ g' ∧ z ∈ g') as [Hx' Hz'].
  { destruct Hxz as [[<- <-]|[<- <-]]; done. }
  assert (q' = q) as ->.
  { destruct (decide (q' = q)) as [|Hne]; [done|].
    specialize (Hd q' q g' g a' a Hne Hq' Hq Ha' Ha).
    apply elem_of_disjoint in Hd. exfalso. by apply (Hd x). }
  assert (g' = g) as -> by congruence.
  by apply (IH q g a).
Qed.

(** The members of a group are joined by chains of candidate links. *)
Lemma same_group_joined (net : Network) (int_buffer : float) (s : groups)
    (q : nat) (g : gset nref) (x y : nref) :
  merged_groups net int_buffer = Some s →
  s.1 !! q = Some g → x ∈ g → y ∈ g →
  rtc (candidate_edge net int_buffer) x y.
Proof.
  intros Hs.
  destruct (merged_groups_spec net int_buffer) as (s' & Hs' & Hm & _).
  rewrite Hs in Hs'. injection Hs' as <-.
  apply (merges_from_related (rtc (candidate_edge net int_buffer))
           (collect_groups net int_buffer) s); [|clear q g x y|done].
  { intros a b c Hab Hbc. by etrans. }
  intros p g x y Hp Hx Hy.
  rewrite collect_groups_spec in Hp. simpl in Hp.
  apply list_lookup_fmap_Some in Hp as (lk & -> & Hlk).
  apply list_elem_of_lookup_2, list_elem_of_filter in Hlk as [Hc Hlk].
  apply list_elem_of_fmap in Hlk as ([k l] & -> & Hin). simpl in *.
  unfold link_group in Hx, Hy.
  apply elem_of_union in Hx as [Hx|Hx], Hy as [Hy|Hy];
    apply elem_of_singleton in Hx, Hy; subst x y; try done;
    apply rtc_once; exists k, l; tauto.
Qed.

(** A node that the detection changes is an endpoint of a candidate
    link. *)
Lemma identify_unchanged_or_endpoint (net net' : Network) (int_buffer : float)
    (x : nref) :
  _identifyComplexIntersections net int_buffer = Some net' →
  node_of net' x = node_of net x ∨ candidate_endpoint net int_buffer x.
Proof.
  intros Hnet'.
  destruct (identify_spec net int_buffer)
    as (s & net1 & Hs & Hnet1 & _ & _ & _ & _ & _ & _ & Hall).
  rewrite Hnet' in Hnet1. injection Hnet1 as <-.
  destruct (Hall x) as [[E _]|(k & _ & _ & q & g & a & Hq & _ & Hg)].
  - left. unfold node_of. by rewrite !lookup_total_alt, E.
  - right.
    destruct (merged_groups_spec net int_buffer) as (s' & Hs' & _ & _ & _ & Hdr).
    rewrite Hs in Hs'. injection Hs' as <-.
    destruct (Hdr q g x Hq Hg) as (p & g0 & Hp & Hx0).
    destruct (collect_groups_members _ _ _ _ _ Hp Hx0) as (k' & l & Hin & Hc & Hor).
    destruct Hor as [->| ->].
    + exists (to_node (link_of net l)), k', l. tauto.
    + exists (from_node (link_of net l)), k', l. tauto.
Qed.

(** ** The properties *)

(** X1: the detection changes a node exactly when it is an endpoint of a
    registered link that passes the three tests (not longer than the
    threshold, both endpoints signal-controlled, both without a group
    identifier): such a node had no identifier and has one afterwards, and
    any other node is left as it was. *)
Theorem detection_changes_candidate_endpoints (net : Network) (int_buffer : float) :
  ∃ net',
    _identifyComplexIntersections net int_buffer = Some net'
    ∧ ∀ x,
        (candidate_endpoint net int_buffer x →
           main_node_id (node_of net x) = None
           ∧ is_Some (main_node_id (node_of net' x)))
        ∧ (¬ candidate_endpoint net int_buffer x →
           node_of net' x = node_of net x).
Proof.
  destruct (identify_spec net int_buffer) as (s & net' & Hs & Hnet' & _).
  exists net'. split; [done|]. intros x. split.
  - intros Hx.
    destruct (candidate_endpoint_active _ _ _ _ Hs Hx) as (q & g & a & Hq & Ha & Hg).
    destruct (identify_rank _ _ _ _ _ _ _ _ Hs Hnet' Hq Ha Hg) as [Hnone ->].
    split; [done|]. by eexists.
  - intros Hx.
    by destruct (identify_unchanged_or_endpoint net net' int_buffer x Hnet').
Qed.

(** Two endpoints of candidate links end with the same identifier exactly
    when a chain of candidate links joins them. *)
Lemma identify_same_id_iff (net net' : Network) (int_buffer : float) (x y : nref) :
  _identifyComplexIntersections net int_buffer = Some net' →
  candidate_endpoint net int_buffer x →
  candidate_endpoint net int_buffer y →
  main_node_id (node_of net' x) = main_node_id (node_of net' y)
  ↔ rtc (candidate_edge net int_buffer) x y.
Proof.
  intros Hnet' Hx Hy.
  destruct (identify_spec net int_buffer) as (s & net1 & Hs & Hnet1 & _).
  rewrite Hnet' in Hnet1. injection Hnet1 as <-.
  destruct (candidate_endpoint_active _ _ _ _ Hs Hx) as (q & g & a & Hq & Ha & Hg).
  destruct (candidate_endpoint_active _ _ _ _ Hs Hy) as (q' & g' & a' & Hq' & Ha' & Hg').
  destruct (identify_rank _ _ _ _ _ _ _ _ Hs Hnet' Hq Ha Hg) as [_ Ex].
  destruct (identify_rank _ _ _ _ _ _ _ _ Hs Hnet' Hq' Ha' Hg') as [_ Ey].
  split.
  - rewrite Ex, Ey. simpl. intros E.
    assert (q = q') as <-.
    { apply (active_before_inj (zip s.1 s.2) q q' g g' a a').
      - apply lookup_zip_with_Some. by exists g, (S a).
      - apply lookup_zip_with_Some. by exists g', (S a').
      - injection E as E. lia. }
    assert (g' = g) as -> by congruence.
    by apply (same_group_joined net int_buffer s q g).
  - intros Hxy.
    pose proof (joined_same_group _ _ _ _ _ _ _ _ Hs Hxy Hq Ha Hg) as Hyg.
    destruct (identify_rank _ _ _ _ _ _ _ _ Hs Hnet' Hq Ha Hyg) as [_ Ey'].
    by rewrite Ex, Ey'.
Qed.

(** A node is left as it is, or it had no identifier and receives one
    minted from the counter. *)
Lemma identify_node_cases (net net' : Network) (int_buffer : float) (x : nref) :
  _identifyComplexIntersections net int_buffer = Some net' →
  node_of net' x = node_of net x
  ∨ (main_node_id (node_of net x) = None
     ∧ nodes net !! x = Some (node_of net x)
     ∧ ∃ k, max_main_node_id net ≤ k < max_main_node_id net'
            ∧ node_of net' x = set_main_node_id (Some k) (node_of net x)).
Proof.
  intros Hnet'.
  destruct (identify_spec net int_buffer)
    as (s & net1 & Hs & Hnet1 & _ & _ & _ & _ & _ & _ & Hall).
  rewrite Hnet' in Hnet1. injection Hnet1 as <-.
  destruct (Hall x) as [[E _]|(k & Hk & E & Hact)].
  - left. unfold node_of. by rewrite !lookup_total_alt, E.
  - destruct (active_member_eligible _ _ _ _ Hs Hact) as [Hnone Hsig].
    destruct (identify_node_of net net' x _ E) as [?|[? ?]]; [by left|right].
    split_and!; [done..|]. by exists k.
Qed.

(** Not greater than a threshold, not greater than a larger one. *)
Lemma float_gt_mono (a b b' : float) :
  PrimFloat.leb b b' = true → float_gt a b = false → float_gt a b' = false.
Proof.
  unfold float_gt. rewrite leb_spec, !ltb_spec. unfold SFleb, SFltb.
  intros Hbb Hab.
  destruct (SFcompare (Prim2SF b') (Prim2SF a)) as [[]|] eqn:E; try done.
  exfalso.
  assert (H1 : SFle (Prim2SF b) (Prim2SF b')).
  { unfold SFle. destruct (SFcompare (Prim2SF b) (Prim2SF b')) as [[]|]; auto;
      done. }
  assert (H2 : SFle (Prim2SF b') (Prim2SF a)) by (by left).
  destruct (SFle_trans _ _ _ H1 H2) as [H|H]; rewrite H in Hab; [done|].
  (* [b = a] and [b' < a] with [b ≤ b'] *)
  assert (H3 : SFle (Prim2SF a) (Prim2SF b)).
  { right. rewrite (SFcompare_antisym (Prim2SF b) (Prim2SF a)), H. done. }
  destruct (SFle_trans _ _ _ H3 H1) as [H4|H4];
    rewrite (SFcompare_antisym (Prim2SF a) (Prim2SF b')), H4 in E; done.
Qed.

Lemma candidate_link_mono (net : Network) (b b' : float) (lk : Link) :
  PrimFloat.leb b b' = true → candidate_link net b lk = true →
  candidate_link net b' lk = true.
Proof.
  intros Hb. rewrite !candidate_link_spec. intros (Hl & H). split; [|done].
  by eapply float_gt_mono.
Qed.

Lemma candidate_edge_mono (net : Network) (b b' : float) (x y : nref) :
  PrimFloat.leb b b' = true →
  candidate_edge net b x y → candidate_edge net b' x y.
Proof.
  intros Hb (k & l & Hin & Hc & Hxy). exists k, l.
  split_and!; [done| |done]. by eapply candidate_link_mono.
Qed.

(** X2: the detection computes the connected components of the candidate
    links: two endpoints of candidate links end with the same group
    identifier exactly when a chain of candidate links joins them. *)
Theorem detection_components (net : Network) (int_buffer : float) :
  ∃ net',
    _identifyComplexIntersections net int_buffer = Some net'
    ∧ ∀ x y,
        candidate_endpoint net int_buffer x →
        candidate_endpoint net int_buffer y →
        (main_node_id (node_of net' x) = main_node_id (node_of net' y)
         ↔ rtc (candidate_edge net int_buffer) x y).
Proof.
  destruct (identify_spec net int_buffer) as (s & net' & Hs & Hnet' & _).
  exists net'. split; [done|]. intros x y.
  by apply identify_same_id_iff.
Qed.

(** X3: the counter of group identifiers advances by the number of valid
    groups the merging ends with, and every identifier in between is the
    one of a node: the identifiers minted are consecutive, one per final
    group. *)
Theorem detection_counter (net : Network) (int_buffer : float) :
  ∃ s net',
    merged_groups net int_buffer = Some s
    ∧ _identifyComplexIntersections net int_buffer = Some net'
    ∧ max_main_node_id net'
      = max_main_node_id net + Z.of_nat (valid_groups s)
    ∧ ∀ k, max_main_node_id net ≤ k < max_main_node_id net' →
        ∃ x, candidate_endpoint net int_buffer x
             ∧ main_node_id (node_of net' x) = Some k.
Proof.
  destruct (identify_spec net int_buffer) as (s & net' & Hs & Hnet' & _).
  destruct (merged_groups_spec net int_buffer) as (s' & Hs' & Hm & _ & _ & _).
  rewrite Hs in Hs'. injection Hs' as <-.
  destruct (collect_groups_status net int_buffer) as [Hlen0 Hone].
  destruct (merges_from_length _ _ Hm) as [Hlen1 Hlen2].
  assert (Hlen : length s.1 = length s.2) by congruence.
  assert (Hst : Forall (λ a, a ≤ 1)%nat s.2).
  { apply (merges_from_status _ _ Hm). apply Forall_forall.
    intros a Ha. apply list_elem_of_lookup in Ha as [p Hp].
    destruct (lookup_lt_is_Some_2 (collect_groups net int_buffer).1 p)
      as [g0 Hg0]; [apply lookup_lt_Some in Hp; lia|].
    rewrite (Hone p g0 Hg0) in Hp. injection Hp as <-. lia. }
  assert (Hmax : max_main_node_id net'
                 = max_main_node_id net + Z.of_nat (valid_groups s)).
  { pose proof Hnet' as H. unfold _identifyComplexIntersections in H.
    rewrite Hs in H. simpl in H. injection H as <-. cbn [max_main_node_id].
    unfold assign_groups. rewrite assign_steps_counter.
    unfold valid_groups. by rewrite (sum_list_active s.1 s.2). }
  exists s, net'. split_and!; [done..|].
  intros k Hk. rewrite Hmax in Hk.
  unfold valid_groups in Hk. rewrite (sum_list_active s.1 s.2) in Hk by done.
  destruct (active_before_surj (zip s.1 s.2) (Z.to_nat (k - max_main_node_id net)))
    as (q & g & a & Hq & Hrank); [lia|].
  apply lookup_zip_with_Some in Hq as (? & ? & [= <- <-] & Hq1 & Hq2).
  destruct (lookup_lt_is_Some_2 (collect_groups net int_buffer).1 q)
    as [g0 Hg0]; [apply lookup_lt_Some in Hq1; lia|].
  destruct (merges_from_grows _ _ Hm q g0 Hg0) as (g' & Hg' & Hsub).
  assert (g' = g) as -> by congruence.
  pose proof Hg0 as Hg0'. rewrite collect_groups_spec in Hg0'. simpl in Hg0'.
  apply list_lookup_fmap_Some in Hg0' as (lk & -> & Hlk).
  apply list_elem_of_lookup_2, list_elem_of_filter in Hlk as [Hc Hlk].
  apply list_elem_of_fmap in Hlk as ([k' l] & -> & Hin). simpl in *.
  exists (from_node (link_of net l)). split.
  - exists (to_node (link_of net l)), k', l. tauto.
  - assert (Hx : from_node (link_of net l) ∈ g).
    { apply Hsub. unfold link_group. set_solver. }
    destruct (identify_rank _ _ _ _ _ _ _ _ Hs Hnet' Hq1 Hq2 Hx) as [_ ->].
    simpl. rewrite Hrank. f_equal. lia.
Qed.

(** X4: when every group identifier in use lies below the counter, it still
    does after the detection; the groups that existed keep their members,
    in their order, and a group with a new identifier holds nothing but
    endpoints of candidate links. *)
Theorem detection_keeps_groups (net : Network) (int_buffer : float) :
  main_ids_below net →
  ∃ net',
    _identifyComplexIntersections net int_buffer = Some net'
    ∧ main_ids_below net'
    ∧ (∀ m, m < max_main_node_id net → group_of net' m = group_of net m)
    ∧ (∀ m r, max_main_node_id net ≤ m → r ∈ group_of net' m →
              candidate_endpoint net int_buffer r).
Proof.
  intros Hbelow.
  destruct (identify_spec net int_buffer)
    as (s & net' & Hs & Hnet' & _ & Hnd & _ & _ & Hle & _ & Hall).
  exists net'. split_and!; [done| | |].
  - intros x n k Hn Hk. destruct (Hall x) as [[E _]|(k0 & Hk0 & E & _)].
    + rewrite E in Hn. specialize (Hbelow x n k Hn Hk). lia.
    + rewrite E in Hn. destruct (nodes net !! x); simplify_eq/=. lia.
  - intros m Hm. unfold group_of. rewrite Hnd. apply filter_ext_elem.
    intros r _.
    destruct (identify_node_cases net net' int_buffer r Hnet')
      as [->|(Hnone & _ & k & Hk & ->)]; [done|].
    rewrite Hnone. simpl. split; [|done]. intros [= E]. lia.
  - intros m r Hm [_ Hr]%group_of_elem.
    destruct (identify_unchanged_or_endpoint net net' int_buffer r Hnet')
      as [E|?]; [|done].
    rewrite E in Hr. exfalso.
    destruct (nodes net !! r) as [n|] eqn:Hn.
    + rewrite (node_of_lookup net r n Hn) in Hr.
      specialize (Hbelow r n m Hn Hr). lia.
    + unfold node_of in Hr. rewrite lookup_total_alt, Hn in Hr. done.
Qed.

(** X5: a larger threshold keeps together what a smaller one groups: two
    nodes that the detection with threshold [b] leaves with one identifier
    are left with one identifier by the detection with a threshold
    [b' ≥ b], run on the same network. *)
Theorem detection_threshold_monotone (net : Network) (b b' : float) :
  PrimFloat.leb b b' = true →
  ∃ net1 net2,
    _identifyComplexIntersections net b = Some net1
    ∧ _identifyComplexIntersections net b' = Some net2
    ∧ ∀ x y,
        candidate_endpoint net b x → candidate_endpoint net b y →
        main_node_id (node_of net1 x) = main_node_id (node_of net1 y) →
        is_Some (main_node_id (node_of net2 x))
        ∧ main_node_id (node_of net2 x) = main_node_id (node_of net2 y).
Proof.
  intros Hb.
  destruct (identify_spec net b) as (s1 & net1 & Hs1 & Hnet1 & _).
  destruct (identify_spec net b') as (s2 & net2 & Hs2 & Hnet2 & _).
  exists net1, net2. split_and!; [done..|]. intros x y Hx Hy E.
  assert (Hx' : candidate_endpoint net b' x).
  { destruct Hx as [z Hz]. exists z. by eapply candidate_edge_mono. }
  assert (Hy' : candidate_endpoint net b' y).
  { destruct Hy as [z Hz]. exists z. by eapply candidate_edge_mono. }
  split.
  - destruct (candidate_endpoint_active _ _ _ _ Hs2 Hx')
      as (q & g & a & Hq & Ha & Hg).
    destruct (identify_rank _ _ _ _ _ _ _ _ Hs2 Hnet2 Hq Ha Hg) as [_ ->].
    by eexists.
  - apply (identify_same_id_iff net net2 b' x y Hnet2 Hx' Hy').
    apply (identify_same_id_iff net net1 b x y Hnet1 Hx Hy) in E.
    eapply rtc_subrel; [|exact E]. intros u v. by apply candidate_edge_mono.
Qed.

(** X6: when every registered link is longer than the threshold, or has an
    endpoint that is not signal-controlled or that carries a group
    identifier already (so, too, when there is no link at all), the
    detection returns the network as it was, counter included. *)
Theorem detection_without_candidates (net : Network) (int_buffer : float) :
  (∀ k l, (k, l) ∈ link_dict net →
     float_gt (link_length (link_of net l)) int_buffer = true
     ∨ ctrl_type (node_of net (from_node (link_of net l))) ≠ Some "signal"%string
     ∨ ctrl_type (node_of net (to_node (link_of net l))) ≠ Some "signal"%string
     ∨ main_node_id (node_of net (from_node (link_of net l))) ≠ None
     ∨ main_node_id (node_of net (to_node (link_of net l))) ≠ None) →
  _identifyComplexIntersections net int_buffer = Some net.
Proof.
  intros Hno. apply identify_no_candidate. intros k l Hin.
  apply not_true_is_false. intros (Hl & Hf & Ht & Hsf & Hst)%candidate_link_spec.
  destruct (Hno k l Hin) as [H|[H|[H|[H|H]]]]; try done.
  congruence.
Qed.

(** X7: the detection keeps a network well formed, and it changes neither
    of the two collections, no link, and not the node counter. *)
Theorem detection_keeps_well_formed (net : Network) (int_buffer : float) :
  wf_network net →
  ∃ net',
    _identifyComplexIntersections net int_buffer = Some net'
    ∧ wf_network net'
    ∧ links net' = links net
    ∧ node_dict net' = node_dict net
    ∧ link_dict net' = link_dict net
    ∧ max_node_id net' = max_node_id net
    ∧ dom (nodes net') = dom (nodes net).
Proof.
  intros Hwf.
  destruct (identify_spec net int_buffer) as (s & net' & _ & Hnet' & _).
  destruct (identify_attrs net net' int_buffer Hnet') as (Hl & Hnd & Hld & Hmax & Hall).
  exists net'. split_and!; [done|by eapply identify_wf|done..|].
  apply set_eq. intros x. rewrite !elem_of_dom.
  destruct (Hall x) as [v ->]. by rewrite fmap_is_Some.
Qed.

(** * Further properties of the consolidation *)

(** ** The node collection after the consolidation *)

Section NodeCollection.
Variable round : float → Z → float.
Variables lonlat_coord_precision local_coord_precision : Z.
Variables (net0 net' : Network) (P : list Merged).
Hypothesis Hwf : wf_network net0.
Hypothesis Hco : consolidated round lonlat_coord_precision
                   local_coord_precision net0 P net'.

(** A registered node is a node that was registered and belongs to no
    consolidated group, or the replacement node of a group. *)
Lemma co_registered_cases (k : Z) (r : nref) :
  (k, r) ∈ node_dict net' →
  ((k, r) ∈ node_dict net0 ∧ ¬ merged_member P r
   ∧ nodes net' !! r = nodes net0 !! r)
  ∨ (∃ i p, P !! i = Some p ∧ r = mg_new p
            ∧ k = max_node_id net0 + Z.of_nat i).
Proof.
  intros Hk.
  apply (od_elem_get _ _ _ (co_node_keys _ _ _ _ _ _ Hco)) in Hk.
  rewrite (co_node_get _ _ _ _ _ _ Hco) in Hk.
  destruct (decide (k ∈ merged_ids net0 P)) as [|Hno]; [done|].
  destruct (decide (max_node_id net0 ≤ k
                    < max_node_id net0 + Z.of_nat (length P))) as [Hr|Hr].
  - right. destruct (P !! Z.to_nat (k - max_node_id net0)) as [q|] eqn:Hq;
      simplify_eq/=.
    exists (Z.to_nat (k - max_node_id net0)), q. split_and!; [done..|lia].
  - left. apply od_get_Some_elem in Hk.
    destruct (wf_node_registered net0 k r Hwf Hk) as [Hn Hid].
    split_and!; [done| |].
    + intros Hm. apply Hno. unfold merged_ids. apply list_elem_of_fmap.
      exists r. split; [done|]. by apply merged_nodes_elem.
    + apply (co_old_nodes _ _ _ _ _ _ Hco). apply elem_of_dom. eauto.
Qed.

Lemma co_member_allocated (r : nref) :
  merged_member P r → nodes net0 !! r = Some (node_of net0 r).
Proof.
  intros (m & _ & Hr)%(co_merged_member _ _ _ _ _ _ Hco).
  apply group_of_elem in Hr as [[k Hk]%values_elem _].
  by destruct (wf_node_registered net0 k r Hwf Hk).
Qed.

(** The members of a consolidated group are registered no more. *)
Lemma co_member_unregistered (r : nref) :
  merged_member P r → r ∉ OrderedDict.values (node_dict net').
Proof.
  intros Hr [k Hk]%values_elem.
  destruct (co_registered_cases k r Hk) as [(_ & Hno & _)|(i & p & Hi & -> & _)];
    [done|].
  pose proof (co_member_allocated _ Hr) as Hn.
  apply (co_new_fresh _ _ _ _ _ _ Hco p); [by eapply list_elem_of_lookup_2|].
  apply elem_of_dom. eauto.
Qed.

Lemma co_registered_node_id (k : Z) (r : nref) :
  (k, r) ∈ node_dict net' →
  nodes net' !! r = Some (node_of net' r) ∧ node_id (node_of net' r) = k.
Proof.
  intros Hk.
  destruct (co_registered_cases k r Hk) as [(Hk0 & _ & E)|(i & p & Hi & -> & ->)].
  - destruct (wf_node_registered net0 k r Hwf Hk0) as [Hn Hid].
    rewrite Hn in E. rewrite (node_of_lookup net' r _ E). by rewrite E.
  - destruct (co_new_node _ _ _ _ _ _ Hco i p Hi) as (n & Hn & Hid & _).
    by rewrite (node_of_lookup net' _ n Hn).
Qed.

(** After the consolidation no group has two members. *)
Lemma co_groups_short (m : Z) : (length (group_of net' m) < 2)%nat.
Proof.
  assert (Hnd : NoDup (group_of net' m)).
  { apply NoDup_filter.
    apply (values_NoDup (λ r, node_id (node_of net' r)));
      [apply (co_node_keys _ _ _ _ _ _ Hco)|].
    intros k r Hk. by apply co_registered_node_id. }
  assert (Hcase : ∀ r, r ∈ group_of net' m →
    (r ∈ group_of net0 m ∧ ¬ multi_group net0 m)
    ∨ (multi_group net0 m ∧ ∃ p, p ∈ P ∧ mg_main p = m ∧ r = mg_new p)).
  { intros r [[k Hk]%values_elem Hm]%group_of_elem.
    destruct (co_registered_cases k r Hk)
      as [(Hk0 & Hno & E)|(i & p & Hi & -> & _)].
    - left. assert (Hr : r ∈ group_of net0 m).
      { apply group_of_elem. split; [apply values_elem; eauto|].
        unfold node_of in *. by rewrite !lookup_total_alt, <- E. }
      split; [done|]. intros Hmulti. apply Hno.
      apply (co_merged_member _ _ _ _ _ _ Hco). eauto.
    - right. destruct (co_new_node _ _ _ _ _ _ Hco i p Hi) as (n & Hn & _ & Hmain & _).
      rewrite (node_of_lookup net' _ n Hn), Hmain in Hm. injection Hm as Hm.
      assert (Hp : p ∈ P) by (by eapply list_elem_of_lookup_2).
      split; [|by exists p].
      apply (co_groups _ _ _ _ _ _ Hco). eauto. }
  destruct (group_of net' m) as [|r1 [|r2 l]] eqn:E; [simpl; lia..|exfalso].
  apply NoDup_cons in Hnd as [Hr1 _]. apply Hr1.
  destruct (Hcase r1) as [[H1 Hs1]|[Hm1 (p1 & Hp1 & Hmain1 & ->)]];
    [apply list_elem_of_here| |];
    (destruct (Hcase r2) as [[H2 Hs2]|[Hm2 (p2 & Hp2 & Hmain2 & ->)]];
      [apply list_elem_of_further, list_elem_of_here| |]); try done.
  - unfold multi_group in Hs1.
    destruct (group_of net0 m) as [|x [|y l']]; [by apply elem_of_nil in H1| |simpl in Hs1; lia].
    apply list_elem_of_singleton in H1, H2. subst. apply list_elem_of_here.
  - apply list_elem_of_lookup in Hp1 as [i1 Hi1].
    apply list_elem_of_lookup in Hp2 as [i2 Hi2].
    assert (i1 = i2) as ->.
    { eapply NoDup_lookup; [apply (co_main_NoDup _ _ _ _ _ _ Hco)|..].
      - by rewrite list_lookup_fmap, Hi1.
      - by rewrite list_lookup_fmap, Hi2; simpl; rewrite Hmain2, <- Hmain1. }
    assert (p1 = p2) as -> by congruence. apply list_elem_of_here.
Qed.
End NodeCollection.

(** A network without a group of two nodes is left as it is. *)
Lemma consolidate_groups_short (round : float → Z → float)
    (lonlat_coord_precision local_coord_precision : Z) (net : Network) :
  (∀ m, (length (group_of net m) < 2)%nat) →
  consolidate_groups round lonlat_coord_precision local_coord_precision net
  = Some net.
Proof.
  intros Hshort. unfold consolidate_groups.
  rewrite process_groups_short.
  - simpl. rewrite elements_empty. simpl. by destruct net.
  - intros [m g] Hin. simpl.
    destruct (group_nodes_spec net) as (_ & Hgl & _).
    apply Hgl in Hin as [-> _]. apply Hshort.
Qed.

Lemma grouped_network_attrs (net net1 : Network) (auto_identify : bool)
    (int_buffer : float) :
  grouped_network net auto_identify int_buffer = Some net1 →
  links net1 = links net ∧ node_dict net1 = node_dict net
  ∧ link_dict net1 = link_dict net ∧ max_node_id net1 = max_node_id net.
Proof.
  unfold grouped_network. destruct auto_identify.
  - intros H. destruct (identify_attrs net net1 int_buffer H) as (?&?&?&?&_).
    done.
  - by intros [= <-].
Qed.

Lemma two_elements_length {A : Type} (l : list A) (x y : A) :
  x ∈ l → y ∈ l → x ≠ y → (2 ≤ length l)%nat.
Proof.
  destruct l as [|a [|b l]]; simpl; [by intros ?%elem_of_nil| |lia].
  intros ->%list_elem_of_singleton ->%list_elem_of_singleton. done.
Qed.

(** ** The properties *)

(** X8: the node counter advances by the number of groups of at least two
    nodes, the counter of group identifiers is left alone, and the
    replacement node of the group the loop meets in position [i] carries
    the identifier [max_node_id + i]. *)
Theorem consolidation_counters (round : float → Z → float)
    (lonlat_coord_precision local_coord_precision : Z)
    (net : Network) (auto_identify : bool) (int_buffer : float) :
  wf_network net →
  ∃ net1 net',
    grouped_network net auto_identify int_buffer = Some net1
    ∧ consolidateComplexIntersections round lonlat_coord_precision
        local_coord_precision net auto_identify int_buffer = Some net'
    ∧ max_node_id net'
      = max_node_id net + Z.of_nat (length (consolidated_groups net1))
    ∧ max_main_node_id net' = max_main_node_id net1
    ∧ ∀ i m g, consolidated_groups net1 !! i = Some (m, g) →
        ∃ N, nodes net1 !! N = None
             ∧ main_node_id (node_of net' N) = Some m
             ∧ node_id (node_of net' N) = max_node_id net + Z.of_nat i.
Proof.
  intros Hwf.
  destruct (consolidate_spec round lonlat_coord_precision local_coord_precision
              net auto_identify int_buffer Hwf)
    as (net1 & net' & P & Hnet1 & Hwf1 & Hnet' & Hco).
  destruct (grouped_network_attrs _ _ _ _ Hnet1) as (_ & _ & _ & Hmax).
  exists net1, net'. split_and!; [done..| | |].
  - rewrite (co_max _ _ _ _ _ _ Hco), Hmax.
    by rewrite (co_length _ _ _ _ _ _ Hco).
  - apply (co_max_main _ _ _ _ _ _ Hco).
  - intros i m g Hi. unfold consolidated_groups in Hi.
    rewrite <- (co_order _ _ _ _ _ _ Hco) in Hi.
    apply list_lookup_fmap_Some in Hi as (p & [= -> ->] & Hp).
    destruct (co_new_node_of _ _ _ _ _ _ Hco i p Hp) as (Hnone & Hid & Hmain).
    exists (mg_new p). by rewrite Hid, Hmax.
Qed.

(** X9: the consolidation writes to no node object that exists when it
    starts: every one, those of the merged-away members included, is in
    the store afterwards with all its attributes and link lists; and the
    members of a group of at least two nodes are registered no more. *)
Theorem consolidation_spares_node_objects (round : float → Z → float)
    (lonlat_coord_precision local_coord_precision : Z)
    (net : Network) (auto_identify : bool) (int_buffer : float) :
  wf_network net →
  ∃ net1 net',
    grouped_network net auto_identify int_buffer = Some net1
    ∧ consolidateComplexIntersections round lonlat_coord_precision
        local_coord_precision net auto_identify int_buffer = Some net'
    ∧ (∀ x n, nodes net1 !! x = Some n → nodes net' !! x = Some n)
    ∧ (∀ m r, multi_group net1 m → r ∈ group_of net1 m →
              r ∉ OrderedDict.values (node_dict net')).
Proof.
  intros Hwf.
  destruct (consolidate_spec round lonlat_coord_precision local_coord_precision
              net auto_identify int_buffer Hwf)
    as (net1 & net' & P & Hnet1 & Hwf1 & Hnet' & Hco).
  exists net1, net'. split_and!; [done..| |].
  - intros x n Hn. rewrite <- Hn.
    apply (co_old_nodes _ _ _ _ _ _ Hco). apply elem_of_dom. eauto.
  - intros m r Hm Hr.
    apply (co_member_unregistered _ _ _ _ _ _ Hwf1 Hco).
    apply (co_merged_member _ _ _ _ _ _ Hco). eauto.
Qed.

(** X10: the links that stay keep their order in the link collection, and
    every link keeps its identifier and its length; an endpoint outside
    every group of at least two nodes is left alone, and a link with both
    endpoints in one such group is not written to at all. *)
Theorem consolidation_link_collection (round : float → Z → float)
    (lonlat_coord_precision local_coord_precision : Z)
    (net : Network) (auto_identify : bool) (int_buffer : float) :
  wf_network net →
  ∃ net1 net',
    grouped_network net auto_identify int_buffer = Some net1
    ∧ consolidateComplexIntersections round lonlat_coord_precision
        local_coord_precision net auto_identify int_buffer = Some net'
    ∧ sublist (link_dict net') (link_dict net1)
    ∧ ∀ k l, (k, l) ∈ link_dict net1 →
        link_id (link_of net' l) = k
        ∧ link_length (link_of net' l) = link_length (link_of net1 l)
        ∧ ((¬ ∃ m, multi_group net1 m
                   ∧ from_node (link_of net1 l) ∈ group_of net1 m) →
           from_node (link_of net' l) = from_node (link_of net1 l))
        ∧ ((¬ ∃ m, multi_group net1 m
                   ∧ to_node (link_of net1 l) ∈ group_of net1 m) →
           to_node (link_of net' l) = to_node (link_of net1 l))
        ∧ ((∃ m, multi_group net1 m
                 ∧ from_node (link_of net1 l) ∈ group_of net1 m
                 ∧ to_node (link_of net1 l) ∈ group_of net1 m) →
           link_of net' l = link_of net1 l).
Proof.
  intros Hwf.
  destruct (consolidate_spec round lonlat_coord_precision local_coord_precision
              net auto_identify int_buffer Hwf)
    as (net1 & net' & P & Hnet1 & Hwf1 & Hnet' & Hco).
  exists net1, net'. split_and!; [done..| |].
  - rewrite (co_link_dict _ _ _ _ _ _ Hco). apply sublist_filter.
  - intros k l Hin. rewrite (co_link_of _ _ _ _ _ _ Hco k l Hin).
    destruct (wf_link_registered net1 k l Hwf1 Hin) as [_ Hid].
    split_and!.
    + by rewrite consolidated_link_id.
    + unfold consolidated_link. by destruct (internal P (link_of net1 l)).
    + intros Hno. unfold consolidated_link.
      destruct (internal P (link_of net1 l)); [done|]. simpl.
      apply replacement_not_member.
      by rewrite (co_merged_member _ _ _ _ _ _ Hco).
    + intros Hno. unfold consolidated_link.
      destruct (internal P (link_of net1 l)); [done|]. simpl.
      apply replacement_not_member.
      by rewrite (co_merged_member _ _ _ _ _ _ Hco).
    + intros Hint. apply (co_internal _ _ _ _ _ _ Hco) in Hint.
      unfold consolidated_link. by rewrite Hint.
Qed.

(** X11: the consolidation is idempotent: a second call, without automatic
    identification, returns the network the first call returned. *)
Theorem consolidation_idempotent (round : float → Z → float)
    (lonlat_coord_precision local_coord_precision : Z)
    (net : Network) (auto_identify : bool) (int_buffer int_buffer' : float) :
  wf_network net →
  ∃ net',
    consolidateComplexIntersections round lonlat_coord_precision
      local_coord_precision net auto_identify int_buffer = Some net'
    ∧ consolidateComplexIntersections round lonlat_coord_precision
        local_coord_precision net' false int_buffer' = Some net'.
Proof.
  intros Hwf.
  destruct (consolidate_spec round lonlat_coord_precision local_coord_precision
              net auto_identify int_buffer Hwf)
    as (net1 & net' & P & Hnet1 & Hwf1 & Hnet' & Hco).
  exists net'. split; [done|].
  unfold consolidateComplexIntersections. simpl.
  apply consolidate_groups_short. intros m.
  by apply (co_groups_short _ _ _ _ _ _ Hwf1 Hco).
Qed.

(** X12: with automatic identification, a registered link that passes the
    three tests of the detection (not longer than the threshold, between
    signal-controlled nodes without group identifier) and joins two
    distinct nodes is consolidated away: it leaves the link collection,
    its two endpoints leave the node collection, and a new node carries the
    group identifier minted for them. *)
Theorem auto_consolidation_merges_candidates (round : float → Z → float)
    (lonlat_coord_precision local_coord_precision : Z)
    (net : Network) (int_buffer : float) (k : Z) (l : lref) :
  wf_network net →
  (k, l) ∈ link_dict net →
  candidate_link net int_buffer (link_of net l) = true →
  from_node (link_of net l) ≠ to_node (link_of net l) →
  ∃ net',
    consolidateComplexIntersections round lonlat_coord_precision
      local_coord_precision net true int_buffer = Some net'
    ∧ ((k, l) ∉ link_dict net')
    ∧ (from_node (link_of net l) ∉ OrderedDict.values (node_dict net'))
    ∧ (to_node (link_of net l) ∉ OrderedDict.values (node_dict net'))
    ∧ ∃ N m, nodes net !! N = None
             ∧ max_main_node_id net ≤ m
             ∧ main_node_id (node_of net' N) = Some m.
Proof.
  intros Hwf Hin Hc Hne.
  destruct (consolidate_spec round lonlat_coord_precision local_coord_precision
              net true int_buffer Hwf)
    as (net1 & net' & P & Hnet1 & Hwf1 & Hnet' & Hco).
  simpl in Hnet1.
  destruct (identify_attrs net net1 int_buffer Hnet1) as (Hl & Hnd & Hld & _ & Hall).
  destruct (identify_spec net int_buffer) as (s & net2 & Hs & Hnet2 & _).
  rewrite Hnet1 in Hnet2. injection Hnet2 as <-.
  destruct (candidate_endpoints_active _ _ _ _ _ Hs Hin Hc)
    as (q & g & a & Hq & Ha & Hf & Ht).
  destruct (identify_rank _ _ _ _ _ _ _ _ Hs Hnet1 Hq Ha Hf) as [_ Ef].
  destruct (identify_rank _ _ _ _ _ _ _ _ Hs Hnet1 Hq Ha Ht) as [_ Et].
  set (m := max_main_node_id net + Z.of_nat (active_before (zip s.1 s.2) q)) in *.
  destruct (wf_endpoints net Hwf k l Hin) as (Hfreg & Htreg & _).
  assert (Hfm : from_node (link_of net l) ∈ group_of net1 m).
  { apply group_of_elem. rewrite Hnd, Ef. done. }
  assert (Htm : to_node (link_of net l) ∈ group_of net1 m).
  { apply group_of_elem. rewrite Hnd, Et. done. }
  assert (Hm : multi_group net1 m).
  { by apply (two_elements_length _ _ _ Hfm Htm). }
  assert (Hlk : link_of net1 l = link_of net l).
  { unfold link_of. by rewrite Hl. }
  exists net'. split_and!; [done| | | |].
  - intros [_ Hint]%(co_link_dict_elem _ _ _ _ _ _ Hco).
    apply not_true_iff_false in Hint. apply Hint.
    apply (co_internal _ _ _ _ _ _ Hco). exists m. by rewrite Hlk.
  - apply (co_member_unregistered _ _ _ _ _ _ Hwf1 Hco).
    apply (co_merged_member _ _ _ _ _ _ Hco). eauto.
  - apply (co_member_unregistered _ _ _ _ _ _ Hwf1 Hco).
    apply (co_merged_member _ _ _ _ _ _ Hco). eauto.
  - destruct (co_replacement _ _ _ _ _ _ Hco m Hm)
      as (i & p & Hi & Hmain & _ & Hfresh & _).
    destruct (co_new_node_of _ _ _ _ _ _ Hco i p Hi) as (Hnone & _ & HmainN).
    exists (mg_new p), m. split_and!.
    + destruct (Hall (mg_new p)) as [v Hv]. rewrite Hnone in Hv.
      by destruct (nodes net !! mg_new p).
    + unfold m. lia.
    + by rewrite HmainN, Hmain.
Qed.

(** ** The control type recorded for a group *)

Lemma match_snoc {A B : Type} (f : list A → B) (l : list A) (x : A) :
  match l ++ [x] with [] => None | g => Some (f g) end = Some (f (l ++ [x])).
Proof. by destruct l. Qed.

(** [node_group_ctrl_type_dict] holds, for every group, whether one of its
    members is signal-controlled. *)
Lemma group_steps_ctrl (net : Network) (items : list (Z * nref)) (m : Z) :
  OrderedDict.get m (foldl (group_step net) ([], []) items).2 =
    match filter (λ r, main_node_id (node_of net r) = Some m) items.*2 with
    | [] => None
    | g => Some (existsb (λ r, is_signal (node_of net r)) g)
    end.
Proof.
  revert m. induction items as [|[k r] items IH] using rev_ind; intros m; [done|].
  rewrite foldl_snoc.
  destruct (group_steps_spec net items) as (_ & Hget & _). cbv zeta in Hget.
  set (acc := foldl (group_step net) ([], []) items) in *.
  unfold group_step. cbn [snd].
  rewrite fmap_app. cbn [fmap list_fmap snd].
  rewrite filter_app, filter_cons, filter_nil.
  destruct (main_node_id (node_of net r)) as [m0|] eqn:Hm0.
  - destruct (decide (Some m0 = Some m)) as [[= ->]|Hne].
    + rewrite (match_snoc (existsb (λ r, is_signal (node_of net r)))).
      rewrite existsb_app. simpl. rewrite orb_false_r.
      specialize (Hget m). specialize (IH m).
      destruct (OrderedDict.get m acc.1) as [g|] eqn:Hg;
        destruct (is_signal (node_of net r)) eqn:Hsig; cbn [fst snd];
        rewrite ?od_get_set, ?decide_True by done;
        rewrite ?orb_true_r, ?orb_false_r; try done.
      * rewrite IH. by destruct (filter _ items.*2).
      * by destruct (filter _ items.*2).
    + rewrite app_nil_r.
      assert (m ≠ m0) by congruence.
      destruct (OrderedDict.get m0 acc.1) as [g|];
        destruct (is_signal (node_of net r)); cbn [fst snd];
        rewrite ?od_get_set, ?decide_False by done; apply IH.
  - rewrite decide_False by done. rewrite app_nil_r. apply IH.
Qed.

Lemma group_nodes_ctrl (net : Network) (m : Z) :
  group_of net m ≠ [] →
  OrderedDict.get m (group_nodes net).2
  = Some (existsb (λ r, is_signal (node_of net r)) (group_of net m)).
Proof.
  intros Hne. unfold group_nodes. rewrite group_steps_ctrl.
  fold (OrderedDict.values (node_dict net)). fold (group_of net m).
  by destruct (group_of net m).
Qed.

(** ** The replacement node under construction *)

(** A node with more links at the end of a link list. *)
Definition extend_incoming (ls : list lref) (n : Node) : Node :=
  {| node_id := node_id n; osm_node_id := osm_node_id n;
     osm_highway := osm_highway n; ctrl_type := ctrl_type n;
     geometry := geometry n; geometry_xy := geometry_xy n;
     main_node_id := main_node_id n;
     incoming_link_list := incoming_link_list n ++ ls;
     outgoing_link_list := outgoing_link_list n |}.

Definition extend_outgoing (ls : list lref) (n : Node) : Node :=
  {| node_id := node_id n; osm_node_id := osm_node_id n;
     osm_highway := osm_highway n; ctrl_type := ctrl_type n;
     geometry := geometry n; geometry_xy := geometry_xy n;
     main_node_id := main_node_id n;
     incoming_link_list := incoming_link_list n;
     outgoing_link_list := outgoing_link_list n ++ ls |}.

Lemma push_all_incoming (ls : list lref) (n : Node) :
  foldl (λ n l, push_incoming l n) n ls = extend_incoming ls n.
Proof.
  revert n. induction ls as [|l ls IH]; intros n.
  - destruct n. unfold extend_incoming. simpl. by rewrite app_nil_r.
  - cbn [foldl]. rewrite IH. unfold extend_incoming, push_incoming. simpl.
    by rewrite <- app_assoc.
Qed.

Lemma push_all_outgoing (ls : list lref) (n : Node) :
  foldl (λ n l, push_outgoing l n) n ls = extend_outgoing ls n.
Proof.
  revert n. induction ls as [|l ls IH]; intros n.
  - destruct n. unfold extend_outgoing. simpl. by rewrite app_nil_r.
  - cbn [foldl]. rewrite IH. unfold extend_outgoing, push_outgoing. simpl.
    by rewrite <- app_assoc.
Qed.

Section RewireNode.
Variables (test : Link → nref) (upd : nref → Link → Link)
  (push : lref → Node → Node).
Hypothesis test_upd : ∀ r lk, test (upd r lk) = test lk.
Variables (G : list nref) (N : nref).

(** The new node after a rewiring loop: it was handed, in order, the links
    that failed the membership test. *)
Lemma rewire_loop_node (ls : list lref) (c : Consolidation) :
  nodes (cnet (foldl (rewire test upd push G N) c ls)) !! N =
    (λ n, foldl (λ n l, push l n) n
            (filter (λ l, test (link_of (cnet c) l) ∉ G) ls))
      <$> nodes (cnet c) !! N.
Proof.
  revert c. induction ls as [|l ls IH]; intros c.
  - simpl. by destruct (nodes (cnet c) !! N).
  - cbn [foldl]. rewrite IH, filter_cons.
    rewrite (filter_ext_elem
               (λ l0, test (link_of (cnet (rewire test upd push G N c l)) l0) ∉ G)
               (λ l0, test (link_of (cnet c) l0) ∉ G)).
    2:{ intros l0 _. by rewrite (rewire_test test upd push test_upd). }
    unfold rewire at 1. case_bool_decide as Ht.
    + rewrite decide_False by tauto. done.
    + rewrite decide_True by done. simpl. rewrite lookup_alter_eq.
      by destruct (nodes (cnet c) !! N).
Qed.
End RewireNode.

(** The new node once the members [M] of its group have been processed:
    it holds the links that the members' lists held and that come from, or
    lead to, a node outside the group, and the highway tag of the last
    member. *)
Definition member_node (net : Network) (G M : list nref) (n1 : Node) : Node :=
  {| node_id := node_id n1; osm_node_id := osm_node_id n1;
     osm_highway := match last M with
                    | Some r => osm_highway (node_of net r)
                    | None => osm_highway n1
                    end;
     ctrl_type := ctrl_type n1;
     geometry := geometry n1; geometry_xy := geometry_xy n1;
     main_node_id := main_node_id n1;
     incoming_link_list :=
       incoming_link_list n1
       ++ filter (λ l, from_node (link_of net l) ∉ G)
            (M ≫= λ r, incoming_link_list (node_of net r));
     outgoing_link_list :=
       outgoing_link_list n1
       ++ filter (λ l, to_node (link_of net l) ∉ G)
            (M ≫= λ r, outgoing_link_list (node_of net r)) |}.

Lemma member_node_nil (net : Network) (G : list nref) (n1 : Node) :
  member_node net G [] n1 = n1.
Proof. destruct n1. unfold member_node. simpl. by rewrite !app_nil_r. Qed.

Section MemberNode.
Variables (G : list nref) (N : nref) (cS : Consolidation) (n1 : Node).
Hypothesis N_fresh : N ∉ G.
Hypothesis adj_in : ∀ r l,
  r ∈ G → l ∈ incoming_link_list (node_of (cnet cS) r) →
  to_node (link_of (cnet cS) l) = r.
Hypothesis adj_out : ∀ r l,
  r ∈ G → l ∈ outgoing_link_list (node_of (cnet cS) r) →
  from_node (link_of (cnet cS) l) = r.

Lemma member_step_node (M : list nref) (c c' : Consolidation) (s s' : Sums)
    (r : nref) :
  r ∈ G → members_done G N cS M c →
  nodes (cnet c) !! N = Some (member_node (cnet cS) G M n1) →
  member_step G N (c, s) r = Some (c', s') →
  nodes (cnet c') !! N = Some (member_node (cnet cS) G (M ++ [r]) n1).
Proof.
  intros Hr Hmd HN Hstep.
  assert (HrN : r ≠ N) by (intros ->; done).
  pose proof (md_links _ _ _ _ _ Hmd) as Hlinks.
  pose proof (md_nodes _ _ _ _ _ Hmd) as Hnodes.
  unfold member_step in Hstep. cbn [fst snd] in Hstep.
  set (c0 := mark_node r c) in *.
  assert (Hnodes0 : nodes_frame N cS c0) by done.
  rewrite (node_of_frame N cS c0 r Hnodes0 HrN) in Hstep.
  destruct (geometry (node_of (cnet cS) r)) as [g|]; [|done].
  destruct (geometry_xy (node_of (cnet cS) r)) as [gxy|]; [|done].
  cbn [mbind option_bind] in Hstep.
  rewrite rewire_incoming_rewire, rewire_outgoing_rewire in Hstep.
  set (lsin := incoming_link_list (node_of (cnet cS) r)) in *.
  set (c1 := foldl (rewire from_node set_to_node push_incoming G N) c0 lsin) in *.
  assert (Hnodes1 : nodes_frame N cS c1).
  { eapply nodes_frame_trans; [exact Hnodes0|].
    by apply rewire_loop_nodes. }
  rewrite (node_of_frame N cS c1 r Hnodes1 HrN) in Hstep.
  set (lsout := outgoing_link_list (node_of (cnet cS) r)) in *.
  set (c2 := foldl (rewire to_node set_from_node push_outgoing G N) c1 lsout) in *.
  assert (Hnodes2 : nodes_frame N cS c2).
  { eapply nodes_frame_trans; [exact Hnodes1|].
    by apply rewire_loop_nodes. }
  rewrite (node_of_frame N cS c2 r Hnodes2 HrN) in Hstep.
  injection Hstep as <- _.
  assert (Hfrom0 : ∀ l, l ∈ lsin →
    from_node (link_of (cnet c0) l) = from_node (link_of (cnet cS) l)).
  { intros l Hl. change (cnet c0) with (cnet c).
    rewrite (link_of_fmap _ _ _ _ (Hlinks l)).
    destruct (links (cnet cS) !! l); [|done]. simpl.
    rewrite (adj_in r l Hr Hl), (bool_decide_eq_true_2 _ Hr).
    by rewrite andb_false_r. }
  assert (Hto1 : ∀ l, l ∈ lsout →
    to_node (link_of (cnet c1) l) = to_node (link_of (cnet cS) l)).
  { intros l Hl.
    assert (E : links (cnet c1) !! l = links (cnet c) !! l).
    { unfold c1. rewrite rewire_loop_links by done.
      rewrite decide_False; [done|]. intros [Hl' Hno]. apply Hno.
      rewrite (Hfrom0 l Hl'), (adj_out r l Hr Hl). done. }
    unfold link_of at 1. rewrite lookup_total_alt, E.
    fold (link_of (cnet c) l). rewrite <- lookup_total_alt.
    fold (link_of (cnet c) l).
    rewrite (link_of_fmap _ _ _ _ (Hlinks l)).
    destruct (links (cnet cS) !! l); [|done]. simpl.
    rewrite (adj_out r l Hr Hl), (bool_decide_eq_true_2 _ Hr).
    by rewrite andb_false_r. }
  cbn [cnet upd_cnet nodes upd_nodes]. rewrite lookup_alter_eq.
  unfold c2. rewrite (rewire_loop_node to_node set_from_node push_outgoing)
    by done.
  unfold c1. rewrite (rewire_loop_node from_node set_to_node push_incoming)
    by done.
  change (nodes (cnet c0)) with (nodes (cnet c)). rewrite HN.
  cbn [fmap option_fmap option_map]. f_equal.
  rewrite push_all_incoming, push_all_outgoing.
  rewrite (filter_ext_elem (λ l, from_node (link_of (cnet c0) l) ∉ G)
             (λ l, from_node (link_of (cnet cS) l) ∉ G) lsin)
    by (intros l Hl; by rewrite (Hfrom0 l Hl)).
  fold c1.
  rewrite (filter_ext_elem (λ l, to_node (link_of (cnet c1) l) ∉ G)
             (λ l, to_node (link_of (cnet cS) l) ∉ G) lsout)
    by (intros l Hl; by rewrite (Hto1 l Hl)).
  unfold member_node, set_osm_highway, extend_outgoing, extend_incoming.
  cbn [node_id osm_node_id osm_highway ctrl_type geometry geometry_xy
       main_node_id incoming_link_list outgoing_link_list].
  rewrite last_snoc, !bind_app, !filter_app. cbn [mbind list_bind].
  rewrite !app_nil_r, <- !app_assoc. done.
Qed.

Lemma member_loop_node (R M : list nref) (c : Consolidation) (s s' : Sums) :
  (∀ r, r ∈ R → r ∈ G) → members_done G N cS M c →
  nodes (cnet c) !! N = Some (member_node (cnet cS) G M n1) →
  fold_opt (add_member (cnet cS)) s R = Some s' →
  ∃ c', fold_opt (member_step G N) (c, s) R = Some (c', s')
        ∧ members_done G N cS (M ++ R) c'
        ∧ nodes (cnet c') !! N = Some (member_node (cnet cS) G (M ++ R) n1).
Proof.
  revert M c s. induction R as [|r R IH]; intros M c s HR HM HN Hs.
  - simpl in *. injection Hs as <-. exists c. by rewrite app_nil_r.
  - simpl in Hs. destruct (add_member (cnet cS) s r) as [s1|] eqn:Hs1; [|done].
    simpl in Hs.
    destruct (member_step_spec G N cS N_fresh adj_in adj_out M c s s1 r)
      as (c1 & Hc1 & HM1); [apply HR, list_elem_of_here|done|done|].
    pose proof (member_step_node M c c1 s s1 r
                  (HR r (list_elem_of_here _ _)) HM HN Hc1) as HN1.
    destruct (IH (M ++ [r]) c1 s1) as (c' & Hc' & HM' & HN'); [|done..|].
    { intros r' Hr'. by apply HR, list_elem_of_further. }
    exists c'. cbn [fold_opt]. rewrite Hc1. simpl.
    by rewrite <- app_assoc in HM', HN'.
Qed.
End MemberNode.

(** ** The attributes of a replacement node *)

(** Whether a member of the group is signal-controlled. *)
Definition group_signal (net : Network) (G : list nref) : bool :=
  existsb (λ r, is_signal (node_of net r)) G.

(** The links that the lists [sel] of the members of [G] hold and whose
    other end, [far], lies outside [G], in the order in which the loops
    over the members and over their lists meet them. *)
Definition boundary_links (net : Network) (sel : Node → list lref)
    (far : Link → nref) (G : list nref) : list lref :=
  filter (λ l, far (link_of net l) ∉ G) (G ≫= λ r, sel (node_of net r)).

(** What the consolidation leaves in the node that replaces the group of
    the identifier [m] of the network [net]. *)
Record replacement_attrs (net : Network) (m : Z) (n : Node) : Prop := {
  ra_main : main_node_id n = Some m;
  ra_ctrl : ctrl_type n =
    if group_signal net (group_of net m) then Some "signal"%string
    else ctrl_type (Node_init 0);
  ra_osm : osm_node_id n =
    join_underscore ((λ r, osm_node_id (node_of net r)) <$> group_of net m);
  ra_highway : osm_highway n =
    match last (group_of net m) with
    | Some r => osm_highway (node_of net r)
    | None => None
    end;
  ra_incoming : incoming_link_list n =
    boundary_links net incoming_link_list from_node (group_of net m);
  ra_outgoing : outgoing_link_list n =
    boundary_links net outgoing_link_list to_node (group_of net m)
}.

Lemma bind_ext_elem {A B : Type} (f g : A → list B) (l : list A) :
  (∀ x, x ∈ l → f x = g x) → l ≫= f = l ≫= g.
Proof.
  induction l as [|x l IH]; intros H; [done|]. cbn [mbind list_bind].
  rewrite (H x (list_elem_of_here _ _)). f_equal.
  apply IH. intros y Hy. by apply H, list_elem_of_further.
Qed.

(** The entries under which the replacement nodes of the groups [P] are
    registered, the first one under the identifier [base]. *)
Fixpoint new_entries (base : Z) (P : list Merged) : list (Z * nref) :=
  match P with
  | [] => []
  | p :: P' => (base, mg_new p) :: new_entries (base + 1) P'
  end.

(** [network.node_dict[k] = v], entry after entry. *)
Definition register_all (d : odict Z nref) (kvs : list (Z * nref))
    : odict Z nref :=
  foldl (λ d kv, OrderedDict.set kv.1 kv.2 d) d kvs.

Lemma od_set_absent {K V : Type} `{EqDecision K} (k : K) (v : V)
    (d : list (K * V)) :
  k ∉ OrderedDict.keys d → OrderedDict.set k v d = d ++ [(k, v)].
Proof.
  unfold OrderedDict.keys. induction d as [|[k1 v1] d IH]; simpl; [done|].
  rewrite not_elem_of_cons. intros [Hne Hk].
  rewrite decide_False by done. by rewrite IH.
Qed.

Lemma new_entries_keys (base : Z) (P : list Merged) (k : Z) :
  k ∈ (new_entries base P).*1 ↔ base ≤ k < base + Z.of_nat (length P).
Proof.
  revert base. induction P as [|p P IH]; intros base; simpl.
  - split; [by intros ?%elem_of_nil|lia].
  - rewrite elem_of_cons, IH. lia.
Qed.

Lemma new_entries_lookup (base : Z) (P : list Merged) (i : nat) :
  new_entries base P !! i = (λ p, (base + Z.of_nat i, mg_new p)) <$> P !! i.
Proof.
  revert base i. induction P as [|p P IH]; intros base [|i]; simpl; try done.
  - do 2 f_equal. lia.
  - rewrite IH. destruct (P !! i); simpl; [|done]. do 2 f_equal. lia.
Qed.

(** Registering under identifiers that are not in use appends. *)
Lemma register_all_fresh (d : odict Z nref) (base : Z) (P : list Merged) :
  (∀ i, (i < length P)%nat → base + Z.of_nat i ∉ OrderedDict.keys d) →
  register_all d (new_entries base P) = d ++ new_entries base P.
Proof.
  revert d base. induction P as [|p P IH]; intros d base Hfresh.
  - simpl. by rewrite app_nil_r.
  - cbn [new_entries]. unfold register_all. cbn [foldl fst snd].
    rewrite od_set_absent.
    2:{ specialize (Hfresh 0%nat). rewrite Z.add_0_r in Hfresh.
        apply Hfresh. simpl. lia. }
    fold (register_all (d ++ [(base, mg_new p)]) (new_entries (base + 1) P)).
    rewrite IH; [by rewrite <- app_assoc|].
    intros i Hi. unfold OrderedDict.keys. rewrite fmap_app.
    rewrite elem_of_app. intros [Hin|Hin].
    + apply (Hfresh (S i)); [simpl; lia|].
      by replace (base + Z.of_nat (S i)) with (base + 1 + Z.of_nat i) by lia.
    + simpl in Hin. apply list_elem_of_singleton in Hin. lia.
Qed.

Section ConsolidateNode.
Variable round : float → Z → float.
Variables lonlat_coord_precision local_coord_precision : Z.
Variable net0 : Network.
Hypothesis Hwf : wf_network net0.

(** One group: the store changes at the new node only, which ends with
    the attributes of the replacement node and is registered under the
    node counter. *)
Lemma process_group_node (ctrl : odict Z bool) (P : list Merged)
    (c c' : Consolidation) (m : Z) (signal : bool) :
  groups_done round lonlat_coord_precision local_coord_precision net0 P c →
  (2 ≤ length (group_of net0 m))%nat →
  (∀ p, p ∈ P → mg_main p ≠ m) →
  OrderedDict.get m ctrl = Some signal →
  process_group round lonlat_coord_precision local_coord_precision ctrl c
    (m, group_of net0 m) = Some c' →
  (∀ x, x ≠ fresh (dom (nodes (cnet c))) →
        nodes (cnet c') !! x = nodes (cnet c) !! x)
  ∧ (∃ n, nodes (cnet c') !! fresh (dom (nodes (cnet c))) = Some n
          ∧ main_node_id n = Some m
          ∧ ctrl_type n = (if signal then Some "signal"%string
                           else ctrl_type (Node_init 0))
          ∧ osm_node_id n =
              join_underscore
                ((λ r, osm_node_id (node_of net0 r)) <$> group_of net0 m)
          ∧ osm_highway n =
              match last (group_of net0 m) with
              | Some r => osm_highway (node_of net0 r)
              | None => None
              end
          ∧ incoming_link_list n =
              boundary_links net0 incoming_link_list from_node (group_of net0 m)
          ∧ outgoing_link_list n =
              boundary_links net0 outgoing_link_list to_node (group_of net0 m))
  ∧ node_dict (cnet c')
    = OrderedDict.set (max_node_id net0 + Z.of_nat (length P))
        (fresh (dom (nodes (cnet c)))) (node_dict (cnet c)).
Proof.
  intros Hgd Hlen Hmain Hsig Hproc.
  set (G := group_of net0 m) in *. set (N := fresh (dom (nodes (cnet c)))) in *.
  assert (HN : N ∉ dom (nodes (cnet c))) by apply is_fresh.
  assert (HN0 : N ∉ dom (nodes net0)).
  { rewrite (gd_dom _ _ _ _ _ _ Hgd) in HN. set_solver. }
  assert (HGdom : ∀ r, r ∈ G → r ∈ dom (nodes net0)).
  { intros r Hr.
    destruct (group_member_registered net0 Hwf m r Hr) as (_ & H & _).
    apply elem_of_dom. eauto. }
  assert (HNG : N ∉ G) by (intros H; by apply HGdom in H).
  assert (Hdisj : ∀ r, r ∈ G → ¬ merged_member P r).
  { intros r Hr (p & Hp & Hrp)%merged_member_iff.
    destruct (gd_members _ _ _ _ _ _ Hgd p Hp) as [E _]. rewrite E in Hrp.
    apply (Hmain p Hp). by eapply group_of_disjoint. }
  assert (HnewG : ∀ p, p ∈ P → mg_new p ∉ G).
  { intros p Hp H. apply HGdom in H.
    by apply (gd_new_fresh _ _ _ _ _ _ Hgd p). }
  unfold process_group in Hproc. cbn [fst snd] in Hproc.
  fold G N in Hproc.
  rewrite bool_decide_eq_false_2 in Hproc by lia.
  rewrite Hsig in Hproc. cbn [mbind option_bind] in Hproc.
  set (n1 := if signal
             then set_ctrl_type (Some "signal"%string)
                    (set_main_node_id (Some m) (Node_init (max_node_id (cnet c))))
             else set_main_node_id (Some m) (Node_init (max_node_id (cnet c))))
    in *.
  set (cS := upd_cnet (upd_nodes (insert N n1)) c) in *.
  assert (HcS_old : ∀ r, r ∈ dom (nodes net0) →
            nodes (cnet cS) !! r = nodes net0 !! r).
  { intros r Hr. simpl. rewrite lookup_insert_ne by (intros ->; done).
    by apply (gd_old_nodes _ _ _ _ _ _ Hgd). }
  assert (HcS_node : ∀ r, r ∈ G → node_of (cnet cS) r = node_of net0 r).
  { intros r Hr. unfold node_of. rewrite !lookup_total_alt.
    by rewrite HcS_old by auto. }
  assert (HcS_link : ∀ k l, (k, l) ∈ link_dict net0 →
            link_of (cnet cS) l = consolidated_link P (link_of net0 l)).
  { intros k l Hin. unfold link_of at 1. simpl.
    by rewrite (lookup_total_correct _ _ _ (gd_links _ _ _ _ _ _ Hgd k l Hin)). }
  assert (adj_in : ∀ r l, r ∈ G →
            l ∈ incoming_link_list (node_of (cnet cS) r) →
            to_node (link_of (cnet cS) l) = r).
  { intros r l Hr Hl. rewrite (HcS_node r Hr) in Hl.
    destruct (group_member_registered net0 Hwf m r Hr) as (Hreg & _).
    destruct (wf_incoming net0 Hwf r l Hreg Hl) as [[k Hk]%values_elem Hto].
    rewrite (HcS_link k l Hk), consolidated_link_to; rewrite Hto; auto. }
  assert (adj_out : ∀ r l, r ∈ G →
            l ∈ outgoing_link_list (node_of (cnet cS) r) →
            from_node (link_of (cnet cS) l) = r).
  { intros r l Hr Hl. rewrite (HcS_node r Hr) in Hl.
    destruct (group_member_registered net0 Hwf m r Hr) as (Hreg & _).
    destruct (wf_outgoing net0 Hwf r l Hreg Hl) as [[k Hk]%values_elem Hfrom].
    rewrite (HcS_link k l Hk), consolidated_link_from; rewrite Hfrom; auto. }
  destruct (add_members_spec net0 G Sums_init)
    as (pts & ptsxy & Hpts & Hptsxy & Hsums).
  { intros r Hr. destruct (group_member_registered net0 Hwf m r Hr) as (Hreg & _).
    destruct (wf_attributes net0 Hwf r Hreg) as (? & ? & _). done. }
  assert (Hsums' : fold_opt (add_member (cnet cS)) Sums_init G
                   = fold_opt (add_member net0) Sums_init G).
  { apply fold_opt_ext. intros a r Hr. unfold add_member.
    by rewrite (HcS_node r Hr). }
  rewrite <- Hsums' in Hsums.
  assert (HNS : nodes (cnet cS) !! N = Some (member_node (cnet cS) G [] n1)).
  { rewrite member_node_nil. simpl. by rewrite lookup_insert_eq. }
  edestruct (member_loop_node G N cS n1 HNG adj_in adj_out G [] cS Sums_init)
    as (c1 & Hfold & Hmd & HN1);
    [done|apply members_done_nil|exact HNS|exact Hsums|].
  cbn [app] in Hmd, HN1.
  rewrite Hfold in Hproc.
  cbn [mbind option_bind fst snd osm_node_id_list
    x_coord_sum y_coord_sum x_coord_xy_sum y_coord_xy_sum] in Hproc.
  destruct (join_underscore
              (osm_node_id_list Sums_init
               ++ ((λ r, osm_node_id (node_of net0 r)) <$> G)))
    as [osm|] eqn:Hosm; [|done].
  cbn [mbind option_bind] in Hproc. injection Hproc as <-.
  destruct Hmd as [_ _ Hnodes Hreg _].
  split_and!.
  - intros x Hx. simpl. rewrite lookup_alter_ne by done.
    destruct Hnodes as [Hn _]. rewrite Hn by done. simpl.
    by rewrite lookup_insert_ne.
  - eexists. split; [simpl; by rewrite lookup_alter_eq, HN1|].
    unfold set_identity, member_node.
    cbn [node_id osm_node_id osm_highway ctrl_type geometry geometry_xy
         main_node_id incoming_link_list outgoing_link_list].
    assert (Elists : incoming_link_list n1 = [] ∧ outgoing_link_list n1 = []
                     ∧ main_node_id n1 = Some m
                     ∧ ctrl_type n1 = (if signal then Some "signal"%string
                                       else ctrl_type (Node_init 0))).
    { unfold n1. by destruct signal. }
    destruct Elists as (-> & -> & -> & ->). cbn [app].
    split_and!; [done..| | |].
    + destruct (last G) as [r|] eqn:Hlast.
      * rewrite HcS_node; [done|].
        apply last_Some in Hlast as [G' ->]. set_solver.
      * apply last_None in Hlast. rewrite Hlast in Hlen. simpl in Hlen. lia.
    + unfold boundary_links.
      rewrite (bind_ext_elem
                 (λ r, incoming_link_list (node_of (cnet cS) r))
                 (λ r, incoming_link_list (node_of net0 r)))
        by (intros r Hr; by rewrite HcS_node).
      apply filter_ext_elem. intros l (r & Hl & Hr)%list_elem_of_bind.
      destruct (group_member_registered net0 Hwf m r Hr) as (Hreg' & _).
      destruct (wf_incoming net0 Hwf r l Hreg' Hl) as [[k Hk]%values_elem _].
      rewrite (HcS_link k l Hk).
      by rewrite consolidated_from_in.
    + unfold boundary_links.
      rewrite (bind_ext_elem
                 (λ r, outgoing_link_list (node_of (cnet cS) r))
                 (λ r, outgoing_link_list (node_of net0 r)))
        by (intros r Hr; by rewrite HcS_node).
      apply filter_ext_elem. intros l (r & Hl & Hr)%list_elem_of_bind.
      destruct (group_member_registered net0 Hwf m r Hr) as (Hreg' & _).
      destruct (wf_outgoing net0 Hwf r l Hreg' Hl) as [[k Hk]%values_elem _].
      rewrite (HcS_link k l Hk).
      by rewrite consolidated_to_in.
  - cbn [cnet upd_cnet node_dict]. f_equal.
    + unfold node_of. cbn [nodes upd_nodes].
      rewrite lookup_total_alt, lookup_alter_eq, HN1.
      unfold member_node, set_identity.
      cbn [fmap option_fmap option_map default from_option node_id].
      assert (node_id n1 = max_node_id (cnet c)) as ->
        by (unfold n1; by destruct signal).
      apply (gd_max _ _ _ _ _ _ Hgd).
    + cbn [upd_nodes node_dict]. by destruct Hreg as (-> & _).
Qed.

(** The nodes that the loop has created are replacement nodes, each with
    the attributes of the group whose identifier it carries. *)
Definition new_nodes_done (c : Consolidation) : Prop :=
  ∀ N n, nodes (cnet c) !! N = Some n → nodes net0 !! N = None →
    ∃ m, multi_group net0 m ∧ replacement_attrs net0 m n.

Lemma process_groups_node (gl : list (Z * list nref)) (P : list Merged)
    (c c' : Consolidation) :
  groups_done round lonlat_coord_precision local_coord_precision net0 P c →
  new_nodes_done c →
  NoDup gl.*1 →
  (∀ m g, (m, g) ∈ gl →
     g = group_of net0 m ∧ g ≠ [] ∧ ∀ p, p ∈ P → mg_main p ≠ m) →
  fold_opt (process_group round lonlat_coord_precision local_coord_precision
              (group_nodes net0).2) c gl = Some c' →
  ∃ P',
    groups_done round lonlat_coord_precision local_coord_precision net0
      (P ++ P') c'
    ∧ (λ p, (mg_main p, mg_members p)) <$> P'
      = filter (λ item, (2 ≤ length item.2)%nat) gl
    ∧ new_nodes_done c'
    ∧ node_dict (cnet c')
      = register_all (node_dict (cnet c))
          (new_entries (max_node_id net0 + Z.of_nat (length P)) P').
Proof.
  revert P c. induction gl as [|[m g] gl IH]; intros P c Hgd Hnew Hnd Hgl Hfold.
  - simpl in Hfold. injection Hfold as <-. exists []. rewrite app_nil_r.
    by split_and!.
  - rewrite fmap_cons in Hnd. apply NoDup_cons in Hnd as [Hm Hnd].
    destruct (Hgl m g (list_elem_of_here _ _)) as (-> & Hne & Hmain).
    cbn [fold_opt] in Hfold. rewrite filter_cons. cbn [snd].
    destruct (decide (2 ≤ length (group_of net0 m))%nat) as [Hlen|Hlen].
    + pose proof (group_nodes_ctrl net0 m Hne) as Hctrl.
      destruct (process_group_spec round lonlat_coord_precision
                  local_coord_precision net0 Hwf (group_nodes net0).2 P c m
                  Hgd Hlen Hmain) as (c1 & Hc1 & Hgd1); [by rewrite Hctrl|].
      rewrite Hc1 in Hfold. cbn [mbind option_bind] in Hfold.
      destruct (process_group_node (group_nodes net0).2 P c c1 m _
                  Hgd Hlen Hmain Hctrl Hc1)
        as (Hframe & (n & Hn & Hn1 & Hn2 & Hn3 & Hn4 & Hn5 & Hn6) & Hdict).
      set (N := fresh (dom (nodes (cnet c)))) in *.
      assert (Hnew1 : new_nodes_done c1).
      { intros N' n' HN' Hnone. destruct (decide (N' = N)) as [->|HneN].
        - exists m. split; [done|]. rewrite Hn in HN'. injection HN' as <-.
          by split.
        - rewrite (Hframe N' HneN) in HN'. by apply (Hnew N' n'). }
      destruct (IH _ c1 Hgd1 Hnew1 Hnd) as (P' & Hgd' & HP' & Hnew' & Hdict');
        [|done|].
      { intros m' g' Hin.
        destruct (Hgl m' g' (list_elem_of_further _ _ _ Hin)) as (Hg' & Hc & Hp).
        split_and!; [done..|].
        intros p [Hp'|Hp']%elem_of_app; [by apply Hp|].
        apply list_elem_of_singleton in Hp'. subst p. simpl.
        intros ->. apply Hm. apply list_elem_of_fmap. by exists (m', g'). }
      exists (mkMerged m (group_of net0 m) N :: P').
      split_and!.
      * by rewrite <- app_assoc in Hgd'.
      * rewrite fmap_cons. simpl. by rewrite HP'.
      * done.
      * rewrite Hdict', Hdict. cbn [new_entries]. unfold register_all.
        cbn [foldl fst snd mg_new]. do 2 f_equal.
        rewrite length_app. simpl. lia.
    + rewrite process_group_short in Hfold by lia.
      cbn [mbind option_bind] in Hfold.
      destruct (IH P c Hgd Hnew Hnd) as (P' & Hgd' & HP' & Hnew' & Hdict');
        [|done|].
      { intros m' g' Hin. apply (Hgl m' g'). by apply list_elem_of_further. }
      by exists P'.
Qed.

(** The consolidation as a whole, with the replacement nodes and the order
    of the node collection. *)
Lemma consolidate_groups_node :
  ∃ net' P,
    consolidate_groups round lonlat_coord_precision local_coord_precision net0
      = Some net'
    ∧ consolidated round lonlat_coord_precision local_coord_precision net0 P
        net'
    ∧ (∀ N n, nodes net' !! N = Some n → nodes net0 !! N = None →
         ∃ m, multi_group net0 m ∧ replacement_attrs net0 m n)
    ∧ node_dict net'
      = filter (λ kv, kv.1 ∉ merged_ids net0 P)
          (register_all (node_dict net0) (new_entries (max_node_id net0) P)).
Proof.
  destruct (group_nodes_spec net0) as (Hnd & Hgl & Hctrl).
  destruct (process_groups_spec round lonlat_coord_precision
              local_coord_precision net0 Hwf
              (group_nodes net0).2 (group_nodes net0).1 []
              (mkConsolidation net0 ∅ ∅)
              (groups_done_nil round lonlat_coord_precision
                 local_coord_precision net0 Hwf) Hnd)
    as (c & P0 & Hc & _ & _).
  { intros m g Hin. split_and!.
    - by apply Hgl.
    - by eapply Hctrl.
    - intros p Hp. by apply elem_of_nil in Hp. }
  destruct (process_groups_node (group_nodes net0).1 []
              (mkConsolidation net0 ∅ ∅) c)
    as (P & Hgd & HP & Hnew & Hdict); [| |done| |done|].
  { apply groups_done_nil. exact Hwf. }
  { intros N n HN Hnone. simpl in HN. congruence. }
  { intros m g Hin. apply Hgl in Hin as [-> Hne]. split_and!; [done..|].
    intros p Hp. by apply elem_of_nil in Hp. }
  cbn [app] in Hgd. simpl in Hdict. rewrite Z.add_0_r in Hdict.
  destruct (deletion_spec round lonlat_coord_precision local_coord_precision
              net0 Hwf c P Hgd HP) as (Hdel_nodes & Hdel_links & Hco).
  unfold consolidate_groups. rewrite Hc. cbn [mbind option_bind].
  rewrite Hdel_nodes. cbn [mbind option_bind].
  rewrite Hdel_links. cbn [mbind option_bind].
  eexists _, P. split; [reflexivity|]. split; [exact Hco|].
  split; [exact Hnew|]. cbn [node_dict]. by rewrite Hdict.
Qed.
End ConsolidateNode.

Lemma consolidate_node_spec (round : float → Z → float)
    (lonlat_coord_precision local_coord_precision : Z)
    (net : Network) (auto_identify : bool) (int_buffer : float) :
  wf_network net →
  ∃ net1 net' P,
    grouped_network net auto_identify int_buffer = Some net1
    ∧ wf_network net1
    ∧ consolidateComplexIntersections round lonlat_coord_precision
        local_coord_precision net auto_identify int_buffer = Some net'
    ∧ consolidated round lonlat_coord_precision local_coord_precision net1 P
        net'
    ∧ (∀ N n, nodes net' !! N = Some n → nodes net1 !! N = None →
         ∃ m, multi_group net1 m ∧ replacement_attrs net1 m n)
    ∧ node_dict net'
      = filter (λ kv, kv.1 ∉ merged_ids net1 P)
          (register_all (node_dict net1) (new_entries (max_node_id net1) P)).
Proof.
  intros Hwf. unfold consolidateComplexIntersections, grouped_network.
  destruct auto_identify.
  - destruct (identify_spec net int_buffer) as (s & net1 & _ & Hnet1 & _).
    pose proof (identify_wf net net1 int_buffer Hwf Hnet1) as Hwf1.
    destruct (consolidate_groups_node round lonlat_coord_precision
                local_coord_precision net1 Hwf1)
      as (net' & P & Hnet' & Hco & Hnew & Hdict).
    exists net1, net', P. rewrite Hnet1. by split_and!.
  - destruct (consolidate_groups_node round lonlat_coord_precision
                local_coord_precision net Hwf)
      as (net' & P & Hnet' & Hco & Hnew & Hdict).
    exists net, net', P. by split_and!.
Qed.

(** The replacement node of a group, with its attributes. *)
Lemma consolidate_replacement_attrs (round : float → Z → float)
    (lonlat_coord_precision local_coord_precision : Z)
    (net : Network) (auto_identify : bool) (int_buffer : float) :
  wf_network net →
  ∃ net1 net',
    grouped_network net auto_identify int_buffer = Some net1
    ∧ wf_network net1
    ∧ consolidateComplexIntersections round lonlat_coord_precision
        local_coord_precision net auto_identify int_buffer = Some net'
    ∧ ∀ m, multi_group net1 m →
        ∃ N, nodes net1 !! N = None
             ∧ replacement_attrs net1 m (node_of net' N).
Proof.
  intros Hwf.
  destruct (consolidate_node_spec round lonlat_coord_precision
              local_coord_precision net auto_identify int_buffer Hwf)
    as (net1 & net' & P & Hnet1 & Hwf1 & Hnet' & Hco & Hnew & _).
  exists net1, net'. split_and!; [done..|]. intros m Hm.
  destruct (co_replacement _ _ _ _ _ _ Hco m Hm)
    as (i & p & Hi & Hmain & _ & _ & _).
  destruct (co_new_node _ _ _ _ _ _ Hco i p Hi) as (n & Hn & _ & Hmain' & _).
  destruct (co_new_node_of _ _ _ _ _ _ Hco i p Hi) as (Hnone & _).
  exists (mg_new p). split; [done|].
  rewrite (node_of_lookup net' _ n Hn).
  destruct (Hnew _ n Hn Hnone) as (m' & _ & Hattrs).
  assert (m' = m) as ->; [|done].
  pose proof (ra_main _ _ _ Hattrs) as E. congruence.
Qed.

(** X13: the node that replaces a group of at least two nodes is
    signal-controlled when one of the members is, and its control type is
    left as the constructor set it when none is. *)
Theorem replacement_ctrl_type (round : float → Z → float)
    (lonlat_coord_precision local_coord_precision : Z)
    (net : Network) (auto_identify : bool) (int_buffer : float) :
  wf_network net →
  ∃ net1 net',
    grouped_network net auto_identify int_buffer = Some net1
    ∧ consolidateComplexIntersections round lonlat_coord_precision
        local_coord_precision net auto_identify int_buffer = Some net'
    ∧ ∀ m, multi_group net1 m →
        ∃ N, nodes net1 !! N = None
             ∧ main_node_id (node_of net' N) = Some m
             ∧ ((∃ r, r ∈ group_of net1 m
                      ∧ ctrl_type (node_of net1 r) = Some "signal"%string) →
                ctrl_type (node_of net' N) = Some "signal"%string)
             ∧ ((¬ ∃ r, r ∈ group_of net1 m
                        ∧ ctrl_type (node_of net1 r) = Some "signal"%string) →
                ctrl_type (node_of net' N)
                = ctrl_type (Node_init (node_id (node_of net' N)))).
Proof.
  intros Hwf.
  destruct (consolidate_replacement_attrs round lonlat_coord_precision
              local_coord_precision net auto_identify int_buffer Hwf)
    as (net1 & net' & Hnet1 & _ & Hnet' & Hall).
  exists net1, net'. split_and!; [done..|]. intros m Hm.
  destruct (Hall m Hm) as (N & Hnone & Hattrs).
  exists N. split_and!; [done|apply (ra_main _ _ _ Hattrs)| |].
  - intros (r & Hr & Hsig). rewrite (ra_ctrl _ _ _ Hattrs).
    unfold group_signal.
    destruct (existsb _ _) eqn:E; [done|].
    apply not_true_iff_false in E. exfalso. apply E.
    apply existsb_exists. exists r. split; [by apply list_elem_of_In|].
    by apply bool_decide_eq_true.
  - intros Hno. rewrite (ra_ctrl _ _ _ Hattrs). unfold group_signal.
    destruct (existsb _ _) eqn:E; [|done].
    apply existsb_exists in E as (r & Hr & Hsig).
    apply bool_decide_eq_true in Hsig. exfalso. apply Hno.
    exists r. split; [by apply list_elem_of_In|done].
Qed.


(** X15: the incoming (outgoing) list of the replacement node holds the
    links of the incoming (outgoing) lists of the members that come from
    (lead to) a node outside the group, member after member and in the
    order of each list; the links between two members are left out. *)
Theorem replacement_link_lists (round : float → Z → float)
    (lonlat_coord_precision local_coord_precision : Z)
    (net : Network) (auto_identify : bool) (int_buffer : float) :
  wf_network net →
  ∃ net1 net',
    grouped_network net auto_identify int_buffer = Some net1
    ∧ consolidateComplexIntersections round lonlat_coord_precision
        local_coord_precision net auto_identify int_buffer = Some net'
    ∧ ∀ m, multi_group net1 m →
        ∃ N, nodes net1 !! N = None
             ∧ main_node_id (node_of net' N) = Some m
             ∧ incoming_link_list (node_of net' N)
               = filter (λ l, from_node (link_of net1 l) ∉ group_of net1 m)
                   (group_of net1 m
                      ≫= λ r, incoming_link_list (node_of net1 r))
             ∧ outgoing_link_list (node_of net' N)
               = filter (λ l, to_node (link_of net1 l) ∉ group_of net1 m)
                   (group_of net1 m
                      ≫= λ r, outgoing_link_list (node_of net1 r)).
Proof.
  intros Hwf.
  destruct (consolidate_replacement_attrs round lonlat_coord_precision
              local_coord_precision net auto_identify int_buffer Hwf)
    as (net1 & net' & Hnet1 & _ & Hnet' & Hall).
  exists net1, net'. split_and!; [done..|]. intros m Hm.
  destruct (Hall m Hm) as (N & Hnone & Hattrs).
  exists N. split_and!; [done|apply (ra_main _ _ _ Hattrs)|..].
  - apply (ra_incoming _ _ _ Hattrs).
  - apply (ra_outgoing _ _ _ Hattrs).
Qed.

(** ** The consolidated network is well formed *)

Section WellFormedAfter.
Variable round : float → Z → float.
Variables lonlat_coord_precision local_coord_precision : Z.
Variables (net0 net' : Network) (P : list Merged).
Hypothesis Hwf : wf_network net0.
Hypothesis Hco : consolidated round lonlat_coord_precision
                   local_coord_precision net0 P net'.
Hypothesis Hnew : ∀ N n,
  nodes net' !! N = Some n → nodes net0 !! N = None →
  ∃ m, multi_group net0 m ∧ replacement_attrs net0 m n.

Lemma co_same_main (p q : Merged) :
  p ∈ P → q ∈ P → mg_main p = mg_main q → p = q.
Proof.
  intros [i Hi]%list_elem_of_lookup [j Hj]%list_elem_of_lookup E.
  assert (i = j) as ->; [|congruence].
  eapply NoDup_lookup; [apply (co_main_NoDup _ _ _ _ _ _ Hco)|..].
  - by rewrite list_lookup_fmap, Hi.
  - by rewrite list_lookup_fmap, Hj, E.
Qed.

Lemma co_member_group (p q : Merged) (r : nref) :
  p ∈ P → q ∈ P → r ∈ mg_members p → r ∈ mg_members q → p = q.
Proof.
  intros Hp Hq Hrp Hrq. apply co_same_main; [done..|].
  destruct (co_members _ _ _ _ _ _ Hco p Hp) as [Ep _].
  destruct (co_members _ _ _ _ _ _ Hco q Hq) as [Eq _].
  rewrite Ep in Hrp. rewrite Eq in Hrq. by eapply group_of_disjoint.
Qed.

Lemma co_replacement_of (p : Merged) (r : nref) :
  p ∈ P → r ∈ mg_members p → replacement P r = mg_new p.
Proof.
  intros Hp Hr.
  destruct (replacement_member P r) as (q & Hq & Hrq & ->).
  { apply merged_member_iff. eauto. }
  by rewrite (co_member_group p q r).
Qed.

Lemma co_new_attrs (p : Merged) :
  p ∈ P →
  nodes net' !! mg_new p = Some (node_of net' (mg_new p))
  ∧ replacement_attrs net0 (mg_main p) (node_of net' (mg_new p)).
Proof.
  intros Hp. pose proof Hp as [i Hi]%list_elem_of_lookup.
  destruct (co_new_node _ _ _ _ _ _ Hco i p Hi) as (n & Hn & _ & Hmain & _).
  destruct (co_new_node_of _ _ _ _ _ _ Hco i p Hi) as (Hnone & _).
  rewrite (node_of_lookup net' _ n Hn). split; [done|].
  destruct (Hnew _ n Hn Hnone) as (m & _ & Hattrs).
  assert (m = mg_main p) as ->; [|done].
  pose proof (ra_main _ _ _ Hattrs). congruence.
Qed.

Lemma co_old_node_of (r : nref) :
  r ∈ OrderedDict.values (node_dict net0) → node_of net' r = node_of net0 r.
Proof.
  intros [k Hk]%values_elem.
  destruct (wf_node_registered net0 k r Hwf Hk) as [Hn _].
  unfold node_of. rewrite !lookup_total_alt.
  rewrite (co_old_nodes _ _ _ _ _ _ Hco); [done|]. apply elem_of_dom. eauto.
Qed.

Lemma boundary_links_elem (sel : Node → list lref) (far : Link → nref)
    (G : list nref) (l : lref) :
  l ∈ boundary_links net0 sel far G
  ↔ (far (link_of net0 l) ∉ G) ∧ ∃ r, r ∈ G ∧ l ∈ sel (node_of net0 r).
Proof.
  unfold boundary_links. rewrite list_elem_of_filter, list_elem_of_bind.
  naive_solver.
Qed.

(** A link that stays is internal to no group. *)
Lemma co_not_internal (lk : Link) (p : Merged) :
  internal P lk = false → p ∈ P →
  ¬ (from_node lk ∈ mg_members p ∧ to_node lk ∈ mg_members p).
Proof.
  intros Hint Hp [Hf Ht]. apply not_true_iff_false in Hint. apply Hint.
  apply internal_true. eauto.
Qed.

Hypothesis Hfresh : fresh_identifiers net0.

Lemma co_replacement_registered (r : nref) :
  r ∈ OrderedDict.values (node_dict net0) →
  replacement P r ∈ OrderedDict.values (node_dict net').
Proof.
  intros [k Hk]%values_elem. apply values_elem.
  destruct (decide (merged_member P r)) as [Hr|Hr].
  - destruct (replacement_member P r Hr) as (p & Hp & _ & ->).
    apply list_elem_of_lookup in Hp as [i Hi].
    eexists. by apply (co_new_registered _ _ _ _ _ _ Hwf Hco i p).
  - rewrite replacement_not_member by done.
    exists k. by apply (co_old_registered _ _ _ _ _ _ Hwf Hco).
Qed.

Lemma co_wf : wf_network net'.
Proof.
  split.
  - apply (co_node_keys _ _ _ _ _ _ Hco).
  - intros k r Hk.
    destruct (co_registered_node_id _ _ _ _ _ _ Hwf Hco k r Hk) as [Hn Hid].
    eauto.
  - rewrite (co_link_dict _ _ _ _ _ _ Hco).
    apply od_filter_keys_NoDup, (wf_link_keys net0 Hwf).
  - intros k l [Hin _]%(co_link_dict_elem _ _ _ _ _ _ Hco).
    eexists. split; [apply (co_links _ _ _ _ _ _ Hco k l Hin)|].
    rewrite consolidated_link_id.
    by destruct (wf_link_registered net0 k l Hwf Hin).
  - intros k l [Hin Hint]%(co_link_dict_elem _ _ _ _ _ _ Hco).
    rewrite (co_link_of _ _ _ _ _ _ Hco k l Hin).
    unfold consolidated_link. rewrite Hint.
    cbn [from_node to_node].
    destruct (wf_endpoints net0 Hwf k l Hin) as (Hf & Ht & Hout & Hinc).
    split_and!; [by apply co_replacement_registered..| |].
    + destruct (decide (merged_member P (from_node (link_of net0 l))))
        as [Hm|Hm].
      * destruct (replacement_member P _ Hm) as (p & Hp & Hfp & ->).
        destruct (co_new_attrs p Hp) as [_ Hattrs].
        rewrite (ra_outgoing _ _ _ Hattrs).
        destruct (co_members _ _ _ _ _ _ Hco p Hp) as [<- _].
        apply boundary_links_elem. split; [|eauto].
        intros Htp. by apply (co_not_internal (link_of net0 l) p).
      * rewrite replacement_not_member by done. by rewrite co_old_node_of.
    + destruct (decide (merged_member P (to_node (link_of net0 l))))
        as [Hm|Hm].
      * destruct (replacement_member P _ Hm) as (p & Hp & Htp & ->).
        destruct (co_new_attrs p Hp) as [_ Hattrs].
        rewrite (ra_incoming _ _ _ Hattrs).
        destruct (co_members _ _ _ _ _ _ Hco p Hp) as [<- _].
        apply boundary_links_elem. split; [|eauto].
        intros Hfp. by apply (co_not_internal (link_of net0 l) p).
      * rewrite replacement_not_member by done. by rewrite co_old_node_of.
  - intros r l [k Hk]%values_elem Hl.
    destruct (co_registered_cases _ _ _ _ _ _ Hwf Hco k r Hk)
      as [(Hk0 & Hno & E)|(i & p & Hi & -> & _)].
    + assert (Hr0 : r ∈ OrderedDict.values (node_dict net0)).
      { apply values_elem. eauto. }
      rewrite (co_old_node_of r Hr0) in Hl.
      destruct (wf_incoming net0 Hwf r l Hr0 Hl) as [[kl Hkl]%values_elem Hto].
      assert (Hint : internal P (link_of net0 l) = false).
      { apply not_true_is_false. intros (p & Hp & _ & Ht)%internal_true.
        apply Hno, merged_member_iff. exists p. by rewrite <- Hto. }
      split.
      * apply values_elem. exists kl.
        by apply (co_link_dict_elem _ _ _ _ _ _ Hco).
      * rewrite (co_link_of _ _ _ _ _ _ Hco kl l Hkl).
        unfold consolidated_link. rewrite Hint. cbn [to_node].
        rewrite Hto. by apply replacement_not_member.
    + assert (Hp : p ∈ P) by (by eapply list_elem_of_lookup_2).
      destruct (co_new_attrs p Hp) as [_ Hattrs].
      rewrite (ra_incoming _ _ _ Hattrs) in Hl.
      destruct (co_members _ _ _ _ _ _ Hco p Hp) as [E _]. rewrite <- E in Hl.
      apply boundary_links_elem in Hl as (Hfar & r0 & Hr0 & Hl).
      assert (Hr0' : r0 ∈ OrderedDict.values (node_dict net0)).
      { rewrite E in Hr0. by apply group_of_elem in Hr0 as [? _]. }
      destruct (wf_incoming net0 Hwf r0 l Hr0' Hl) as [[kl Hkl]%values_elem Hto].
      assert (Hint : internal P (link_of net0 l) = false).
      { apply not_true_is_false. intros (q & Hq & Hf & Ht)%internal_true.
        rewrite Hto in Ht.
        assert (p = q) as <- by (by apply (co_member_group p q r0)).
        done. }
      split.
      * apply values_elem. exists kl.
        by apply (co_link_dict_elem _ _ _ _ _ _ Hco).
      * rewrite (co_link_of _ _ _ _ _ _ Hco kl l Hkl).
        unfold consolidated_link. rewrite Hint. cbn [to_node].
        rewrite Hto. by apply co_replacement_of.
  - intros r l [k Hk]%values_elem Hl.
    destruct (co_registered_cases _ _ _ _ _ _ Hwf Hco k r Hk)
      as [(Hk0 & Hno & E)|(i & p & Hi & -> & _)].
    + assert (Hr0 : r ∈ OrderedDict.values (node_dict net0)).
      { apply values_elem. eauto. }
      rewrite (co_old_node_of r Hr0) in Hl.
      destruct (wf_outgoing net0 Hwf r l Hr0 Hl) as [[kl Hkl]%values_elem Hfrom].
      assert (Hint : internal P (link_of net0 l) = false).
      { apply not_true_is_false. intros (p & Hp & Hf & _)%internal_true.
        apply Hno, merged_member_iff. exists p. by rewrite <- Hfrom. }
      split.
      * apply values_elem. exists kl.
        by apply (co_link_dict_elem _ _ _ _ _ _ Hco).
      * rewrite (co_link_of _ _ _ _ _ _ Hco kl l Hkl).
        unfold consolidated_link. rewrite Hint. cbn [from_node].
        rewrite Hfrom. by apply replacement_not_member.
    + assert (Hp : p ∈ P) by (by eapply list_elem_of_lookup_2).
      destruct (co_new_attrs p Hp) as [_ Hattrs].
      rewrite (ra_outgoing _ _ _ Hattrs) in Hl.
      destruct (co_members _ _ _ _ _ _ Hco p Hp) as [E _]. rewrite <- E in Hl.
      apply boundary_links_elem in Hl as (Hfar & r0 & Hr0 & Hl).
      assert (Hr0' : r0 ∈ OrderedDict.values (node_dict net0)).
      { rewrite E in Hr0. by apply group_of_elem in Hr0 as [? _]. }
      destruct (wf_outgoing net0 Hwf r0 l Hr0' Hl) as [[kl Hkl]%values_elem Hfrom].
      assert (Hint : internal P (link_of net0 l) = false).
      { apply not_true_is_false. intros (q & Hq & Hf & Ht)%internal_true.
        rewrite Hfrom in Hf.
        assert (p = q) as <- by (by apply (co_member_group p q r0)).
        done. }
      split.
      * apply values_elem. exists kl.
        by apply (co_link_dict_elem _ _ _ _ _ _ Hco).
      * rewrite (co_link_of _ _ _ _ _ _ Hco kl l Hkl).
        unfold consolidated_link. rewrite Hint. cbn [from_node].
        rewrite Hfrom. by apply co_replacement_of.
  - intros r [k Hk]%values_elem.
    destruct (co_registered_cases _ _ _ _ _ _ Hwf Hco k r Hk)
      as [(Hk0 & Hno & E)|(i & p & Hi & -> & _)].
    + assert (Hr0 : r ∈ OrderedDict.values (node_dict net0)).
      { apply values_elem. eauto. }
      rewrite (co_old_node_of r Hr0). by apply (wf_attributes net0 Hwf).
    + assert (Hp : p ∈ P) by (by eapply list_elem_of_lookup_2).
      destruct (co_new_attrs p Hp) as [_ Hattrs].
      destruct (co_new_node _ _ _ _ _ _ Hco i p Hi) as (n & Hn & _ & _ & Hg & Hgxy).
      rewrite (node_of_lookup net' _ n Hn) in *.
      destruct (co_members _ _ _ _ _ _ Hco p Hp) as [E _].
      assert (Hmem : ∀ r, r ∈ mg_members p →
                is_Some (geometry (node_of net0 r))
                ∧ is_Some (geometry_xy (node_of net0 r))
                ∧ is_Some (osm_node_id (node_of net0 r))).
      { intros r. rewrite E. intros [Hr _]%group_of_elem.
        by apply (wf_attributes net0 Hwf). }
      destruct (add_members_spec net0 (mg_members p) Sums_init)
        as (pts & ptsxy & Hpts & Hptsxy & _).
      { intros r Hr. destruct (Hmem r Hr) as (? & ? & _). done. }
      rewrite Hg, Hgxy, (ra_osm _ _ _ Hattrs), <- E.
      unfold group_point. rewrite Hpts, Hptsxy. simpl.
      split_and!; [by eexists..|].
      apply join_underscore_Some, Forall_fmap, Forall_forall.
      intros r Hr. by destruct (Hmem r Hr) as (_ & _ & ?).
Qed.
End WellFormedAfter.

(** X16: when none of the identifiers the call mints is in use, the
    consolidation of a well-formed network leaves a well-formed network:
    both collections keyed by the identifiers of what they hold, every
    registered link between two registered nodes and in their link lists,
    and the link lists of the registered nodes, those of the replacement
    nodes included, holding nothing but registered links incident to
    them. *)
Theorem consolidation_keeps_well_formed (round : float → Z → float)
    (lonlat_coord_precision local_coord_precision : Z)
    (net : Network) (auto_identify : bool) (int_buffer : float) (net1 : Network) :
  wf_network net →
  grouped_network net auto_identify int_buffer = Some net1 →
  fresh_identifiers net1 →
  ∃ net',
    consolidateComplexIntersections round lonlat_coord_precision
      local_coord_precision net auto_identify int_buffer = Some net'
    ∧ wf_network net'.
Proof.
  intros Hwf Hnet1 Hfresh.
  destruct (consolidate_node_spec round lonlat_coord_precision
              local_coord_precision net auto_identify int_buffer Hwf)
    as (net1' & net' & P & Hnet1' & Hwf1 & Hnet' & Hco & Hnew & _).
  rewrite Hnet1 in Hnet1'. injection Hnet1' as <-.
  exists net'. split; [done|].
  by apply (co_wf round lonlat_coord_precision local_coord_precision net1 net' P).
Qed.

(** ** The order of the node collection *)

(** The node carries the identifier of a group of at least two nodes. *)
Definition consolidated_member (net : Network) (r : nref) : bool :=
  match main_node_id (node_of net r) with
  | Some m => bool_decide (2 ≤ length (group_of net m))%nat
  | None => false
  end.

Lemma new_entries_imap (base : Z) (P : list Merged) :
  new_entries base P = imap (λ i N, (base + Z.of_nat i, N)) (mg_new <$> P).
Proof.
  apply list_eq. intros i.
  rewrite new_entries_lookup, list_lookup_imap, list_lookup_fmap.
  by destruct (P !! i).
Qed.

Lemma consolidate_node_dict (round : float → Z → float)
    (lonlat_coord_precision local_coord_precision : Z)
    (net0 net' : Network) (P : list Merged) :
  wf_network net0 →
  consolidated round lonlat_coord_precision local_coord_precision net0 P net' →
  node_dict net'
    = filter (λ kv, kv.1 ∉ merged_ids net0 P)
        (register_all (node_dict net0) (new_entries (max_node_id net0) P)) →
  fresh_identifiers net0 →
  node_dict net'
  = filter (λ kr, consolidated_member net0 kr.2 = false) (node_dict net0)
    ++ new_entries (max_node_id net0) P.
Proof.
  intros Hwf Hco Hdict Hfresh.
  pose proof (co_length _ _ _ _ _ _ Hco) as Hlen.
  rewrite Hdict, register_all_fresh.
  2:{ intros i Hi. apply Hfresh. by rewrite <- Hlen. }
  etrans; [exact (filter_app (λ kv : Z * nref, kv.1 ∉ merged_ids net0 P)
                    (node_dict net0) (new_entries (max_node_id net0) P))|].
  f_equal.
  - apply filter_ext_elem. intros [k r] Hk. cbn [fst snd].
    destruct (wf_node_registered net0 k r Hwf Hk) as [_ Hid].
    split.
    + intros Hno. apply not_true_is_false. intros Hc. apply Hno.
      unfold consolidated_member in Hc.
      destruct (main_node_id (node_of net0 r)) as [m|] eqn:Hm; [|done].
      apply bool_decide_eq_true in Hc.
      unfold merged_ids. apply list_elem_of_fmap. exists r.
      split; [done|]. apply merged_nodes_elem.
      apply (co_merged_member _ _ _ _ _ _ Hco). exists m. split; [done|].
      apply group_of_elem. split; [|done]. apply values_elem. eauto.
    + intros Hc (r' & Hr' & Hk')%(merged_ids_keys _ _ _ _ _ _ Hwf Hco).
      apply (od_elem_get _ _ _ (wf_node_keys net0 Hwf)) in Hk, Hk'.
      assert (r' = r) as -> by congruence.
      apply (co_merged_member _ _ _ _ _ _ Hco) in Hr' as (m & Hm & Hr).
      apply group_of_elem in Hr as [_ Hmain].
      unfold consolidated_member in Hc. rewrite Hmain in Hc.
      by rewrite (bool_decide_eq_true_2 _ Hm) in Hc.
  - apply filter_all_id, Forall_forall. intros [k N] Hin. cbn [fst].
    assert (Hk : k ∈ (new_entries (max_node_id net0) P).*1).
    { apply list_elem_of_fmap. by exists (k, N). }
    apply new_entries_keys in Hk.
    intros (r' & _ & Hk')%(merged_ids_keys _ _ _ _ _ _ Hwf Hco).
    apply (Hfresh (Z.to_nat (k - max_node_id net0))); [lia|].
    replace (max_node_id net0 + Z.of_nat (Z.to_nat (k - max_node_id net0)))
      with k by lia.
    apply keys_elem. eauto.
Qed.

(** The node counter lies above every identifier of the node collection. *)
Definition node_ids_below (net : Network) : Prop :=
  ∀ k, k ∈ OrderedDict.keys (node_dict net) → k < max_node_id net.

Lemma node_ids_below_fresh (net : Network) :
  node_ids_below net → fresh_identifiers net.
Proof. intros Hb i _ Hin. apply Hb in Hin. lia. Qed.

(** X17: when none of the identifiers the call mints is in use, the node
    collection ends as the nodes that belong to no group of at least two
    nodes, in the order they had, followed by the replacement nodes, in
    the order in which the loop met their groups, each under the
    identifier minted for it. *)
Theorem consolidation_node_order (round : float → Z → float)
    (lonlat_coord_precision local_coord_precision : Z)
    (net : Network) (auto_identify : bool) (int_buffer : float) (net1 : Network) :
  wf_network net →
  grouped_network net auto_identify int_buffer = Some net1 →
  fresh_identifiers net1 →
  ∃ net' Ns,
    consolidateComplexIntersections round lonlat_coord_precision
      local_coord_precision net auto_identify int_buffer = Some net'
    ∧ length Ns = length (consolidated_groups net1)
    ∧ node_dict net'
      = filter (λ kr, consolidated_member net1 kr.2 = false) (node_dict net1)
        ++ imap (λ i N, (max_node_id net1 + Z.of_nat i, N)) Ns
    ∧ ∀ i N, Ns !! i = Some N →
        nodes net1 !! N = None
        ∧ ∃ m g, consolidated_groups net1 !! i = Some (m, g)
                 ∧ main_node_id (node_of net' N) = Some m.
Proof.
  intros Hwf Hnet1 Hfresh.
  destruct (consolidate_node_spec round lonlat_coord_precision
              local_coord_precision net auto_identify int_buffer Hwf)
    as (net1' & net' & P & Hnet1' & Hwf1 & Hnet' & Hco & _ & Hdict).
  rewrite Hnet1 in Hnet1'. injection Hnet1' as <-.
  exists net', (mg_new <$> P). split_and!; [done| | |].
  - by rewrite length_fmap, (co_length _ _ _ _ _ _ Hco).
  - rewrite <- new_entries_imap.
    by apply (consolidate_node_dict round lonlat_coord_precision
                local_coord_precision net1 net' P).
  - intros i N Hi. apply list_lookup_fmap_Some in Hi as (p & -> & Hp).
    destruct (co_new_node_of _ _ _ _ _ _ Hco i p Hp) as (Hnone & _ & Hmain).
    split; [done|]. exists (mg_main p), (mg_members p). split; [|done].
    unfold consolidated_groups. rewrite <- (co_order _ _ _ _ _ _ Hco).
    by rewrite list_lookup_fmap, Hp.
Qed.

(** X18: a node counter above every identifier of the node collection
    makes the identifiers the call mints fresh, and is above every
    identifier of the node collection again when the call returns. *)
Theorem consolidation_keeps_counter_above (round : float → Z → float)
    (lonlat_coord_precision local_coord_precision : Z)
    (net : Network) (auto_identify : bool) (int_buffer : float) (net1 : Network) :
  wf_network net →
  grouped_network net auto_identify int_buffer = Some net1 →
  node_ids_below net1 →
  fresh_identifiers net1
  ∧ ∃ net',
      consolidateComplexIntersections round lonlat_coord_precision
        local_coord_precision net auto_identify int_buffer = Some net'
      ∧ node_ids_below net'.
Proof.
  intros Hwf Hnet1 Hbelow.
  pose proof (node_ids_below_fresh net1 Hbelow) as Hfresh.
  split; [done|].
  destruct (consolidate_node_spec round lonlat_coord_precision
              local_coord_precision net auto_identify int_buffer Hwf)
    as (net1' & net' & P & Hnet1' & Hwf1 & Hnet' & Hco & _ & Hdict).
  rewrite Hnet1 in Hnet1'. injection Hnet1' as <-.
  exists net'. split; [done|]. intros k Hk.
  rewrite (co_max _ _ _ _ _ _ Hco).
  rewrite (consolidate_node_dict round lonlat_coord_precision
             local_coord_precision net1 net' P Hwf1 Hco Hdict Hfresh) in Hk.
  unfold OrderedDict.keys in Hk. rewrite fmap_app in Hk.
  apply elem_of_app in Hk as [Hk|Hk].
  - apply list_elem_of_fmap in Hk as ([k' r] & -> & Hin).
    apply list_elem_of_filter in Hin as [_ Hin].
    assert (k' < max_node_id net1); [|simpl; lia].
    apply Hbelow, keys_elem. eauto.
  - apply new_entries_keys in Hk. lia.
Qed.

(** ** A member without coordinates or source identifier *)

Lemma join_underscore_None (l : list (option string)) :
  None ∈ l → join_underscore l = None.
Proof.
  induction l as [|o l IH]; [by intros ?%elem_of_nil|].
  intros [<-|Hin]%elem_of_cons.
  - by destruct l.
  - specialize (IH Hin). destruct l as [|o' l]; [by apply elem_of_nil in Hin|].
    cbn [join_underscore] in *. destruct o; simpl; [|done]. by rewrite IH.
Qed.

(** One member: only the new node is written to, and the source identifier
    of the member joins the list. *)
Lemma member_step_frame (G : list nref) (N : nref) (c c' : Consolidation)
    (s s' : Sums) (r : nref) :
  member_step G N (c, s) r = Some (c', s') →
  nodes_frame N c c'
  ∧ is_Some (geometry (node_of (cnet c) r))
  ∧ is_Some (geometry_xy (node_of (cnet c) r))
  ∧ osm_node_id_list s'
    = osm_node_id_list s ++ [osm_node_id (node_of (cnet c) r)].
Proof.
  unfold member_step. cbn [fst snd cnet mark_node].
  destruct (geometry (node_of (cnet c) r)) as [g|]; [|done].
  destruct (geometry_xy (node_of (cnet c) r)) as [gxy|]; [|done].
  cbn [mbind option_bind]. intros [= <- <-].
  split_and!; [|by eexists..|done].
  rewrite rewire_incoming_rewire, rewire_outgoing_rewire.
  eapply nodes_frame_trans; [|by apply nodes_frame_alter].
  eapply nodes_frame_trans; [|by apply rewire_loop_nodes].
  eapply nodes_frame_trans; [|by apply rewire_loop_nodes].
  by split.
Qed.

Lemma member_loop_frame (G : list nref) (N : nref) (R : list nref)
    (c c' : Consolidation) (s s' : Sums) :
  fold_opt (member_step G N) (c, s) R = Some (c', s') →
  nodes_frame N c c'
  ∧ (∀ r, r ∈ R → r ≠ N →
       is_Some (geometry (node_of (cnet c) r))
       ∧ is_Some (geometry_xy (node_of (cnet c) r))
       ∧ osm_node_id (node_of (cnet c) r) ∈ osm_node_id_list s')
  ∧ (∀ o, o ∈ osm_node_id_list s → o ∈ osm_node_id_list s').
Proof.
  revert c s. induction R as [|r0 R IH]; intros c s Hfold.
  - simpl in Hfold. injection Hfold as <- <-.
    split_and!; [apply nodes_frame_refl| |done].
    by intros r ?%elem_of_nil.
  - cbn [fold_opt] in Hfold.
    destruct (member_step G N (c, s) r0) as [[c1 s1]|] eqn:Hstep; [|done].
    cbn [mbind option_bind] in Hfold.
    destruct (member_step_frame _ _ _ _ _ _ _ Hstep) as (Hf1 & Hg & Hgxy & Hosm).
    destruct (IH c1 s1 Hfold) as (Hf2 & Hmem & Hmono).
    split_and!.
    + by eapply nodes_frame_trans.
    + intros r [->|Hr]%elem_of_cons HrN.
      * split_and!; [done..|]. apply Hmono. rewrite Hosm.
        apply elem_of_app. right. apply list_elem_of_here.
      * rewrite <- (node_of_frame N c c1 r Hf1 HrN). by apply Hmem.
    + intros o Ho. apply Hmono. rewrite Hosm. apply elem_of_app. by left.
Qed.

Section Raises.
Variable round : float → Z → float.
Variables lonlat_coord_precision local_coord_precision : Z.

(** A group leaves the nodes that exist alone. *)
Lemma process_group_frame (ctrl : odict Z bool) (c c' : Consolidation)
    (item : Z * list nref) (x : nref) :
  process_group round lonlat_coord_precision local_coord_precision ctrl c item
  = Some c' →
  x ∈ dom (nodes (cnet c)) →
  nodes (cnet c') !! x = nodes (cnet c) !! x.
Proof.
  intros Hproc Hx. unfold process_group in Hproc.
  case_bool_decide; [by injection Hproc as <-|].
  assert (HxN : x ≠ fresh (dom (nodes (cnet c)))).
  { intros ->. by apply is_fresh in Hx. }
  destruct (OrderedDict.get item.1 ctrl) as [signal|]; [|done].
  cbn [mbind option_bind] in Hproc.
  destruct (fold_opt _ _ _) as [[c1 s1]|] eqn:Hfold; [|done].
  cbn [mbind option_bind fst snd] in Hproc.
  destruct (join_underscore _); [|done].
  cbn [mbind option_bind] in Hproc. injection Hproc as <-.
  destruct (member_loop_frame _ _ _ _ _ _ _ Hfold) as ([Hf _] & _).
  simpl. rewrite lookup_alter_ne by done. rewrite Hf by done. simpl.
  by rewrite lookup_insert_ne.
Qed.

(** A group of at least two nodes with a member that lacks a coordinate or
    a source identifier makes the call raise. *)
Lemma process_group_raises (ctrl : odict Z bool) (c : Consolidation)
    (m : Z) (g : list nref) (r : nref) (n : Node) :
  (2 ≤ length g)%nat → r ∈ g →
  nodes (cnet c) !! r = Some n →
  geometry n = None ∨ geometry_xy n = None ∨ osm_node_id n = None →
  process_group round lonlat_coord_precision local_coord_precision ctrl c (m, g)
  = None.
Proof.
  intros Hlen Hr Hn Hbad. unfold process_group. cbn [fst snd].
  rewrite bool_decide_eq_false_2 by lia.
  set (N := fresh (dom (nodes (cnet c)))).
  assert (HrN : r ≠ N).
  { intros ->. apply (is_fresh (dom (nodes (cnet c)))).
    apply elem_of_dom. eauto. }
  destruct (OrderedDict.get m ctrl) as [signal|]; [|done].
  cbn [mbind option_bind].
  destruct (fold_opt _ _ _) as [[c1 s1]|] eqn:Hfold; [|done].
  cbn [mbind option_bind fst snd].
  destruct (member_loop_frame _ _ _ _ _ _ _ Hfold) as (_ & Hmem & _).
  destruct (Hmem r Hr HrN) as (Hg & Hgxy & Hosm).
  assert (E : node_of (cnet (upd_cnet (upd_nodes (insert N
                 (if signal
                  then set_ctrl_type (Some "signal"%string)
                         (set_main_node_id (Some m)
                            (Node_init (max_node_id (cnet c))))
                  else set_main_node_id (Some m)
                         (Node_init (max_node_id (cnet c)))))) c)) r = n).
  { apply node_of_lookup. simpl. by rewrite lookup_insert_ne. }
  rewrite E in Hg, Hgxy, Hosm.
  destruct Hbad as [Hb|[Hb|Hb]].
  - rewrite Hb in Hg. by destruct Hg.
  - rewrite Hb in Hgxy. by destruct Hgxy.
  - rewrite Hb in Hosm. by rewrite (join_underscore_None _ Hosm).
Qed.

Lemma process_groups_raise (ctrl : odict Z bool) (gl : list (Z * list nref))
    (c : Consolidation) (m : Z) (g : list nref) (r : nref) (n : Node) :
  (m, g) ∈ gl → (2 ≤ length g)%nat → r ∈ g →
  nodes (cnet c) !! r = Some n →
  geometry n = None ∨ geometry_xy n = None ∨ osm_node_id n = None →
  fold_opt (process_group round lonlat_coord_precision local_coord_precision
              ctrl) c gl = None.
Proof.
  intros Hin Hlen Hr. revert c.
  induction gl as [|item gl IH]; intros c Hn Hbad;
    [by apply elem_of_nil in Hin|].
  cbn [fold_opt]. apply elem_of_cons in Hin as [<-|Hin].
  - by rewrite (process_group_raises ctrl c m g r n).
  - destruct (process_group round lonlat_coord_precision local_coord_precision
                ctrl c item) as [c1|] eqn:Hproc; [|done].
    cbn [mbind option_bind]. apply IH; [done| |done].
    rewrite (process_group_frame ctrl c c1 item r Hproc); [done|].
    apply elem_of_dom. eauto.
Qed.
End Raises.

(** X19: when a member of a group of at least two nodes has no geographic
    coordinates, no projected coordinates or no source identifier, the
    call raises, whatever the rest of the network. *)
Theorem consolidation_raises_on_missing_attribute (round : float → Z → float)
    (lonlat_coord_precision local_coord_precision : Z)
    (net : Network) (auto_identify : bool) (int_buffer : float) (net1 : Network)
    (k : Z) (r : nref) (n : Node) (m : Z) :
  grouped_network net auto_identify int_buffer = Some net1 →
  (k, r) ∈ node_dict net1 →
  nodes net1 !! r = Some n →
  main_node_id n = Some m →
  multi_group net1 m →
  geometry n = None ∨ geometry_xy n = None ∨ osm_node_id n = None →
  consolidateComplexIntersections round lonlat_coord_precision
    local_coord_precision net auto_identify int_buffer = None.
Proof.
  intros Hnet1 Hk Hn Hm Hmulti Hbad.
  unfold consolidateComplexIntersections.
  unfold grouped_network in Hnet1. rewrite Hnet1. cbn [mbind option_bind].
  unfold consolidate_groups.
  assert (Hr : r ∈ group_of net1 m).
  { apply group_of_elem. split; [apply values_elem; eauto|].
    by rewrite (node_of_lookup net1 r n Hn). }
  assert (Hin : (m, group_of net1 m) ∈ (group_nodes net1).1).
  { destruct (group_nodes_spec net1) as (_ & Hgl & _). apply Hgl.
    split; [done|]. intros E. rewrite E in Hr. by apply elem_of_nil in Hr. }
  by rewrite (process_groups_raise round lonlat_coord_precision
                local_coord_precision (group_nodes net1).2 (group_nodes net1).1
                (mkConsolidation net1 ∅ ∅) m (group_of net1 m) r n
                Hin Hmulti Hr Hn Hbad).
Qed.

(** * Concrete networks *)

(** ** Deciding well-formedness *)

Definition wf_check (net : Network) : bool :=
  bool_decide (NoDup (OrderedDict.keys (node_dict net)))
  && forallb (λ kr, match nodes net !! kr.2 with
                    | Some n => bool_decide (node_id n = kr.1)
                    | None => false
                    end) (node_dict net)
  && bool_decide (NoDup (OrderedDict.keys (link_dict net)))
  && forallb (λ kl, match links net !! kl.2 with
                    | Some lk => bool_decide (link_id lk = kl.1)
                    | None => false
                    end) (link_dict net)
  && forallb (λ kl,
       bool_decide (from_node (link_of net kl.2)
                    ∈ OrderedDict.values (node_dict net))
       && bool_decide (to_node (link_of net kl.2)
                       ∈ OrderedDict.values (node_dict net))
       && bool_decide (kl.2 ∈ outgoing_link_list
                                (node_of net (from_node (link_of net kl.2))))
       && bool_decide (kl.2 ∈ incoming_link_list
                                (node_of net (to_node (link_of net kl.2)))))
       (link_dict net)
  && forallb (λ r,
       forallb (λ l, bool_decide (l ∈ OrderedDict.values (link_dict net))
                     && bool_decide (to_node (link_of net l) = r))
               (incoming_link_list (node_of net r))
       && forallb (λ l, bool_decide (l ∈ OrderedDict.values (link_dict net))
                        && bool_decide (from_node (link_of net l) = r))
                  (outgoing_link_list (node_of net r))
       && bool_decide (is_Some (geometry (node_of net r)))
       && bool_decide (is_Some (geometry_xy (node_of net r)))
       && bool_decide (is_Some (osm_node_id (node_of net r))))
       (OrderedDict.values (node_dict net)).

Lemma forallb_elem {A : Type} (f : A → bool) (l : list A) (x : A) :
  forallb f l = true → x ∈ l → f x = true.
Proof.
  intros H Hx. apply list_elem_of_In in Hx.
  by apply (proj1 (forallb_forall f l) H).
Qed.

Lemma wf_check_sound (net : Network) : wf_check net = true → wf_network net.
Proof.
  unfold wf_check. rewrite !andb_true_iff.
  intros [[[[[Hnk Hni] Hlk] Hli] Hend] Hnode].
  apply bool_decide_eq_true in Hnk, Hlk.
  assert (Hn : ∀ r, r ∈ OrderedDict.values (node_dict net) →
    (∀ l, l ∈ incoming_link_list (node_of net r) →
          l ∈ OrderedDict.values (link_dict net)
          ∧ to_node (link_of net l) = r)
    ∧ (∀ l, l ∈ outgoing_link_list (node_of net r) →
            l ∈ OrderedDict.values (link_dict net)
            ∧ from_node (link_of net l) = r)
    ∧ is_Some (geometry (node_of net r))
    ∧ is_Some (geometry_xy (node_of net r))
    ∧ is_Some (osm_node_id (node_of net r))).
  { intros r Hr. pose proof (forallb_elem _ _ r Hnode Hr) as H. simpl in H.
    rewrite !andb_true_iff in H. destruct H as [[[[Hi Ho] Hg] Hgxy] Hosm].
    apply bool_decide_eq_true in Hg, Hgxy, Hosm. split_and!; [| |done..].
    - intros l Hl. pose proof (forallb_elem _ _ l Hi Hl) as H. simpl in H.
      apply andb_true_iff in H as [H1 H2].
      by apply bool_decide_eq_true in H1, H2.
    - intros l Hl. pose proof (forallb_elem _ _ l Ho Hl) as H. simpl in H.
      apply andb_true_iff in H as [H1 H2].
      by apply bool_decide_eq_true in H1, H2. }
  split; try done.
  - intros k r Hk. pose proof (forallb_elem _ _ (k, r) Hni Hk) as H.
    simpl in H. destruct (nodes net !! r) as [n|]; [|done].
    apply bool_decide_eq_true in H. eauto.
  - intros k l Hk. pose proof (forallb_elem _ _ (k, l) Hli Hk) as H.
    simpl in H. destruct (links net !! l) as [lk|]; [|done].
    apply bool_decide_eq_true in H. eauto.
  - intros k l Hk. pose proof (forallb_elem _ _ (k, l) Hend Hk) as H.
    simpl in H. rewrite !andb_true_iff in H.
    destruct H as [[[H1 H2] H3] H4].
    by apply bool_decide_eq_true in H1, H2, H3, H4.
  - intros r l Hr. by apply (Hn r Hr).
  - intros r l Hr. by apply (Hn r Hr).
  - intros r Hr. by apply (Hn r Hr).
Qed.

Definition fresh_check (net : Network) : bool :=
  forallb (λ i, bool_decide (max_node_id net + Z.of_nat i
                             ∉ OrderedDict.keys (node_dict net)))
          (seq 0 (length (consolidated_groups net))).

Lemma fresh_check_sound (net : Network) :
  fresh_check net = true → fresh_identifiers net.
Proof.
  intros H i Hi.
  assert (Hin : i ∈ seq 0 (length (consolidated_groups net))).
  { apply elem_of_seq. lia. }
  pose proof (forallb_elem _ _ i H Hin) as Hb. simpl in Hb.
  by apply bool_decide_eq_true in Hb.
Qed.

(** ** Example networks *)

Definition signal_node (nid : Z) (main : option Z) (inc out : list lref)
    (x y : float) : Node :=
  {| node_id := nid; osm_node_id := Some "n"%string; osm_highway := None;
     ctrl_type := Some "signal"%string;
     geometry := Some (mkPoint x y); geometry_xy := Some (mkPoint x y);
     main_node_id := main; incoming_link_list := inc;
     outgoing_link_list := out |}.

(** The scenario of the specification: nodes A, B, C, D in a row, links
    A-B and B-C of length 5 and C-D of length 50, no group identifier yet. *)
Definition chain (main : option Z) : Network :=
  {| nodes := list_to_map
       [(1%positive, signal_node 10 main [] [1%positive] 0 0);
        (2%positive, signal_node 11 main [1%positive] [2%positive] 2 0);
        (3%positive, signal_node 12 main [2%positive] [3%positive] 1 1);
        (4%positive, signal_node 13 None [3%positive] [] 9 9)];
     links := list_to_map
       [(1%positive, mkLink 100 1 2 5); (2%positive, mkLink 101 2 3 5);
        (3%positive, mkLink 102 3 4 50)];
     node_dict := [(10, 1%positive); (11, 2%positive); (12, 3%positive);
                   (13, 4%positive)];
     link_dict := [(100, 1%positive); (101, 2%positive); (102, 3%positive)];
     max_node_id := 14; max_main_node_id := 0 |}.

(** Two groups of two nodes and a link from the one to the other. *)
Definition two_groups (max_id : Z) : Network :=
  {| nodes := list_to_map
       [(1%positive, signal_node 1 (Some 0) [] [] 0 0);
        (2%positive, signal_node 2 (Some 0) [] [1%positive] 1 0);
        (3%positive, signal_node 3 (Some 1) [1%positive] [] 5 0);
        (4%positive, signal_node 4 (Some 1) [] [] 6 0)];
     links := list_to_map [(1%positive, mkLink 100 2 3 30)];
     node_dict := [(1, 1%positive); (2, 2%positive); (3, 3%positive);
                   (4, 4%positive)];
     link_dict := [(100, 1%positive)];
     max_node_id := max_id; max_main_node_id := 2 |}.

(** A group of two nodes, a third node linked to it, and a node counter
    that is the identifier of a member of the group. *)
Definition stale_counter : Network :=
  {| nodes := list_to_map
       [(1%positive, signal_node 0 (Some 0) [] [] 0 0);
        (2%positive, signal_node 1 (Some 0) [] [1%positive] 1 0);
        (3%positive, signal_node 2 None [1%positive] [] 5 0)];
     links := list_to_map [(1%positive, mkLink 100 2 3 30)];
     node_dict := [(0, 1%positive); (1, 2%positive); (2, 3%positive)];
     link_dict := [(100, 1%positive)];
     max_node_id := 0; max_main_node_id := 1 |}.

(** Two nodes of one group, the second without coordinates. *)
Definition missing_geometry : Network :=
  {| nodes := list_to_map
       [(1%positive, signal_node 1 (Some 0) [] [] 0 0);
        (2%positive,
         {| node_id := 2; osm_node_id := Some "n"%string; osm_highway := None;
            ctrl_type := None; geometry := None; geometry_xy := None;
            main_node_id := Some 0; incoming_link_list := [];
            outgoing_link_list := [] |})];
     links := ∅;
     node_dict := [(1, 1%positive); (2, 2%positive)];
     link_dict := [];
     max_node_id := 3; max_main_node_id := 1 |}.

(** Two nodes of the group 0 and two ungrouped nodes joined by a link of
    length 5; the counter of group identifiers is a parameter. *)
Definition grouped_pair (counter : Z) : Network :=
  {| nodes := list_to_map
       [(1%positive, signal_node 1 (Some 0) [] [] 0 0);
        (2%positive, signal_node 2 (Some 0) [] [] 1 0);
        (3%positive, signal_node 3 None [] [1%positive] 5 0);
        (4%positive, signal_node 4 None [1%positive] [] 6 0)];
     links := list_to_map [(1%positive, mkLink 100 3 4 5)];
     node_dict := [(1, 1%positive); (2, 2%positive); (3, 3%positive);
                   (4, 4%positive)];
     link_dict := [(100, 1%positive)];
     max_node_id := 5; max_main_node_id := counter |}.

(** Two ungrouped nodes joined by a link whose length is a NaN. *)
Definition nan_link : Network :=
  {| nodes := list_to_map
       [(1%positive, signal_node 1 None [] [1%positive] 0 0);
        (2%positive, signal_node 2 None [1%positive] [] 1 0)];
     links := list_to_map [(1%positive, mkLink 100 1 2 nan)];
     node_dict := [(1, 1%positive); (2, 2%positive)];
     link_dict := [(100, 1%positive)];
     max_node_id := 3; max_main_node_id := 0 |}.

(** Two groups of two nodes, the group 1 first in the node collection, and
    a link between the two members of the group 0, which a member of the
    group 1 lists as incoming too. *)
Definition misfiled_intra : Network :=
  {| nodes := list_to_map
       [(1%positive, signal_node 1 (Some 0) [] [1%positive] 0 0);
        (2%positive, signal_node 2 (Some 0) [1%positive] [] 1 0);
        (3%positive, signal_node 3 (Some 1) [1%positive] [] 5 0);
        (4%positive, signal_node 4 (Some 1) [] [] 6 0)];
     links := list_to_map [(1%positive, mkLink 100 1 2 30)];
     node_dict := [(3, 3%positive); (4, 4%positive); (1, 1%positive);
                   (2, 2%positive)];
     link_dict := [(100, 1%positive)];
     max_node_id := 5; max_main_node_id := 2 |}.

(** Two groups of two nodes and a link from the one to the other, which the
    other member of the first group lists as incoming too. *)
Definition misfiled_cross : Network :=
  {| nodes := list_to_map
       [(1%positive, signal_node 1 (Some 0) [1%positive] [] 0 0);
        (2%positive, signal_node 2 (Some 0) [] [1%positive] 1 0);
        (3%positive, signal_node 3 (Some 1) [1%positive] [] 5 0);
        (4%positive, signal_node 4 (Some 1) [] [] 6 0)];
     links := list_to_map [(1%positive, mkLink 100 2 3 30)];
     node_dict := [(1, 1%positive); (2, 2%positive); (3, 3%positive);
                   (4, 4%positive)];
     link_dict := [(100, 1%positive)];
     max_node_id := 5; max_main_node_id := 2 |}.

(** The well-formedness that a link in the lists of its two endpoints
    makes: every registered link is in the outgoing list of its
    [from_node] and in the incoming list of its [to_node]. *)
Definition links_listed (net : Network) : Prop :=
  Forall (λ kl,
    kl.2 ∈ outgoing_link_list (node_of net (from_node (link_of net kl.2)))
    ∧ kl.2 ∈ incoming_link_list (node_of net (to_node (link_of net kl.2))))
    (link_dict net).

(** Python's [round] left out: the claims below do not depend on it. *)
Definition no_round (x : float) (ndigits : Z) : float := x.

Lemma chain_wf (main : option Z) : wf_network (chain main).
Proof. apply wf_check_sound. destruct main; vm_compute; reflexivity. Qed.

Lemma two_groups_wf (max_id : Z) : wf_network (two_groups max_id).
Proof. apply wf_check_sound. vm_compute. reflexivity. Qed.

Lemma stale_counter_wf : wf_network stale_counter.
Proof. apply wf_check_sound. vm_compute. reflexivity. Qed.

(** ** The claims at work *)

(** Witness of C2: the chain A-B-C of the specification, threshold 10. *)
Lemma detection_transitive_witness :
  ∃ net' k,
    _identifyComplexIntersections (chain None) 10 = Some net'
    ∧ main_node_id (node_of net' 1%positive) = Some k
    ∧ main_node_id (node_of net' 2%positive) = Some k
    ∧ main_node_id (node_of net' 3%positive) = Some k.
Proof.
  apply (detection_transitive (chain None) 10 100 101 1%positive 2%positive
           1%positive 2%positive 3%positive).
  - apply list_elem_of_here.
  - apply list_elem_of_further, list_elem_of_here.
  - by vm_compute.
  - by vm_compute.
  - left. by vm_compute.
  - left. by vm_compute.
  - intros x Hx.
    repeat (apply elem_of_cons in Hx as [->|Hx]; [by vm_compute|]).
    by apply elem_of_nil in Hx.
Defined.

(** C5 as it stands fails: the test of the source is [link.length >
    int_buffer], which is false when the length is a NaN, and when the
    threshold is one. The link of [nan_link] is not of length at most 10,
    yet it is a candidate and its two endpoints are grouped; with a NaN for
    threshold the link C-D of the chain, of length 50, is a candidate. *)
Lemma nan_length_candidate :
  PrimFloat.leb (link_length (link_of nan_link 1%positive)) 10 = false
  ∧ candidate_link nan_link 10 (link_of nan_link 1%positive) = true
  ∧ PrimFloat.leb (link_length (link_of (chain None) 3%positive)) nan = false
  ∧ candidate_link (chain None) nan (link_of (chain None) 3%positive) = true
  ∧ ∃ net',
      _identifyComplexIntersections nan_link 10 = Some net'
      ∧ main_node_id (node_of nan_link 1%positive) = None
      ∧ main_node_id (node_of net' 1%positive) = Some 0
      ∧ main_node_id (node_of net' 2%positive) = Some 0.
Proof.
  split_and!; [by vm_compute..|].
  eexists. split; [by vm_compute|]. split_and!; by vm_compute.
Qed.

(** Witness of C3 as amended: the group 0 and the counter 1. *)
Lemma detection_partition_witness :
  ∃ s net',
    merged_groups (grouped_pair 1) 10 = Some s
    ∧ _identifyComplexIntersections (grouped_pair 1) 10 = Some net'
    ∧ disjoint_active s
    ∧ (∀ x, (length (filter (λ item, item.2 ≠ 0%nat ∧ x ∈ item.1)
                            (zip s.1 s.2)) ≤ 1)%nat)
    ∧ (∀ x, ¬ in_active_group s x →
            node_of net' x = node_of (grouped_pair 1) x)
    ∧ ∀ q g a, s.1 !! q = Some g → s.2 !! q = Some (S a) →
        let k := max_main_node_id (grouped_pair 1)
                 + Z.of_nat (active_before (zip s.1 s.2) q) in
        max_main_node_id (grouped_pair 1) ≤ k < max_main_node_id net'
        ∧ (∀ y, main_node_id (node_of (grouped_pair 1) y) ≠ Some k)
        ∧ (∀ x, x ∈ g →
             main_node_id (node_of (grouped_pair 1) x) = None
             ∧ node_of net' x
               = set_main_node_id (Some k) (node_of (grouped_pair 1) x))
        ∧ (∀ x, main_node_id (node_of net' x) = Some k ↔ x ∈ g)
        ∧ (∀ q' g' a', s.1 !! q' = Some g' → s.2 !! q' = Some (S a') →
             active_before (zip s.1 s.2) q' = active_before (zip s.1 s.2) q →
             q' = q).
Proof.
  apply (detection_partition (grouped_pair 1) 10).
  intros x n k Hn Hk. apply elem_of_list_to_map_2 in Hn.
  repeat (apply elem_of_cons in Hn as [[= -> ->]|Hn];
          [simpl in Hk; try discriminate Hk; injection Hk as <-; simpl; lia|]).
  by apply elem_of_nil in Hn.
Defined.

(** C3 as it stands fails: in [grouped_pair 0] the counter of group
    identifiers, 0, is the identifier that the nodes 1 and 2 carry; the
    detection stamps the ungrouped nodes 3 and 4 with it, an identifier
    that is not fresh, and the group of that identifier then holds the four
    nodes, two of which are in no group that the detection built. *)
Lemma stale_group_counter_reuses_identifier :
  main_node_id (node_of (grouped_pair 0) 1%positive) = Some 0
  ∧ main_node_id (node_of (grouped_pair 0) 3%positive) = None
  ∧ ∃ s net',
      merged_groups (grouped_pair 0) 10 = Some s
      ∧ _identifyComplexIntersections (grouped_pair 0) 10 = Some net'
      ∧ in_active_group s 3%positive
      ∧ ¬ in_active_group s 1%positive
      ∧ main_node_id (node_of net' 3%positive) = Some 0
      ∧ main_node_id (node_of net' 1%positive) = Some 0
      ∧ group_of net' 0 = [1%positive; 2%positive; 3%positive; 4%positive].
Proof.
  split; [by vm_compute|]. split; [by vm_compute|].
  destruct (identify_spec (grouped_pair 0) 10) as (s & net' & Hs & Hnet' & _).
  exists s, net'. split; [done|]. split; [done|].
  assert (H3 : in_active_group s 3%positive).
  { destruct (candidate_endpoints_active (grouped_pair 0) 10 s 100 1%positive Hs)
      as (q & g & a & Hq & Ha & Hf & _).
    - apply list_elem_of_here.
    - by vm_compute.
    - by exists q, g, a. }
  split; [done|]. split.
  { intros H1. apply (active_member_eligible _ _ _ _ Hs) in H1 as [H1 _].
    vm_compute in H1. discriminate H1. }
  vm_compute in Hnet'. injection Hnet' as <-.
  split_and!; by vm_compute.
Qed.

(** Witness of C1: the chain, detected with threshold 10; the link C-D is
    external to the group of A, B and C. *)
Lemma consolidation_conserves_links_witness :
  ∃ net1 net',
    grouped_network (chain None) true 10 = Some net1
    ∧ consolidateComplexIntersections no_round 7 2 (chain None) true 10
      = Some net'
    ∧ NoDup (OrderedDict.keys (link_dict net'))
    ∧ (102, 3%positive) ∈ link_dict net'.
Proof.
  destruct (consolidation_conserves_links no_round 7 2 (chain None) true 10
              (chain_wf None))
    as (net1 & net' & H1 & H2 & Hnd & _ & Hel & _).
  exists net1, net'. split_and!; [done..|].
  apply Hel. vm_compute in H1. injection H1 as <-. split.
  - do 2 apply list_elem_of_further. apply list_elem_of_here.
  - intros (m & Hm & Hf & Ht). apply group_of_elem in Ht as [_ Ht].
    vm_compute in Ht. discriminate.
Defined.

(** C1 as it stands fails: in [misfiled_intra] every link is in the
    outgoing list of its [from_node] and in the incoming list of its
    [to_node], and the registered link joins the two members of the group
    0; but a member of the group 1, processed first, lists it as incoming
    and has it rewired to its replacement node, so that neither of the two
    tests of the group 0 finds its other endpoint in the group: the link
    stays registered, from the replacement node of the group 0 to itself. *)
Lemma misfiled_intra_link_survives :
  links_listed misfiled_intra
  ∧ multi_group misfiled_intra 0
  ∧ (100, 1%positive) ∈ link_dict misfiled_intra
  ∧ from_node (link_of misfiled_intra 1%positive) ∈ group_of misfiled_intra 0
  ∧ to_node (link_of misfiled_intra 1%positive) ∈ group_of misfiled_intra 0
  ∧ ∃ net',
      consolidateComplexIntersections no_round 7 2 misfiled_intra false 10
        = Some net'
      ∧ (100, 1%positive) ∈ link_dict net'
      ∧ from_node (link_of net' 1%positive) = to_node (link_of net' 1%positive)
      ∧ main_node_id (node_of net' (from_node (link_of net' 1%positive)))
        = Some 0.
Proof.
  split; [by compute_done|].
  split; [unfold multi_group; vm_compute; lia|].
  split_and!; [by compute_done..|].
  eexists. split; [by vm_compute|]. split_and!; by compute_done.
Qed.

(** Witness of C6: two groups, processed in the order opposite to the one
    of the node collection as it was built. *)
Lemma cross_group_link_rewired_witness :
  ∃ net' NA NB,
    consolidateComplexIntersections no_round 7 2
      (with_node_dict (reverse (node_dict (two_groups 5))) (two_groups 5))
      false 10 = Some net'
    ∧ main_node_id (node_of net' NA) = Some 0
    ∧ main_node_id (node_of net' NB) = Some 1
    ∧ (100, 1%positive) ∈ link_dict net'
    ∧ from_node (link_of net' 1%positive) = NA
    ∧ to_node (link_of net' 1%positive) = NB.
Proof.
  destruct (cross_group_link_rewired no_round 7 2 (two_groups 5)
              (reverse (node_dict (two_groups 5))) false 10
              (two_groups_wf 5) (reverse_Permutation _))
    as (net1 & net' & H1 & H2 & H3).
  injection H1 as <-.
  destruct (H3 0 1 100 1%positive)
    as (NA & NB & _ & HA & _ & HB & Hin & _ & Hf & Ht).
  - discriminate.
  - unfold multi_group. vm_compute. lia.
  - unfold multi_group. vm_compute. lia.
  - apply list_elem_of_here.
  - apply group_of_elem. split; [|by vm_compute].
    vm_compute. do 2 apply list_elem_of_further. apply list_elem_of_here.
  - apply group_of_elem. split; [|by vm_compute].
    vm_compute. apply list_elem_of_further, list_elem_of_here.
  - exists net', NA, NB. repeat split; assumption.
Defined.

(** C6 as it stands fails: in [misfiled_cross] every link is in the
    outgoing list of its [from_node] and in the incoming list of its
    [to_node], and the registered link goes from a member of the group 0 to
    a member of the group 1; but the other member of the group 0 lists it
    as incoming, finds its [from_node] in the group and marks it for
    removal: the link collection is empty when the call returns. *)
Lemma misfiled_cross_link_removed :
  links_listed misfiled_cross
  ∧ multi_group misfiled_cross 0
  ∧ multi_group misfiled_cross 1
  ∧ (100, 1%positive) ∈ link_dict misfiled_cross
  ∧ from_node (link_of misfiled_cross 1%positive) ∈ group_of misfiled_cross 0
  ∧ to_node (link_of misfiled_cross 1%positive) ∈ group_of misfiled_cross 1
  ∧ ∃ net',
      consolidateComplexIntersections no_round 7 2 misfiled_cross false 10
        = Some net'
      ∧ link_dict net' = [].
Proof.
  split; [by compute_done|].
  split; [unfold multi_group; vm_compute; lia|].
  split; [unfold multi_group; vm_compute; lia|].
  split_and!; [by compute_done..|].
  eexists. split; by vm_compute.
Qed.


(** Witness of C9: the chain without any group identifier. *)
Lemma consolidation_without_groups_witness :
  consolidateComplexIntersections no_round 7 2 (chain None) false 10
  = Some (chain None).
Proof.
  apply consolidation_without_groups. intros m. vm_compute. lia.
Defined.

(** Witness of C4 as amended: the chain with its group given, counter 14. *)
Lemma remaining_links_have_endpoints_witness :
  ∃ net',
    consolidateComplexIntersections no_round 7 2 (chain (Some 0)) false 10
      = Some net'
    ∧ ∀ k l, (k, l) ∈ link_dict net' →
        from_node (link_of net' l) ∈ OrderedDict.values (node_dict net')
        ∧ to_node (link_of net' l) ∈ OrderedDict.values (node_dict net').
Proof.
  apply (remaining_links_have_endpoints no_round 7 2 (chain (Some 0)) false 10
           (chain (Some 0)) (chain_wf (Some 0)) eq_refl).
  apply fresh_check_sound. vm_compute. reflexivity.
Defined.

(** C4 as it stands fails: the counter of [stale_counter] is the identifier
    of a member of the group; the replacement node is registered under that
    identifier, the deletion of the member removes it, and the link that was
    rewired to it is left with an endpoint outside the node collection. *)
Lemma stale_counter_dangling_link :
  wf_network stale_counter
  ∧ ∃ net',
      consolidateComplexIntersections no_round 7 2 stale_counter false 10
        = Some net'
      ∧ (100, 1%positive) ∈ link_dict net'
      ∧ from_node (link_of net' 1%positive)
          ∉ OrderedDict.values (node_dict net').
Proof.
  split; [apply stale_counter_wf|].
  eexists. split; [by vm_compute|]. split; by compute_done.
Qed.

(** Witness of C10 as amended: two groups and a counter above every
    identifier. *)
Lemma replacement_node_registered_witness :
  ∃ net',
    consolidateComplexIntersections no_round 7 2 (two_groups 5) false 10
      = Some net'
    ∧ ∃ N, nodes (two_groups 5) !! N = None
           ∧ main_node_id (node_of net' N) = Some 1
           ∧ (node_id (node_of net' N), N) ∈ node_dict net'.
Proof.
  destruct (replacement_node_registered no_round 7 2 (two_groups 5) false 10
              (two_groups 5) (two_groups_wf 5) eq_refl)
    as (net' & H1 & H2).
  exists net'. split; [done|].
  destruct (H2 1) as (N & Hnone & Hmain & Hfresh & _).
  { unfold multi_group. vm_compute. lia. }
  exists N. split_and!; [done..|].
  apply Hfresh. apply fresh_check_sound. vm_compute. reflexivity.
Defined.

(** C10 as it stands fails: in [two_groups 0] the counter, 0, is the
    identifier of no node, yet the identifier minted for the second group,
    1, is the one of a member of the first; the replacement node of the
    second group is registered under it and removed with that member, and no
    node of the node collection carries the identifier of the second group
    when the call returns. *)
Lemma two_groups_replacement_lost :
  wf_network (two_groups 0)
  ∧ Forall (λ kr, node_id (node_of (two_groups 0) kr.2)
                  ≠ max_node_id (two_groups 0)) (node_dict (two_groups 0))
  ∧ multi_group (two_groups 0) 1
  ∧ ∃ net',
      consolidateComplexIntersections no_round 7 2 (two_groups 0) false 10
        = Some net'
      ∧ main_node_id (node_of net' 6%positive) = Some 1
      ∧ nodes (two_groups 0) !! 6%positive = None
      ∧ (6%positive ∉ OrderedDict.values (node_dict net'))
      ∧ Forall (λ r, main_node_id (node_of net' r) ≠ Some 1)
               (OrderedDict.values (node_dict net')).
Proof.
  split; [apply two_groups_wf|]. split; [by compute_done|].
  split; [unfold multi_group; vm_compute; lia|].
  eexists. split; [by vm_compute|]. split_and!; by compute_done.
Qed.

(** ** The further properties at work *)

(** Witness of X4: the two groups, whose identifiers 0 and 1 lie below the
    counter 2. *)
Lemma detection_keeps_groups_witness :
  ∃ net',
    _identifyComplexIntersections (two_groups 5) 40 = Some net'
    ∧ main_ids_below net'
    ∧ (∀ m, m < max_main_node_id (two_groups 5) →
            group_of net' m = group_of (two_groups 5) m)
    ∧ (∀ m r, max_main_node_id (two_groups 5) ≤ m → r ∈ group_of net' m →
              candidate_endpoint (two_groups 5) 40 r).
Proof.
  apply (detection_keeps_groups (two_groups 5) 40).
  intros x n k Hn Hk. apply elem_of_list_to_map_2 in Hn.
  repeat (apply elem_of_cons in Hn as [[= -> ->]|Hn];
          [simpl in Hk; injection Hk as <-; simpl; lia|]).
  by apply elem_of_nil in Hn.
Defined.

(** Witness of X5: the chain with the thresholds 10 and 60. *)
Lemma detection_threshold_monotone_witness :
  ∃ net1 net2,
    _identifyComplexIntersections (chain None) 10 = Some net1
    ∧ _identifyComplexIntersections (chain None) 60 = Some net2
    ∧ ∀ x y,
        candidate_endpoint (chain None) 10 x →
        candidate_endpoint (chain None) 10 y →
        main_node_id (node_of net1 x) = main_node_id (node_of net1 y) →
        is_Some (main_node_id (node_of net2 x))
        ∧ main_node_id (node_of net2 x) = main_node_id (node_of net2 y).
Proof.
  apply (detection_threshold_monotone (chain None) 10 60).
  by vm_compute.
Defined.

(** Witness of X6: the chain with a threshold below the length of every
    link. *)
Lemma detection_without_candidates_witness :
  _identifyComplexIntersections (chain None) 1 = Some (chain None).
Proof.
  apply (detection_without_candidates (chain None) 1).
  intros k l Hin. left.
  repeat (apply elem_of_cons in Hin as [[= -> ->]|Hin]; [by vm_compute|]).
  by apply elem_of_nil in Hin.
Defined.

(** Witness of X8: the two groups, counter 5. *)
Lemma consolidation_counters_witness :
  ∃ net1 net',
    grouped_network (two_groups 5) false 10 = Some net1
    ∧ consolidateComplexIntersections no_round 7 2 (two_groups 5) false 10
      = Some net'
    ∧ max_node_id net'
      = max_node_id (two_groups 5)
        + Z.of_nat (length (consolidated_groups net1))
    ∧ max_main_node_id net' = max_main_node_id net1
    ∧ ∀ i m g, consolidated_groups net1 !! i = Some (m, g) →
        ∃ N, nodes net1 !! N = None
             ∧ main_node_id (node_of net' N) = Some m
             ∧ node_id (node_of net' N)
               = max_node_id (two_groups 5) + Z.of_nat i.
Proof.
  apply (consolidation_counters no_round 7 2 (two_groups 5) false 10).
  apply two_groups_wf.
Defined.

(** Witness of X9: the chain with its group given. *)
Lemma consolidation_spares_node_objects_witness :
  ∃ net1 net',
    grouped_network (chain (Some 0)) false 10 = Some net1
    ∧ consolidateComplexIntersections no_round 7 2 (chain (Some 0)) false 10
      = Some net'
    ∧ (∀ x n, nodes net1 !! x = Some n → nodes net' !! x = Some n)
    ∧ (∀ m r, multi_group net1 m → r ∈ group_of net1 m →
              r ∉ OrderedDict.values (node_dict net')).
Proof.
  apply (consolidation_spares_node_objects no_round 7 2 (chain (Some 0))
           false 10).
  apply chain_wf.
Defined.

(** Witness of X10: the chain, detected with threshold 10. *)
Lemma consolidation_link_collection_witness :
  ∃ net1 net',
    grouped_network (chain None) true 10 = Some net1
    ∧ consolidateComplexIntersections no_round 7 2 (chain None) true 10
      = Some net'
    ∧ sublist (link_dict net') (link_dict net1)
    ∧ ∀ k l, (k, l) ∈ link_dict net1 →
        link_id (link_of net' l) = k
        ∧ link_length (link_of net' l) = link_length (link_of net1 l)
        ∧ ((¬ ∃ m, multi_group net1 m
                   ∧ from_node (link_of net1 l) ∈ group_of net1 m) →
           from_node (link_of net' l) = from_node (link_of net1 l))
        ∧ ((¬ ∃ m, multi_group net1 m
                   ∧ to_node (link_of net1 l) ∈ group_of net1 m) →
           to_node (link_of net' l) = to_node (link_of net1 l))
        ∧ ((∃ m, multi_group net1 m
                 ∧ from_node (link_of net1 l) ∈ group_of net1 m
                 ∧ to_node (link_of net1 l) ∈ group_of net1 m) →
           link_of net' l = link_of net1 l).
Proof.
  apply (consolidation_link_collection no_round 7 2 (chain None) true 10).
  apply chain_wf.
Defined.

(** Witness of X11: the two groups, consolidated twice. *)
Lemma consolidation_idempotent_witness :
  ∃ net',
    consolidateComplexIntersections no_round 7 2 (two_groups 5) false 10
      = Some net'
    ∧ consolidateComplexIntersections no_round 7 2 net' false 10 = Some net'.
Proof.
  apply (consolidation_idempotent no_round 7 2 (two_groups 5) false 10 10).
  apply two_groups_wf.
Defined.

(** Witness of X12: the link A-B of the chain, threshold 10. *)
Lemma auto_consolidation_merges_candidates_witness :
  ∃ net',
    consolidateComplexIntersections no_round 7 2 (chain None) true 10
      = Some net'
    ∧ ((100, 1%positive) ∉ link_dict net')
    ∧ (from_node (link_of (chain None) 1%positive)
         ∉ OrderedDict.values (node_dict net'))
    ∧ (to_node (link_of (chain None) 1%positive)
         ∉ OrderedDict.values (node_dict net'))
    ∧ ∃ N m, nodes (chain None) !! N = None
             ∧ max_main_node_id (chain None) ≤ m
             ∧ main_node_id (node_of net' N) = Some m.
Proof.
  apply (auto_consolidation_merges_candidates no_round 7 2 (chain None) 10
           100 1%positive).
  - apply chain_wf.
  - apply list_elem_of_here.
  - by vm_compute.
  - by vm_compute.
Defined.

(** Witness of X13: the chain with its group given; its members are
    signal-controlled. *)
Lemma replacement_ctrl_type_witness :
  ∃ net' N,
    consolidateComplexIntersections no_round 7 2 (chain (Some 0)) false 10
      = Some net'
    ∧ main_node_id (node_of net' N) = Some 0
    ∧ ctrl_type (node_of net' N) = Some "signal"%string.
Proof.
  destruct (replacement_ctrl_type no_round 7 2 (chain (Some 0)) false 10
              (chain_wf (Some 0)))
    as (net1 & net' & H1 & H2 & H3).
  injection H1 as <-.
  destruct (H3 0) as (N & _ & HN & Hctrl & _).
  { unfold multi_group. vm_compute. lia. }
  exists net', N. split_and!; [done..|].
  apply Hctrl. exists 1%positive. split; [|by vm_compute].
  apply group_of_elem. split; [|by vm_compute].
  vm_compute. apply list_elem_of_here.
Defined.


(** Witness of X15: of the links of the chain, only C-D leaves the group
    of A, B and C. *)
Lemma replacement_link_lists_witness :
  ∃ net' N,
    consolidateComplexIntersections no_round 7 2 (chain (Some 0)) false 10
      = Some net'
    ∧ main_node_id (node_of net' N) = Some 0
    ∧ incoming_link_list (node_of net' N) = []
    ∧ outgoing_link_list (node_of net' N) = [3%positive].
Proof.
  destruct (replacement_link_lists no_round 7 2 (chain (Some 0)) false 10
              (chain_wf (Some 0)))
    as (net1 & net' & H1 & H2 & H3).
  injection H1 as <-.
  destruct (H3 0) as (N & _ & HN & Hin & Hout).
  { unfold multi_group. vm_compute. lia. }
  exists net', N. split_and!; [done..| |].
  - rewrite Hin. by vm_compute.
  - rewrite Hout. by vm_compute.
Defined.

(** Witness of X16: the two groups, counter 5. *)
Lemma consolidation_keeps_well_formed_witness :
  ∃ net',
    consolidateComplexIntersections no_round 7 2 (two_groups 5) false 10
      = Some net'
    ∧ wf_network net'.
Proof.
  apply (consolidation_keeps_well_formed no_round 7 2 (two_groups 5) false 10
           (two_groups 5) (two_groups_wf 5) eq_refl).
  apply fresh_check_sound. vm_compute. reflexivity.
Defined.

(** Witness of X17: the chain with its group given; the node D stays, the
    replacement node follows it. *)
Lemma consolidation_node_order_witness :
  ∃ net' N,
    consolidateComplexIntersections no_round 7 2 (chain (Some 0)) false 10
      = Some net'
    ∧ node_dict net' = [(13, 4%positive); (14, N)].
Proof.
  destruct (consolidation_node_order no_round 7 2 (chain (Some 0)) false 10
              (chain (Some 0)) (chain_wf (Some 0)) eq_refl)
    as (net' & Ns & H1 & Hlen & Hdict & _).
  { apply fresh_check_sound. vm_compute. reflexivity. }
  vm_compute in Hlen.
  destruct Ns as [|N [|? ?]]; [discriminate Hlen| |discriminate Hlen].
  exists net', N. split; [done|]. rewrite Hdict. by vm_compute.
Defined.

(** Witness of X19: the second member of the group has no coordinates. *)
Lemma consolidation_raises_on_missing_attribute_witness :
  consolidateComplexIntersections no_round 7 2 missing_geometry false 10
  = None.
Proof.
  apply (consolidation_raises_on_missing_attribute no_round 7 2
           missing_geometry false 10 missing_geometry 2 2%positive
           (nodes missing_geometry !!! 2%positive) 0).
  - reflexivity.
  - apply list_elem_of_further, list_elem_of_here.
  - by vm_compute.
  - by vm_compute.
  - unfold multi_group. vm_compute. lia.
  - left. by vm_compute.
Defined.

(** Witness of X18: the chain with its group given, counter 14. *)
Lemma consolidation_keeps_counter_above_witness :
  fresh_identifiers (chain (Some 0))
  ∧ ∃ net',
      consolidateComplexIntersections no_round 7 2 (chain (Some 0)) false 10
        = Some net'
      ∧ node_ids_below net'.
Proof.
  apply (consolidation_keeps_counter_above no_round 7 2 (chain (Some 0))
           false 10 (chain (Some 0)) (chain_wf (Some 0)) eq_refl).
  intros k Hk. unfold OrderedDict.keys in Hk. simpl in Hk.
  repeat (apply elem_of_cons in Hk as [->|Hk]; [simpl; lia|]).
  by apply elem_of_nil in Hk.
Defined.

(** Witness of X7: the chain, threshold 10. *)
Lemma detection_keeps_well_formed_witness :
  ∃ net',
    _identifyComplexIntersections (chain None) 10 = Some net'
    ∧ wf_network net'
    ∧ links net' = links (chain None)
    ∧ node_dict net' = node_dict (chain None)
    ∧ link_dict net' = link_dict (chain None)
    ∧ max_node_id net' = max_node_id (chain None)
    ∧ dom (nodes net') = dom (nodes (chain None)).
Proof.
  apply (detection_keeps_well_formed (chain None) 10). apply chain_wf.
Defined.
